(** * Detection post-processing of the eScriptorium YOLO popup

    A shallow embedding of [src/popup/popup.js]: the preprocessing geometry
    ([preprocess]), the decoding of the raw detector output into boxes,
    scores and classes ([detect]), the suppression call, the rebasing of the
    surviving boxes to page coordinates ([renderBoxes]) and the tensor
    bookkeeping of one [detect] call.

    JavaScript numbers are IEEE-754 binary64 values and tensor elements are
    binary32 values; both are modelled with the executable specification of
    floating-point arithmetic of the standard library ([spec_float]). *)

From Stdlib Require Import ZArith List Lia Bool.
From Stdlib Require Import Floats.SpecFloat.
From stdpp Require Import gmap strings list sorting.

(** * Part I: the model *)

(** ** Floating-point values *)

Definition is_nan (x : spec_float) : bool :=
  match x with S754_nan => true | _ => false end.

#[export] Instance spec_float_inhabited : Inhabited spec_float :=
  populate S754_nan.

(** ** JavaScript numbers: binary64 *)

Module F64.
Definition prec : Z := 53.
Definition emax : Z := 1024.
Definition num := spec_float.

Definition add : num -> num -> num := SFadd prec emax.
Definition sub : num -> num -> num := SFsub prec emax.
Definition mul : num -> num -> num := SFmul prec emax.
Definition div : num -> num -> num := SFdiv prec emax.
Definition ltb : num -> num -> bool := SFltb.
Definition leb : num -> num -> bool := SFleb.

(** An integer as a number (exact below 2^53). *)
Definition of_Z (z : Z) : num := binary_normalize prec emax z 0 false.
Definition of_nat (n : nat) : num := of_Z (Z.of_nat n).

(** The decimal literal [a/b], rounded to nearest like a numeric literal
    of the source text ([lit 45 100] is [0.45]). *)
Definition lit (a b : Z) : num := div (of_Z a) (of_Z b).

Definition zero : num := S754_zero false.
Definition one : num := of_Z 1.
Definition nan : num := S754_nan.
Definition infinity : num := S754_infinity false.

(** [valid x]: [x] is a genuine binary64 value (canonical mantissa). *)
Definition valid (x : num) : bool := valid_binary prec emax x.

(** Finite and strictly positive. *)
Definition is_pos_finite (x : num) : bool :=
  match x with S754_finite false _ _ => true | _ => false end.

(** [Math.max] and [Math.min]: [NaN] if either argument is, and the
    positive zero is the larger of the two zeros. *)
Definition max (a b : num) : num :=
  if is_nan a || is_nan b then nan
  else if ltb a b then b
  else if ltb b a then a
  else match a with S754_zero true => b | _ => a end.
Definition min (a b : num) : num :=
  if is_nan a || is_nan b then nan
  else if ltb b a then b
  else if ltb a b then a
  else match a with S754_zero false => b | _ => a end.

End F64.

(** ** Tensor elements: binary32 *)

Module F32.
Definition prec : Z := 24.
Definition emax : Z := 128.
Definition num := spec_float.

Definition add : num -> num -> num := SFadd prec emax.
Definition sub : num -> num -> num := SFsub prec emax.
Definition mul : num -> num -> num := SFmul prec emax.
Definition div : num -> num -> num := SFdiv prec emax.
Definition ltb : num -> num -> bool := SFltb.
Definition leb : num -> num -> bool := SFleb.

Definition of_Z (z : Z) : num := binary_normalize prec emax z 0 false.
Definition nan : num := S754_nan.
Definition neg_infinity : num := S754_infinity true.

(** Reading an element of a [Float32Array] yields the same value as a
    JavaScript number; the conversion is exact. *)
Definition to_f64 (x : num) : F64.num :=
  match x with
  | S754_finite s m e => binary_round F64.prec F64.emax s m e
  | _ => x
  end.
End F32.


(** ** Tensors

    A tensor is a shape and a flat buffer in row-major order, the layout
    [dataSync] exposes.  The operations below are the TensorFlow.js calls
    made by [preprocess] and [detect], at the ranks they are used at. *)

Record tensor (A : Type) := Tensor { shape : list nat; data : list A }.
Arguments Tensor {A} _ _.
Arguments shape {A} _.
Arguments data {A} _.

Section TensorOps.
Context {A : Type} `{Inhabited A}.

Definition dim (t : tensor A) (axis : nat) : nat := nth axis (shape t) 0.

(** Element [i, j, k] of a rank-3 tensor. *)
Definition at3 (t : tensor A) (i j k : nat) : A :=
  nth ((i * dim t 1 + j) * dim t 2 + k) (data t) inhabitant.

(** The buffer of the rank-3 tensor whose element [i, j, k] is [f i j k]. *)
Definition build3 (d0 d1 d2 : nat) (f : nat -> nat -> nat -> A) : list A :=
  flat_map (fun i =>
    flat_map (fun j => map (fun k => f i j k) (seq 0 d2)) (seq 0 d1))
    (seq 0 d0).

(** [t.transpose([0, 2, 1])]. *)
Definition transpose021 (t : tensor A) : tensor A :=
  Tensor [dim t 0; dim t 2; dim t 1]
         (build3 (dim t 0) (dim t 2) (dim t 1) (fun i j k => at3 t i k j)).

(** Extent of a slice along one axis; a size of [-1] runs to the end. *)
Definition slice_extent (d b : nat) (s : Z) : nat :=
  if (s =? -1)%Z then d - b else Z.to_nat s.

(** [t.slice([b0, b1, b2], [s0, s1, s2])]. *)
Definition slice3 (t : tensor A) (b : nat * nat * nat) (s : Z * Z * Z)
  : tensor A :=
  let '(b0, b1, b2) := b in
  let '(s0, s1, s2) := s in
  let e0 := slice_extent (dim t 0) b0 s0 in
  let e1 := slice_extent (dim t 1) b1 s1 in
  let e2 := slice_extent (dim t 2) b2 s2 in
  Tensor [e0; e1; e2]
         (build3 e0 e1 e2 (fun i j k => at3 t (b0 + i) (b1 + j) (b2 + k))).

(** [t.pad([[l0, r0], [l1, r1], [l2, r2]])] with constant [c]. *)
Definition pad3 (t : tensor A) (p0 p1 p2 : nat * nat) (c : A) : tensor A :=
  let e0 := fst p0 + dim t 0 + snd p0 in
  let e1 := fst p1 + dim t 1 + snd p1 in
  let e2 := fst p2 + dim t 2 + snd p2 in
  let inside l d i := (l <=? i) && (i <? l + d) in
  Tensor [e0; e1; e2]
         (build3 e0 e1 e2 (fun i j k =>
            if inside (fst p0) (dim t 0) i && inside (fst p1) (dim t 1) j
               && inside (fst p2) (dim t 2) k
            then at3 t (i - fst p0) (j - fst p1) (k - fst p2)
            else c)).

(** Element [i, j, k] of the concatenation of [ts] along the last axis. *)
Fixpoint concat_at (ts : list (tensor A)) (i j k : nat) : A :=
  match ts with
  | [] => inhabitant
  | t :: rest =>
      if k <? dim t 2 then at3 t i j k else concat_at rest i j (k - dim t 2)
  end.

(** [tf.concat(ts, 2)] for rank-3 tensors that agree on the first two
    axes. *)
Definition concat2 (ts : list (tensor A)) : tensor A :=
  let d0 := match ts with t :: _ => dim t 0 | [] => 0 end in
  let d1 := match ts with t :: _ => dim t 1 | [] => 0 end in
  let d2 := fold_right (fun t n => dim t 2 + n) 0 ts in
  Tensor [d0; d1; d2] (build3 d0 d1 d2 (concat_at ts)).

(** [t.squeeze()] drops every axis of extent one; the buffer is shared. *)
Definition squeeze (t : tensor A) : tensor A :=
  Tensor (filter (fun d => d <> 1) (shape t)) (data t).

(** [t.squeeze(0)] drops the leading axis, which has extent one. *)
Definition squeeze0 (t : tensor A) : tensor A :=
  Tensor (tail (shape t)) (data t).

(** An element-wise binary kernel; a scalar second operand is broadcast. *)
Definition binop (f : A -> A -> A) (a b : tensor A) : tensor A :=
  match shape b, data b with
  | [], [y] => Tensor (shape a) (map (fun x => f x y) (data a))
  | _, _ => Tensor (shape a) (zip_with f (data a) (data b))
  end.

Definition scalar (c : A) : tensor A := Tensor [] [c].

(** Row [r] of a rank-2 tensor. *)
Definition row (t : tensor A) (r : nat) : list A :=
  firstn (dim t 1) (skipn (r * dim t 1) (data t)).

(** [t.gather(indices, 0)] on a rank-2 tensor: the selected rows. *)
Definition gather_rows (t : tensor A) (indices : list nat) : tensor A :=
  Tensor [length indices; dim t 1] (flat_map (row t) indices).

(** [t.gather(indices, 0)] on a rank-1 tensor. *)
Definition gather1 (t : tensor A) (indices : list nat) : tensor A :=
  Tensor [length indices]
         (map (fun i => nth i (data t) inhabitant) indices).

End TensorOps.

(** ** Box decoding ([detect]) *)

(** [a.slice(from, to)] on an array, for [0 <= from <= to]. *)
Definition js_slice {A} (a : list A) (from to : nat) : list A :=
  firstn (to - from) (skipn from a).

Definition tf_add := binop F32.add.
Definition tf_sub := binop F32.sub.
Definition tf_div := binop F32.div.

(** The [boxes] tensor of [detect], from the transposed output
    [transRes] of shape [1, N, 4 + C]. *)
Definition detect_boxes (transRes : tensor F32.num) : tensor F32.num :=
  let w := slice3 transRes (0, 0, 2) (-1, -1, 1)%Z in
  let h := slice3 transRes (0, 0, 3) (-1, -1, 1)%Z in
  let x1 := tf_sub (slice3 transRes (0, 0, 0) (-1, -1, 1)%Z)
                   (tf_div w (scalar (F32.of_Z 2))) in
  let y1 := tf_sub (slice3 transRes (0, 0, 1) (-1, -1, 1)%Z)
                   (tf_div h (scalar (F32.of_Z 2))) in
  squeeze (concat2 [y1; x1; tf_add y1 h; tf_add x1 w]).

(** Attribute [a] of detection [i] in the raw output of shape
    [1, 4 + C, N]. *)
Definition attribute (res : tensor F32.num) (a i : nat) : F32.num :=
  at3 res 0 a i.

(** Column [a] of the transposed output, as the slice [detect] takes. *)
Definition column (res : tensor F32.num) (a : nat) : tensor F32.num :=
  slice3 (transpose021 res) (0, 0, a) (-1, -1, 1)%Z.

(** The four component tensors [detect] concatenates. *)
Definition half (res : tensor F32.num) (a : nat) : tensor F32.num :=
  tf_div (column res a) (scalar (F32.of_Z 2)).
Definition x1_t (res : tensor F32.num) : tensor F32.num :=
  tf_sub (column res 0) (half res 2).
Definition y1_t (res : tensor F32.num) : tensor F32.num :=
  tf_sub (column res 1) (half res 3).
Definition y2_t (res : tensor F32.num) : tensor F32.num :=
  tf_add (y1_t res) (column res 3).
Definition x2_t (res : tensor F32.num) : tensor F32.num :=
  tf_add (x1_t res) (column res 2).

(** ** Scores and classes ([detect]) *)

(** A reduction along axis 1 of a rank-2 tensor. *)
Definition reduce_rows {A B} `{Inhabited A} (f : list A -> B) (t : tensor A)
  : tensor B :=
  Tensor [dim t 0] (map (fun r => f (row t r)) (seq 0 (dim t 0))).

(** Modelled from the spec: [max] and [argMax] are TensorFlow.js kernels,
    which are not part of the repository.  They are modelled as the
    left-to-right scan of the reduced axis that keeps the first-seen
    maximum: the running maximum is replaced only by a strictly greater
    value. *)
Definition row_max (scores : list F32.num) : F32.num :=
  match scores with
  | [] => F32.neg_infinity
  | v :: rest => fold_left (fun m x => if F32.ltb m x then x else m) rest v
  end.

(** Modelled from the spec: the scan behind [argMax]; [best] is the
    running maximum, found at index [besti], and [j] is the index of the
    head of [l]. *)
Fixpoint scan_argmax (best : F32.num) (besti j : nat) (l : list F32.num) : nat :=
  match l with
  | [] => besti
  | v :: rest =>
      if F32.ltb best v then scan_argmax v j (S j) rest
      else scan_argmax best besti (S j) rest
  end.

(** Modelled from the spec: [argMax] of one row, the lowest index holding
    the maximum. *)
Definition row_argmax (scores : list F32.num) : nat :=
  match scores with
  | [] => 0
  | v :: rest => scan_argmax v 0 1 rest
  end.

Definition tf_max1 : tensor F32.num -> tensor F32.num := reduce_rows row_max.
Definition tf_argMax1 : tensor F32.num -> tensor nat := reduce_rows row_argmax.

(** The [scores] and [classes] tensors of [detect]; [numClass] is the
    length of the label list. *)
Definition detect_scores_classes (numClass : nat) (transRes : tensor F32.num)
  : tensor F32.num * tensor nat :=
  let rawScores :=
    squeeze0 (slice3 transRes (0, 0, 4) (-1, -1, Z.of_nat numClass)%Z) in
  (tf_max1 rawScores, tf_argMax1 rawScores).

(** The class scores of detection [i], in class order. *)
Definition class_scores (res : tensor F32.num) (C i : nat) : list F32.num :=
  map (fun c => attribute res (4 + c) i) (seq 0 C).

Definition rawScores (res : tensor F32.num) (C : nat) : tensor F32.num :=
  squeeze0 (slice3 (transpose021 res) (0, 0, 4) (-1, -1, Z.of_nat C)%Z).

(** A raw output with two classes and two detections. *)
Definition sample_res : tensor F32.num :=
  Tensor [1; 6; 2]
         [ F32.of_Z 50; F32.of_Z 100;   F32.of_Z 50; F32.of_Z 100;
           F32.of_Z 20; F32.of_Z 40;    F32.of_Z 10; F32.of_Z 40;
           F32.div (F32.of_Z 9) (F32.of_Z 10); F32.div (F32.of_Z 1) (F32.of_Z 10);
           F32.div (F32.of_Z 1) (F32.of_Z 10); F32.div (F32.of_Z 1) (F32.of_Z 10) ].


(** ** Rebasing the surviving boxes ([renderBoxes]) *)

(** The module-level variables [renderBoxes] reads: the size of the page
    image and the mapping from label to block-type key. *)
Record globals := Globals {
  ImageOriginalWidth : F64.num;
  ImageOriginalHeight : F64.num;
  typeMappings : gmap string Z
}.

(** One emitted block: the polygon and the block-type key; [None] is the
    JavaScript [undefined]. *)
Record annotation := Annotation {
  box : list (F64.num * F64.num);
  typology : option Z
}.

(** [a[i]] used as a number: an absent element is [undefined], which
    arithmetic turns into [NaN]. *)
Definition num_at (a : list F64.num) (i : nat) : F64.num := nth i a F64.nan.

(** [labels[c]] for a class id [c] that may itself be [undefined]. *)
Definition label_of (labels : list string) (c : option Z) : option string :=
  match c with
  | Some z => if (z <? 0)%Z then None else labels !! Z.to_nat z
  | None => None
  end.

(** [typeMappings[l]]; an [undefined] label is the property key
    ["undefined"].  The mapping is a plain object filled by [createTypes];
    labels are taken not to name a member every object inherits. *)
Definition type_of (tm : gmap string Z) (l : option string) : option Z :=
  match l with
  | Some s => tm !! s
  | None => tm !! "undefined"
  end.

(** The four corners of one box after scaling, in emission order. *)
Definition polygon (x1 y1 x2 y2 : F64.num) : list (F64.num * F64.num) :=
  [(x1, y1); (x2, y1); (x2, y2); (x1, y2)].

(** Body of the loop of [renderBoxes] for index [i]. *)
Definition render_one (g : globals) (labels : list string)
    (boxes_data : list F64.num) (classes_data : list Z)
    (ratios : list F64.num) (modelWidth modelHeight : F64.num) (i : nat)
  : annotation :=
  let coords := js_slice boxes_data (i * 4) ((i + 1) * 4) in
  let y1 := num_at coords 0 in
  let x1 := num_at coords 1 in
  let y2 := num_at coords 2 in
  let x2 := num_at coords 3 in
  let x1 := F64.mul x1 (F64.mul (num_at ratios 0)
                          (F64.div (ImageOriginalWidth g) modelWidth)) in
  let x2 := F64.mul x2 (F64.mul (num_at ratios 0)
                          (F64.div (ImageOriginalWidth g) modelWidth)) in
  let y1 := F64.mul y1 (F64.mul (num_at ratios 1)
                          (F64.div (ImageOriginalHeight g) modelHeight)) in
  let y2 := F64.mul y2 (F64.mul (num_at ratios 1)
                          (F64.div (ImageOriginalHeight g) modelHeight)) in
  let width := F64.sub x2 x1 in
  let height := F64.sub y2 y1 in
  {| box := polygon x1 y1 x2 y2;
     typology := type_of (typeMappings g)
                   (label_of labels (classes_data !! i)) |}.

(** [renderBoxes]: one pass over the indices of [scores_data], pushing one
    block per index.  The percentage computed from the score is not used
    afterwards. *)
Definition renderBoxes (g : globals) (labels : list string)
    (boxes_data scores_data : list F64.num) (classes_data : list Z)
    (ratios : list F64.num) (modelWidth modelHeight : F64.num)
  : list annotation :=
  fold_left
    (fun boxes i =>
       let score := F64.mul (num_at scores_data i) (F64.of_Z 100) in
       boxes ++ [render_one g labels boxes_data classes_data ratios
                            modelWidth modelHeight i])
    (seq 0 (length scores_data)) [].

(** The scale factors [renderBoxes] multiplies by. *)
Definition scaleX (g : globals) (ratios : list F64.num) (modelWidth : F64.num)
  : F64.num :=
  F64.mul (num_at ratios 0) (F64.div (ImageOriginalWidth g) modelWidth).
Definition scaleY (g : globals) (ratios : list F64.num) (modelHeight : F64.num)
  : F64.num :=
  F64.mul (num_at ratios 1) (F64.div (ImageOriginalHeight g) modelHeight).

(** A page of 200 x 200 pixels whose mapping knows label ["a"] only. *)
Definition sample_globals : globals :=
  {| ImageOriginalWidth := F64.of_Z 200;
     ImageOriginalHeight := F64.of_Z 200;
     typeMappings := <["a" := 7%Z]> ∅ |}.

Definition sample_labels : list string := ["a"; "b"].

Definition sample_boxes_data : list F64.num :=
  [F64.of_Z 80; F64.of_Z 80; F64.of_Z 120; F64.of_Z 120;
   F64.of_Z 10; F64.of_Z 20; F64.of_Z 30; F64.of_Z 40].

(** How a JavaScript call ends: with a value, or with a thrown error. *)
Inductive completion (A : Type) : Type :=
| Normal (v : A)
| Throw (msg : string).
Arguments Normal {A} v.
Arguments Throw {A} msg.

(** A call of [renderBoxes]: its body has no [throw] and reads arrays and
    objects only, which never raises; it always completes normally. *)
Definition renderBoxes_call (g : globals) (labels : list string)
    (boxes_data scores_data : list F64.num) (classes_data : list Z)
    (ratios : list F64.num) (modelWidth modelHeight : F64.num)
  : completion (list annotation) :=
  Normal (renderBoxes g labels boxes_data scores_data classes_data ratios
            modelWidth modelHeight).

(** ** Suppression ([detect]) *)

Section Suppression.
Variables (boxes : list F64.num) (scores : list F64.num).

Definition score_of (i : nat) : F64.num := num_at scores i.

(** Modelled from the spec: the intersection over union of boxes [i] and
    [j] of the flat [y1, x1, y2, x2] buffer; the library routine that
    computes it is not part of the repository.  It is the overlapping area
    divided by the area of the union. *)
Definition iou (i j : nat) : F64.num :=
  let y1i := num_at boxes (i * 4) in
  let x1i := num_at boxes (i * 4 + 1) in
  let y2i := num_at boxes (i * 4 + 2) in
  let x2i := num_at boxes (i * 4 + 3) in
  let y1j := num_at boxes (j * 4) in
  let x1j := num_at boxes (j * 4 + 1) in
  let y2j := num_at boxes (j * 4 + 2) in
  let x2j := num_at boxes (j * 4 + 3) in
  let areaI := F64.mul (F64.sub y2i y1i) (F64.sub x2i x1i) in
  let areaJ := F64.mul (F64.sub y2j y1j) (F64.sub x2j x1j) in
  let h := F64.max (F64.sub (F64.min y2i y2j) (F64.max y1i y1j)) F64.zero in
  let w := F64.max (F64.sub (F64.min x2i x2j) (F64.max x1i x1j)) F64.zero in
  let inter := F64.mul h w in
  F64.div inter (F64.sub (F64.add areaI areaJ) inter).

Variables (maxOutputSize : nat) (iouThreshold scoreThreshold : F64.num).

(** Insertion of a candidate into a list kept in descending score order;
    among equal scores the earlier candidate stays first. *)
Fixpoint insert_desc (c : nat) (l : list nat) : list nat :=
  match l with
  | [] => [c]
  | d :: r =>
      if F64.ltb (score_of c) (score_of d) then d :: insert_desc c r
      else c :: d :: r
  end.

Definition sort_desc (l : list nat) : list nat := fold_right insert_desc [] l.

(** The greedy pass: the candidates are visited in descending score order;
    one is emitted unless the cap is reached or its overlap with a box
    already emitted exceeds the threshold. *)
Fixpoint select (cands selected : list nat) : list nat :=
  match cands with
  | [] => selected
  | c :: rest =>
      if maxOutputSize <=? length selected then selected
      else if existsb (fun s => F64.ltb iouThreshold (iou c s)) selected
           then select rest selected
           else select rest (selected ++ [c])
  end.

(** Modelled from the spec: [tf.image.nonMaxSuppressionAsync] belongs to
    TensorFlow.js and is not part of the repository.  It is modelled as the
    greedy non-maximum suppression the spec describes: boxes whose score is
    below the score threshold are excluded, the others are taken in
    descending score order (ties by original index), and a box is discarded
    when its intersection over union with a selected box exceeds the
    threshold; at most [maxOutputSize] indices are returned, in selection
    order. *)
Definition nonMaxSuppression : list nat :=
  let candidates :=
    filter (fun i => F64.ltb (score_of i) scoreThreshold = false)
           (seq 0 (length scores)) in
  select (sort_desc candidates) [].

End Suppression.

(** The call made by [detect]:
    [tf.image.nonMaxSuppressionAsync(boxes, scores, 500, 0.45, 0.2)]. *)
Definition suppress (boxes scores : list F64.num) : list nat :=
  nonMaxSuppression boxes scores 500 (F64.lit 45 100) (F64.lit 2 10).

(** Two boxes of a 100 x 100 page that do not overlap, and two that
    overlap almost entirely. *)
Definition disjoint_boxes : list F64.num :=
  [F64.of_Z 0; F64.of_Z 0; F64.of_Z 10; F64.of_Z 10;
   F64.of_Z 50; F64.of_Z 50; F64.of_Z 60; F64.of_Z 60].
Definition overlapping_boxes : list F64.num :=
  [F64.of_Z 0; F64.of_Z 0; F64.of_Z 10; F64.of_Z 10;
   F64.of_Z 0; F64.of_Z 1; F64.of_Z 10; F64.of_Z 10].
Definition two_scores : list F64.num := [F64.lit 9 10; F64.lit 8 10].

(** ** The tensor engine

    Every kernel allocates a tensor that the engine keeps alive until it is
    disposed.  [tf.tidy] opens a scope, runs its body and, on the way out,
    disposes every tensor the body allocated except those it returns;
    [startScope] alone opens a scope and disposes nothing. *)

Inductive kernel : Type :=
| KFromPixels | KPad | KResizeBilinear | KDiv | KExpandDims | KExecute
| KTranspose | KSlice | KSub | KAdd | KConcat | KSqueeze | KMax | KArgMax
| KNonMaxSuppression | KGather.

Record engine := Engine {
  nextId : nat;                (* identifier of the next tensor *)
  live : gset nat;             (* tensors not yet disposed *)
  scopes : list (list nat);    (* open scopes, innermost first *)
  kernels : list kernel        (* kernels run so far, oldest first *)
}.

(** A tensor as the program holds it: an identifier and its contents. *)
Record handle (A : Type) := Handle { hid : nat; hval : tensor A }.
Arguments Handle {A} _ _.
Arguments hid {A} _.
Arguments hval {A} _.

(** Computations that read and update the engine and may throw. *)
Definition M (A : Type) : Type := engine -> completion A * engine.

#[export] Instance M_ret : MRet M := fun A v e => (Normal v, e).

#[export] Instance M_bind : MBind M := fun A B f m e =>
  match m e with
  | (Normal v, e') => f v e'
  | (Throw msg, e') => (Throw msg, e')
  end.

Definition throw {A} (msg : string) : M A := fun e => (Throw msg, e).

(** An allocated tensor is tracked by the innermost open scope. *)
Definition track (id : nat) (ss : list (list nat)) : list (list nat) :=
  match ss with
  | [] => []
  | s :: rest => (id :: s) :: rest
  end.

(** Running a kernel: the result gets a fresh identifier and is live. *)
Definition make {A} (k : kernel) (v : tensor A) : M (handle A) := fun e =>
  (Normal (Handle (nextId e) v),
   {| nextId := S (nextId e);
      live := {[ nextId e ]} ∪ live e;
      scopes := track (nextId e) (scopes e);
      kernels := kernels e ++ [k] |}).

(** [tf.engine().startScope()]. *)
Definition startScope : M unit := fun e =>
  (Normal tt,
   {| nextId := nextId e; live := live e;
      scopes := [] :: scopes e; kernels := kernels e |}).

(** Leaving the innermost scope: its tensors are disposed, except those in
    [keep], which pass to the enclosing scope. *)
Definition endScope (keep : list nat) (e : engine) : engine :=
  match scopes e with
  | [] => e
  | s :: rest =>
      {| nextId := nextId e;
         live := live e ∖ list_to_set (filter (fun id => id ∉ keep) s);
         scopes := match rest with
                   | [] => []
                   | p :: rest' => (filter (fun id => id ∈ keep) s ++ p) :: rest'
                   end;
         kernels := kernels e |}
  end.

(** [tf.tidy(body)]; [tensors_of] lists the tensors of the result.  The
    scope is left whether the body returns or throws. *)
Definition tidy {R} (tensors_of : R -> list nat) (body : M R) : M R := fun e =>
  match body (snd (startScope e)) with
  | (Normal v, e') => (Normal v, endScope (tensors_of v) e')
  | (Throw msg, e') => (Throw msg, endScope [] e')
  end.

(** An engine with no tensor and no open scope. *)
Definition fresh_engine : engine :=
  {| nextId := 0; live := ∅; scopes := []; kernels := [] |}.

(** ** Preprocessing ([preprocess]) *)

(** [t.expandDims(0)]. *)
Definition expandDims0 {A} (t : tensor A) : tensor A :=
  Tensor (1 :: shape t) (data t).

(** The padded image computed by [preprocess] from the pixel tensor of
    shape [h, w, channels]. *)
Definition imgPadded_of (img : tensor Z) : tensor Z :=
  let h := dim img 0 in
  let w := dim img 1 in
  let maxSize := Nat.max w h in
  pad3 img (0, maxSize - h) (0, maxSize - w) (0, 0) 0%Z.

(** The ratios [xRatio] and [yRatio] computed by [preprocess]. *)
Definition ratios_of (img : tensor Z) : F64.num * F64.num :=
  let h := dim img 0 in
  let w := dim img 1 in
  let maxSize := Nat.max w h in
  (F64.div (F64.of_nat maxSize) (F64.of_nat w),
   F64.div (F64.of_nat maxSize) (F64.of_nat h)).

Section Pipeline.
(** The collaborators of the pipeline: the loaded model, the bilinear
    resize kernel, the module-level variables and the label list. *)
Variable execute : tensor F32.num -> completion (tensor F32.num).
Variable resizeBilinear : tensor Z -> nat -> nat -> tensor F32.num.
Variable g : globals.
Variable labels : list string.

Definition numClass : nat := length labels.

(** [preprocess]; [source] stands for the pixels [fromPixels] reads. *)
Definition preprocess (source : tensor Z) (modelWidth modelHeight : nat)
  : M (handle F32.num * F64.num * F64.num) :=
  tidy (fun r => [hid (fst (fst r))])
    (img ← make KFromPixels source;
     let imgPadded_v := imgPadded_of (hval img) in
     imgPadded ← make KPad imgPadded_v;
     let '(xRatio, yRatio) := ratios_of (hval img) in
     resized ← make KResizeBilinear
                 (resizeBilinear (hval imgPadded) modelWidth modelHeight);
     normalized ← make KDiv (tf_div (hval resized) (scalar (F32.of_Z 255)));
     input ← make KExpandDims (expandDims0 (hval normalized));
     mret (input, xRatio, yRatio)).

(** [model.execute(input)]. *)
Definition tf_execute (input : handle F32.num) : M (handle F32.num) := fun e =>
  match execute (hval input) with
  | Normal v => make KExecute v e
  | Throw msg => (Throw msg, e)
  end.

(** The first [tf.tidy] of [detect]: the boxes. *)
Definition boxes_tidy (transRes : handle F32.num) : M (handle F32.num) :=
  tidy (fun b => [hid b])
    (w ← make KSlice (slice3 (hval transRes) (0, 0, 2) (-1, -1, 1)%Z);
     h ← make KSlice (slice3 (hval transRes) (0, 0, 3) (-1, -1, 1)%Z);
     cx ← make KSlice (slice3 (hval transRes) (0, 0, 0) (-1, -1, 1)%Z);
     hw ← make KDiv (tf_div (hval w) (scalar (F32.of_Z 2)));
     x1 ← make KSub (tf_sub (hval cx) (hval hw));
     cy ← make KSlice (slice3 (hval transRes) (0, 0, 1) (-1, -1, 1)%Z);
     hh ← make KDiv (tf_div (hval h) (scalar (F32.of_Z 2)));
     y1 ← make KSub (tf_sub (hval cy) (hval hh));
     y2 ← make KAdd (tf_add (hval y1) (hval h));
     x2 ← make KAdd (tf_add (hval x1) (hval w));
     cat ← make KConcat (concat2 [hval y1; hval x1; hval y2; hval x2]);
     make KSqueeze (squeeze (hval cat))).

(** The second [tf.tidy] of [detect]: the scores and the classes. *)
Definition scores_tidy (transRes : handle F32.num)
  : M (handle F32.num * handle nat) :=
  tidy (fun r => [hid (fst r); hid (snd r)])
    (sl ← make KSlice
            (slice3 (hval transRes) (0, 0, 4) (-1, -1, Z.of_nat numClass)%Z);
     rawScores ← make KSqueeze (squeeze0 (hval sl));
     mx ← make KMax (tf_max1 (hval rawScores));
     am ← make KArgMax (tf_argMax1 (hval rawScores));
     mret (mx, am)).

(** [dataSync] of a float tensor and of an integer tensor. *)
Definition dataSync (t : handle F32.num) : list F64.num :=
  map F32.to_f64 (data (hval t)).
Definition dataSync_int (t : handle nat) : list Z :=
  map Z.of_nat (data (hval t)).

(** The shapes [tf.image.nonMaxSuppressionAsync] accepts: [boxes] of
    shape [n, 4] and [scores] of shape [n]. *)
Definition nms_shapes_ok (boxes scores : tensor F32.num) : bool :=
  match shape boxes, shape scores with
  | [n; 4], [n'] => n =? n'
  | _, _ => false
  end.

(** [tf.image.nonMaxSuppressionAsync(boxes, scores, 500, 0.45, 0.2)]; the
    library rejects tensors of any other shape. *)
Definition tf_nonMaxSuppressionAsync (boxes scores : handle F32.num)
  : M (handle nat) :=
  if nms_shapes_ok (hval boxes) (hval scores) then
    let idx := suppress (dataSync boxes) (dataSync scores) in
    make KNonMaxSuppression (Tensor [length idx] idx)
  else throw "boxes must be of shape [n, 4] and scores of shape [n]".

(** The statements of [detect] that follow the call of [preprocess]. *)
Definition detect_from (input : handle F32.num) (xRatio yRatio : F64.num)
    (modelWidth modelHeight : nat) : M (list annotation) :=
  res ← tf_execute input;
  transRes ← make KTranspose (transpose021 (hval res));
  boxes ← boxes_tidy transRes;
  '(scores, classes) ← scores_tidy transRes;
  nms ← tf_nonMaxSuppressionAsync boxes scores;
  boxes_g ← make KGather (gather_rows (hval boxes) (data (hval nms)));
  let boxes_data := dataSync boxes_g in
  scores_g ← make KGather (gather1 (hval scores) (data (hval nms)));
  let scores_data := dataSync scores_g in
  classes_g ← make KGather (gather1 (hval classes) (data (hval nms)));
  let classes_data := dataSync_int classes_g in
  mret (renderBoxes g labels boxes_data scores_data classes_data
          [xRatio; yRatio] (F64.of_nat modelWidth) (F64.of_nat modelHeight)).

(** [detect].  The scope opened at the start is not closed before the
    function returns, and no tensor is disposed outside the two [tidy]
    blocks and [preprocess]. *)
Definition detect (source : tensor Z) (modelWidth modelHeight : nat)
  : M (list annotation) :=
  _ ← startScope;
  '(input, xRatio, yRatio) ← preprocess source modelWidth modelHeight;
  detect_from input xRatio yRatio modelWidth modelHeight.

End Pipeline.

(** A run on concrete data: a page of one row and two pixels, a model with
    a 4 x 4 input that answers [sample_res] whatever it is given, and a
    resize that produces a black image. *)
Definition sample_source : tensor Z :=
  Tensor [1; 2; 3] [10; 20; 30; 40; 50; 60]%Z.
Definition sample_execute (input : tensor F32.num)
  : completion (tensor F32.num) := Normal sample_res.
Definition failing_execute (input : tensor F32.num)
  : completion (tensor F32.num) := Throw "the model rejects its input".
Definition sample_resize (img : tensor Z) (newHeight newWidth : nat)
  : tensor F32.num :=
  Tensor [newHeight; newWidth; dim img 2]
         (repeat (F32.of_Z 0) (newHeight * newWidth * dim img 2)).
Definition sample_detect (source : tensor Z) : M (list annotation) :=
  detect sample_execute sample_resize sample_globals sample_labels source 4 4.

(** A page of 15 rows and 11 columns, and a page without columns. *)
Definition tall_source : tensor Z := Tensor [15; 11; 1] (repeat 0%Z 165).
Definition empty_source : tensor Z := Tensor [5; 0; 3] [].

(** ** Predicates used in the statements *)

(** [before scores a b]: candidate [a] may precede candidate [b] in the
    output of the suppression, its score not being less. *)
Definition before (scores : list F64.num) (a b : nat) : Prop :=
  F64.ltb (score_of scores a) (score_of scores b) = false.

(** [apart boxes thr l]: no box of [l] overlaps an earlier box of [l] by
    more than the threshold. *)
Definition apart (boxes : list F64.num) (iouThreshold : F64.num)
    (l : list nat) : Prop :=
  forall p q a b, p < q -> l !! p = Some a -> l !! q = Some b ->
                  F64.ltb iouThreshold (iou boxes b a) = false.

(** Tensors [new] added on top of the innermost open scope. *)
Definition push_all (new : list nat) (ss : list (list nat)) : list (list nat) :=
  match ss with
  | [] => []
  | s :: rest => (new ++ s) :: rest
  end.

(** [extends e e' new]: [e'] is reached from [e] by running kernels and
    balanced [tidy] blocks.  Identifiers only grow, the tensors that existed
    in [e] are neither disposed nor revived, the tensors [new] are tracked
    by the innermost scope of [e], and the kernel log is extended. *)
Record extends (e e' : engine) (new : list nat) : Prop := {
  ext_next : nextId e <= nextId e';
  ext_live : forall id, id < nextId e -> (id ∈ live e <-> id ∈ live e');
  ext_scopes : scopes e' = push_all new (scopes e);
  ext_new : forall id, id ∈ new -> nextId e <= id < nextId e';
  ext_kernels : exists ks, kernels e' = kernels e ++ ks
}.

(** A computation that only runs kernels and balanced [tidy] blocks. *)
Definition framed {A} (m : M A) : Prop :=
  forall e, exists new, extends e (snd (m e)) new.

(** Every tensor of the engine was allocated by it. *)
Definition engine_ok (e : engine) : Prop :=
  forall id, id ∈ live e -> id < nextId e.

(** * Part I, continued: the rest of the popup *)

From Stdlib Require Import Ascii.
From Stdlib Require DecimalString.

(** ** The surviving detections *)

(** The indices [detect] obtains from the suppression for a raw output
    [res], given the number of classes. *)
Definition survivors (numClass : nat) (res : tensor F32.num) : list nat :=
  let transRes := transpose021 res in
  suppress (map F32.to_f64 (data (detect_boxes transRes)))
           (map F32.to_f64
              (data (fst (detect_scores_classes numClass transRes)))).

(** The tensor [preprocess] hands to the model. *)
Definition model_input (resizeBilinear : tensor Z -> nat -> nat -> tensor F32.num)
    (source : tensor Z) (modelWidth modelHeight : nat) : tensor F32.num :=
  expandDims0 (tf_div (resizeBilinear (imgPadded_of source)
                                      modelWidth modelHeight)
                      (scalar (F32.of_Z 255))).

(** A raw output with two classes and a single detection. *)
Definition single_res : tensor F32.num :=
  Tensor [1; 6; 1]
         [F32.of_Z 100; F32.of_Z 100; F32.of_Z 40; F32.of_Z 40;
          F32.div (F32.of_Z 9) (F32.of_Z 10);
          F32.div (F32.of_Z 1) (F32.of_Z 10)].

(** ** Talking to the server *)

(** How a [fetch] ends: a response that is [ok], with its JSON body; a
    response that is not, with its status text; or a rejection (the request
    fails, or the body is not JSON). *)
Inductive response (A : Type) : Type :=
| Ok (body : A)
| NotOk (statusText : string)
| Rejected (msg : string).
Arguments Ok {A} body.
Arguments NotOk {A} statusText.
Arguments Rejected {A} msg.

(** [createTypes]: one request per label, in the order of the list;
    [answers i] is what the server answers to the [i]-th request, the body
    of an [ok] response being the key [pk] of the created type.  A label is
    mapped only when its response is [ok]; every failure is caught and
    logged, and the loop goes on with the next label. *)
Fixpoint createTypes_from (answers : nat -> response Z) (i : nat)
    (labels : list string) (tm : gmap string Z) : gmap string Z :=
  match labels with
  | [] => tm
  | label :: rest =>
      createTypes_from answers (S i) rest
        (match answers i with
         | Ok pk => <[label := pk]> tm
         | NotOk _ | Rejected _ => tm
         end)
  end.

Definition createTypes (answers : nat -> response Z) (labels : list string)
    (g : globals) : globals :=
  {| ImageOriginalWidth := ImageOriginalWidth g;
     ImageOriginalHeight := ImageOriginalHeight g;
     typeMappings := createTypes_from answers 0 labels (typeMappings g) |}.

(** The body of one request of [createBlocks]: the block with its
    [document_part] set to the page. *)
Record block_request := BlockRequest {
  r_box : list (F64.num * F64.num);
  r_typology : option Z;
  r_document_part : string
}.

Definition stamp (pageId : string) (b : annotation) : block_request :=
  {| r_box := box b; r_typology := typology b; r_document_part := pageId |}.

(** [createBlocks]: the blocks are posted one after the other; [answers i]
    is the answer to the [i]-th request and [sent] the requests made so
    far.  A response that is not [ok] makes the function throw at once. *)
Fixpoint createBlocks_from (answers : nat -> response unit) (pageId : string)
    (i : nat) (blocks : list annotation) (sent : list block_request)
  : completion unit * list block_request :=
  match blocks with
  | [] => (Normal tt, sent)
  | block :: rest =>
      let sent' := sent ++ [stamp pageId block] in
      match answers i with
      | Ok _ => createBlocks_from answers pageId (S i) rest sent'
      | NotOk statusText =>
          (Throw ("Failed to add block: " ++ statusText), sent')
      | Rejected msg => (Throw msg, sent')
      end
  end.

Definition createBlocks (answers : nat -> response unit) (pageId : string)
    (blocks : list annotation) : completion unit * list block_request :=
  createBlocks_from answers pageId 0 blocks [].

(** A server that accepts the first [n] requests and refuses the others. *)
Definition accept_first (n : nat) (i : nat) : response unit :=
  if i <? n then Ok tt else NotOk "Bad Request".

(** A server that creates every type, with key [100 + i] for request [i],
    and one that refuses the second request. *)
Definition create_all (i : nat) : response Z := Ok (100 + Z.of_nat i)%Z.
Definition refuse_second (i : nat) : response Z :=
  if i =? 1 then NotOk "Bad Request" else Ok (100 + Z.of_nat i)%Z.

(** ** The address of the page *)

(** A promise that is never rejected: it is fulfilled, or stays pending. *)
Inductive promise (A : Type) : Type :=
| Fulfilled (v : A)
| Pending.
Arguments Fulfilled {A} v.
Arguments Pending {A}.

Record blocks_target := BlocksTarget {
  pageId : string;
  documentId : string;
  blocksUrl : string
}.

(** [\d] and [[^\/]]. *)
Definition is_digit (c : ascii) : bool :=
  ((48 <=? N_of_ascii c) && (N_of_ascii c <=? 57))%N.
Definition not_slash (c : ascii) : bool := negb (Ascii.eqb c "/"%char).

(** The longest prefix of characters of a class, and what follows it. *)
Fixpoint span (p : ascii -> bool) (s : string) : string * string :=
  match s with
  | String c r =>
      if p c then let '(a, b) := span p r in (String c a, b)
      else (EmptyString, s)
  | EmptyString => (EmptyString, EmptyString)
  end.

(** What follows a literal prefix, if the string starts with it. *)
Fixpoint strip_prefix (p s : string) : option string :=
  match p with
  | EmptyString => Some s
  | String c p' =>
      match s with
      | String d s' => if Ascii.eqb c d then strip_prefix p' s' else None
      | EmptyString => None
      end
  end.

(** An optional character, taken when it is there. *)
Definition optional_char (c : ascii) (s : string) : string :=
  match s with
  | String d r => if Ascii.eqb c d then r else s
  | EmptyString => s
  end.

(** [https?:\/\/] at the start of the address. *)
Definition strip_scheme (url : string) : option (string * string) :=
  match strip_prefix "https://" url with
  | Some r => Some ("https://"%string, r)
  | None => r ← strip_prefix "http://" url; Some ("http://"%string, r)
  end.

(** [regex.exec(url)] for the pattern of [getBlocksUrl],
    [^(https?:\/\/[^\/]+)\/document(?:s?)\/(\d+)\/parts?\/(\d+)\/edit\/?$],
    with the groups [domain], [document] and [page].  Every repetition and
    option of the pattern is followed by a character outside its class, so
    the greedy choice is the only one that can match and the pattern is
    read from left to right. *)
Definition regex_exec (url : string) : option (string * string * string) :=
  '(scheme, r) ← strip_scheme url;
  let '(host, r) := span not_slash r in
  if decide (host = "") then None else
  r ← strip_prefix "/document" r;
  r ← strip_prefix "/" (optional_char "s"%char r);
  let '(document, r) := span is_digit r in
  if decide (document = "") then None else
  r ← strip_prefix "/part" r;
  r ← strip_prefix "/" (optional_char "s"%char r);
  let '(page, r) := span is_digit r in
  if decide (page = "") then None else
  r ← strip_prefix "/edit" r;
  if decide (optional_char "/"%char r = "") then Some ((scheme ++ host)%string, document, page)
  else None.

(** [getBlocksUrl], given the address of the active tab.  The error for an
    address that does not match is thrown inside the callback of
    [chrome.tabs.query], after the executor of the promise has returned: the
    promise is not rejected by it, it is never settled. *)
Definition getBlocksUrl (url : string) : promise blocks_target :=
  match regex_exec url with
  | Some (domain, document, page) =>
      Fulfilled {| pageId := page;
                   documentId := document;
                   blocksUrl := (domain ++ "/api/documents/" ++ document
                                 ++ "/parts/" ++ page ++ "/blocks/")%string |}
  | None => Pending
  end.

(** The addresses the pattern describes, written out. *)
Fixpoint all_chars (p : ascii -> bool) (s : string) : bool :=
  match s with
  | String c r => p c && all_chars p r
  | EmptyString => true
  end.

Definition page_address (url domain document page : string) : Prop :=
  exists scheme host plural1 plural2 slash,
    (scheme = "http://" \/ scheme = "https://") /\
    host <> "" /\ all_chars not_slash host = true /\
    (plural1 = "" \/ plural1 = "s") /\
    (plural2 = "" \/ plural2 = "s") /\
    (slash = "" \/ slash = "/") /\
    document <> "" /\ all_chars is_digit document = true /\
    page <> "" /\ all_chars is_digit page = true /\
    domain = (scheme ++ host)%string /\
    url = (domain ++ "/document" ++ plural1 ++ "/" ++ document
           ++ "/part" ++ plural2 ++ "/" ++ page ++ "/edit" ++ slash)%string.

(** ** The first decoder *)

(** [extractBoundingBoxes] is kept in the file but never called. *)
Definition inputSize : F64.num := F64.of_Z 960.

Record extracted := Extracted {
  e_box : list (F64.num * F64.num);
  e_typology : option Z;                (* always [null] *)
  e_class : Z;
  e_confidence : F64.num
}.

(** The inner loop for detection [i]: the running maximum [maxProb] and its
    index [classId], from [-Infinity] and [-1].  An index past the end of
    the buffer reads [undefined], which compares false. *)
Definition best_class (data : list F64.num) (numDetections numClasses i : nat)
  : F64.num * Z :=
  fold_left
    (fun '(maxProb, classId) j =>
       match data !! (numDetections * i + j + 4) with
       | Some prob =>
           if F64.ltb maxProb prob then (prob, Z.of_nat j)
           else (maxProb, classId)
       | None => (maxProb, classId)
       end)
    (seq 0 numClasses) (S754_infinity true, (-1)%Z).

(** What iteration [i] of the outer loop pushes.  Both centre coordinates
    are scaled by the width, both sizes by the height, as written. *)
Definition extract_one (data : list F64.num) (numDetections numClasses : nat)
    (confidenceThreshold originalWidth originalHeight : F64.num) (i : nat)
  : list extracted :=
  let '(maxProb, classId) := best_class data numDetections numClasses i in
  if F64.ltb confidenceThreshold maxProb then
    let x_center := F64.mul (num_at data (numDetections * i))
                            (F64.div originalWidth inputSize) in
    let y_center := F64.mul (num_at data (numDetections * i + 1))
                            (F64.div originalWidth inputSize) in
    let width := F64.mul (num_at data (numDetections * i + 2))
                         (F64.div originalHeight inputSize) in
    let height := F64.mul (num_at data (numDetections * i + 3))
                          (F64.div originalHeight inputSize) in
    let x_min := F64.sub x_center (F64.div width (F64.of_Z 2)) in
    let y_min := F64.sub y_center (F64.div height (F64.of_Z 2)) in
    let x_max := F64.add x_center (F64.div width (F64.of_Z 2)) in
    let y_max := F64.add y_center (F64.div height (F64.of_Z 2)) in
    [ {| e_box := [(x_min, y_min); (x_min, y_max); (x_max, y_max); (x_max, y_min)];
         e_typology := None;
         e_class := classId;
         e_confidence := maxProb |} ]
  else [].

(** [extractBoundingBoxes(predictions, confidenceThreshold, originalWidth,
    originalHeight)]; a threshold that is not given is [0.5]. *)
Definition extractBoundingBoxes (predictions : tensor F32.num)
    (confidenceThreshold : option F64.num)
    (originalWidth originalHeight : F64.num) : list extracted :=
  let confidenceThreshold := default (F64.lit 5 10) confidenceThreshold in
  let data := map F32.to_f64 (data predictions) in
  let numDetections := dim predictions 2 in
  let numClasses := dim predictions 1 - 4 in
  fold_left
    (fun boxes i =>
       boxes ++ extract_one data numDetections numClasses confidenceThreshold
                            originalWidth originalHeight i)
    (seq 0 numDetections) [].

(** A tensor of five attributes for each of eight detections, every element
    being [1]. *)
Definition wide_res : tensor F32.num :=
  Tensor [1; 5; 8] (repeat (F32.of_Z 1) 40).

(** ** Exporting the raw output *)

(** [t.dispose()]. *)
Definition dispose {A} (h : handle A) : M unit := fun e =>
  (Normal tt,
   {| nextId := nextId e; live := live e ∖ {[ hid h ]};
      scopes := scopes e; kernels := kernels e |}).

(** A file offered for download by [exportRawData]: the numbers written to
    it, and the name given by the caller, which a time stamp and [.json]
    follow. *)
Record download := Download {
  file_name : string;
  file_data : list F64.num
}.

Definition exportRawData (data : list F64.num) (name : string) : download :=
  {| file_name := name; file_data := data |}.

(** The time stamp of a file name, from the ISO form of the date:
    [iso.replace(/T/, '_').replace(/:/g, '-').split('.')[0]]. *)
Fixpoint replace_first (c d : ascii) (s : string) : string :=
  match s with
  | String x r =>
      if Ascii.eqb x c then String d r else String x (replace_first c d r)
  | EmptyString => EmptyString
  end.

Fixpoint replace_all (c d : ascii) (s : string) : string :=
  match s with
  | String x r => String (if Ascii.eqb x c then d else x) (replace_all c d r)
  | EmptyString => EmptyString
  end.

Definition before_first (c : ascii) (s : string) : string :=
  fst (span (fun x => negb (Ascii.eqb x c)) s).

Definition timestamp (iso : string) : string :=
  before_first "."%char
    (replace_all ":"%char "-"%char (replace_first "T"%char "_"%char iso)).

Definition filename (name iso : string) : string :=
  (name ++ timestamp iso ++ ".json")%string.

(** A character that is none of [T], [:] and [.]. *)
Definition stamp_char (c : ascii) : bool :=
  negb (Ascii.eqb c "T"%char) && negb (Ascii.eqb c ":"%char)
  && negb (Ascii.eqb c "."%char).

(** [exportPredictions]: the whole buffer, under the default name. *)
Definition exportPredictions (predictions : handle F32.num) : download :=
  exportRawData (map F32.to_f64 (data (hval predictions))) "Predictions".

(** A natural number in decimal, as a template literal prints it. *)
Definition decimal (n : nat) : string :=
  DecimalString.NilZero.string_of_uint (Nat.to_uint n).

(** The loop of [exportDetectionsAndAttributes] over the detections [todo]:
    one slice, one file and one [dispose] per detection. *)
Fixpoint export_each (predictions : handle F32.num) (numAttributes : nat)
    (todo : list nat) : M (list download) :=
  match todo with
  | [] => mret []
  | i :: rest =>
      detection ← make KSlice
        (slice3 (hval predictions) (0, 0, i) (1, Z.of_nat numAttributes, 1)%Z);
      let file := exportRawData (map F32.to_f64 (data (hval detection)))
                                ("Detection_" ++ decimal (i + 1) ++ "_") in
      _ ← dispose detection;
      files ← export_each predictions numAttributes rest;
      mret (file :: files)
  end.

(** [exportDetectionsAndAttributes], for predictions of rank 3: the file
    of each detection, then one file with everything.  The last slice is
    not disposed. *)
Definition exportDetectionsAndAttributes (predictions : handle F32.num)
  : M (list download) :=
  let numAttributes := dim (hval predictions) 1 in
  let numDetections := dim (hval predictions) 2 in
  files ← export_each predictions numAttributes (seq 0 numDetections);
  all ← make KSlice
    (slice3 (hval predictions) (0, 0, 0)
            (1, Z.of_nat numAttributes, Z.of_nat numDetections)%Z);
  mret (files ++ [exportRawData (map F32.to_f64 (data (hval all)))
                                "AllAttributes_"]).

(** ** One annotation run *)

(** What a run of the [onload] handler leaves behind: the status messages
    shown, the type mapping, the block requests made, whether the page was
    asked to reload, and whether the handler came to its end. *)
Record report := Report {
  shown : list string;
  mappings : gmap string Z;
  requested : list block_request;
  reloaded : bool;
  settled : bool
}.

(** The handler installed for an image once a token is entered, with a
    model loaded: [url] is the address of the active tab, [type_answers]
    and [block_answers] are the answers of the server.  The request of
    [updateValidBlockTypes] is made between [createTypes] and [detect]; that
    function catches every failure and returns nothing, so it does not
    appear here.  Every error thrown inside the [try] is shown as a
    message. *)
Definition onload (execute : tensor F32.num -> completion (tensor F32.num))
    (resizeBilinear : tensor Z -> nat -> nat -> tensor F32.num)
    (labels : list string)
    (url : string) (type_answers : nat -> response Z)
    (block_answers : nat -> response unit)
    (g : globals) (source : tensor Z) (modelWidth modelHeight : nat)
    (e : engine) : report * engine :=
  let loaded := "Image loaded successfully"%string in
  match getBlocksUrl url with
  | Pending =>
      ({| shown := [loaded]; mappings := typeMappings g; requested := [];
          reloaded := false; settled := false |}, e)
  | Fulfilled target =>
      let g' := createTypes type_answers labels g in
      match detect execute resizeBilinear g' labels source
                   modelWidth modelHeight e with
      | (Normal blocks, e') =>
          match createBlocks block_answers (pageId target) blocks with
          | (Normal _, sent) =>
              ({| shown := [loaded; "Blocks added successfully!"%string];
                  mappings := typeMappings g'; requested := sent;
                  reloaded := true; settled := true |}, e')
          | (Throw msg, sent) =>
              ({| shown := [loaded; ("Error during annotation: " ++ msg)%string];
                  mappings := typeMappings g'; requested := sent;
                  reloaded := false; settled := true |}, e')
          end
      | (Throw msg, e') =>
          ({| shown := [loaded; ("Error during annotation: " ++ msg)%string];
              mappings := typeMappings g'; requested := [];
              reloaded := false; settled := true |}, e')
      end
  end.
(** * Part II: properties *)

(** ** Rounding facts shared by both floating-point formats *)

Section Rounding.
Variables prec emax : Z.

(** A mantissa that is already canonical is left alone by rounding. *)
Lemma round_exact s m e :
  canonical_mantissa prec emax m e = true ->
  (e <= emax - prec)%Z ->
  binary_round_aux prec emax s (Zpos m) e loc_Exact = S754_finite s m e.
Proof.
  intros Hc He. unfold canonical_mantissa in Hc. apply Z.eqb_eq in Hc.
  unfold binary_round_aux, shr_fexp. cbn [Zdigits2 shr_record_of_loc].
  rewrite Hc, Z.sub_diag.
  cbn [shr shr_m loc_of_shr_record round_nearest_even Zdigits2 shr_record_of_loc].
  rewrite Hc, Z.sub_diag. cbn [shr shr_m].
  apply Z.leb_le in He. now rewrite He.
Qed.

Lemma shr_iter_exact k : forall m,
  SpecFloat.iter_pos shr_1 k
    {| shr_m := Zpos (Pos.iter xO m k); shr_r := false; shr_s := false |}
  = {| shr_m := Zpos m; shr_r := false; shr_s := false |}.
Proof.
  induction k as [k IH | k IH | ]; intros m; cbn [SpecFloat.iter_pos Pos.iter].
  - cbn [shr_1 orb]. now rewrite !IH.
  - now rewrite !IH.
  - reflexivity.
Qed.

Lemma digits2_iter k : forall m,
  Zpos (digits2_pos (Pos.iter xO m k)) = (Zpos (digits2_pos m) + Zpos k)%Z.
Proof.
  induction k as [|k IH] using Pos.peano_ind; intros m.
  - cbn. lia.
  - rewrite Pos.iter_succ. cbn [digits2_pos]. rewrite Pos2Z.inj_succ, IH. lia.
Qed.

Lemma digits2_bound p : forall n,
  (0 <= n)%Z -> (Zpos p < 2 ^ n)%Z -> (Zpos (digits2_pos p) <= n)%Z.
Proof.
  induction p as [p IH | p IH | ]; intros n Hn Hlt; cbn [digits2_pos].
  - assert (n <> 0)%Z by (intros ->; cbn in Hlt; lia).
    replace n with (Z.succ (n - 1)) in Hlt by lia.
    rewrite Z.pow_succ_r in Hlt by lia.
    specialize (IH (n - 1)%Z ltac:(lia) ltac:(lia)). lia.
  - assert (n <> 0)%Z by (intros ->; cbn in Hlt; lia).
    replace n with (Z.succ (n - 1)) in Hlt by lia.
    rewrite Z.pow_succ_r in Hlt by lia.
    specialize (IH (n - 1)%Z ltac:(lia) ltac:(lia)). lia.
  - assert (n <> 0)%Z by (intros ->; cbn in Hlt; lia). lia.
Qed.

(** A canonical mantissa shifted left by [k] bits rounds back to itself. *)
Lemma round_shifted s m e k :
  canonical_mantissa prec emax m e = true ->
  (e <= emax - prec)%Z ->
  binary_round_aux prec emax s (Zpos (Pos.iter xO m k)) (e - Zpos k) loc_Exact
  = S754_finite s m e.
Proof.
  intros Hc He. pose proof Hc as Hc'.
  unfold canonical_mantissa in Hc'. apply Z.eqb_eq in Hc'.
  unfold binary_round_aux, shr_fexp. cbn [Zdigits2 shr_record_of_loc].
  rewrite digits2_iter.
  replace (Z.pos (digits2_pos m) + Z.pos k + (e - Z.pos k))%Z
    with (Z.pos (digits2_pos m) + e)%Z by lia.
  rewrite Hc'. replace (e - (e - Z.pos k))%Z with (Zpos k) by lia.
  cbn [shr]. rewrite shr_iter_exact.
  cbn [shr_m loc_of_shr_record round_nearest_even Zdigits2 shr_record_of_loc].
  replace (e - Z.pos k + Z.pos k)%Z with e by lia.
  rewrite Hc', Z.sub_diag. cbn [shr shr_m].
  apply Z.leb_le in He. now rewrite He.
Qed.
End Rounding.

(** ** The order on floating-point values *)

Ltac sf_order :=
  repeat match goal with
  | s : bool |- _ => destruct s
  end;
  cbn in *; try congruence;
  repeat match goal with
  | H : context [Z.compare ?a ?b] |- _ =>
      destruct (Z.compare_spec a b); try subst; cbn in *; try congruence
  | |- context [Z.compare ?a ?b] =>
      destruct (Z.compare_spec a b); try subst; cbn in *; try congruence
  end;
  try lia;
  repeat match goal with
  | H : context [Pos.compare_cont Eq ?a ?b] |- _ =>
      change (Pos.compare_cont Eq a b) with (Pos.compare a b) in *;
      destruct (Pos.compare_spec a b); try subst; cbn in *; try congruence
  | |- context [Pos.compare_cont Eq ?a ?b] =>
      change (Pos.compare_cont Eq a b) with (Pos.compare a b) in *;
      destruct (Pos.compare_spec a b); try subst; cbn in *; try congruence
  end;
  try lia.

Lemma SFltb_trans a b c :
  SFltb a b = true -> SFltb b c = true -> SFltb a c = true.
Proof.
  unfold SFltb, SFcompare.
  destruct a as [sa|sa| |sa ma ea], b as [sb|sb| |sb mb eb],
           c as [sc|sc| |sc mc ec]; intros H1 H2; sf_order.
Qed.

Lemma SFltb_irrefl a : SFltb a a = false.
Proof.
  unfold SFltb, SFcompare. destruct a as [sa|sa| |sa ma ea]; sf_order;
    rewrite ?Z.compare_refl, ?Pos.compare_refl; reflexivity.
Qed.

Lemma SFleb_total a b :
  a <> S754_nan -> b <> S754_nan -> SFltb a b = false -> SFleb b a = true.
Proof.
  unfold SFltb, SFleb, SFcompare.
  destruct a as [sa|sa| |sa ma ea], b as [sb|sb| |sb mb eb];
    intros Ha Hb H1; try congruence; sf_order.
Qed.

Lemma SFltb_negtrans a b c :
  b <> S754_nan ->
  SFltb a b = false -> SFltb b c = false -> SFltb a c = false.
Proof.
  unfold SFltb, SFcompare.
  destruct a as [sa|sa| |sa ma ea], b as [sb|sb| |sb mb eb],
           c as [sc|sc| |sc mc ec]; intros Hb H1 H2; try congruence; sf_order.
Qed.

(** ** Facts about binary64 arithmetic *)

Module F64Facts.
Import F64.

Lemma one_eq : one = S754_finite false (Pos.iter xO 1%positive 52) (-52).
Proof. reflexivity. Qed.

Lemma mul_one_r x : valid x = true -> mul x one = x.
Proof.
  rewrite one_eq. unfold mul.
  destruct x as [s | s | | s m e]; intros Hv; cbn [SFmul].
  - now rewrite xorb_false_r.
  - now rewrite xorb_false_r.
  - reflexivity.
  - unfold valid, valid_binary, bounded in Hv.
    apply andb_prop in Hv as [Hc He]. apply Z.leb_le in He.
    rewrite xorb_false_r.
    replace (m * Pos.iter xO 1 52)%positive with (Pos.iter xO m 52).
    2:{ cbn [Pos.iter]. rewrite !Pos.mul_xO_r. now rewrite Pos.mul_1_r. }
    replace (e + -52)%Z with (e - 52)%Z by lia.
    now apply round_shifted.
Qed.

Lemma mul_one_l x : valid x = true -> mul one x = x.
Proof.
  rewrite one_eq. unfold mul.
  destruct x as [s | s | | s m e]; intros Hv; cbn [SFmul xorb]; try reflexivity.
  unfold valid, valid_binary, bounded in Hv.
  apply andb_prop in Hv as [Hc He]. apply Z.leb_le in He.
  replace (Pos.iter xO 1 52 * m)%positive with (Pos.iter xO m 52).
  2:{ rewrite Pos.mul_comm. cbn [Pos.iter]. rewrite !Pos.mul_xO_r.
      now rewrite Pos.mul_1_r. }
  replace (-52 + e)%Z with (e - 52)%Z by lia.
  replace (if s then true else false) with s by now destruct s.
  now apply round_shifted.
Qed.

(** A finite non-zero number divided by itself is exactly one. *)
Lemma div_same s m e : div (S754_finite s m e) (S754_finite s m e) = one.
Proof.
  unfold div. cbn [SFdiv]. unfold SFdiv_core_binary.
  rewrite Z.sub_diag.
  replace (Zdigits2 (Z.pos m) + e - (Zdigits2 (Z.pos m) + e))%Z with 0%Z by lia.
  change (Z.min (fexp prec emax 0) 0) with (-53)%Z.
  change (0 - -53)%Z with 53%Z. cbv iota beta.
  rewrite Z.shiftl_mul_pow2 by lia.
  assert (Hq : Z.div_eucl (Z.pos m * 2 ^ 53) (Z.pos m) = (2 ^ 53, 0)%Z).
  { pose proof (Z.div_mul (2 ^ 53) (Z.pos m) ltac:(lia)) as H1.
    pose proof (Z.mod_mul (2 ^ 53) (Z.pos m) ltac:(lia)) as H2.
    rewrite (Z.mul_comm (Z.pos m)).
    unfold Z.div, Z.modulo in H1, H2.
    destruct (Z.div_eucl (2 ^ 53 * Z.pos m) (Z.pos m)) as [q r].
    now subst. }
  rewrite Hq. cbv iota beta.
  replace (new_location (Z.pos m) 0) with loc_Exact
    by (unfold new_location; now destruct (Z.even (Z.pos m))).
  destruct s; reflexivity.
Qed.

(** Integers in [1, 2^53) are represented exactly, by a valid positive
    finite number. *)
Lemma of_Z_finite z :
  (0 < z < 2 ^ 53)%Z ->
  exists m e, of_Z z = S754_finite false m e /\ bounded prec emax m e = true.
Proof.
  intros [Hpos Hlt]. destruct z as [|p|p]; try lia.
  unfold of_Z. cbn [binary_normalize]. unfold binary_round, shl_align.
  pose proof (digits2_bound p 53 ltac:(lia) Hlt) as Hd.
  assert (Hd1 : (1 <= Zpos (digits2_pos p))%Z) by lia.
  assert (Hf : fexp prec emax (Z.pos (digits2_pos p) + 0)
               = (Z.pos (digits2_pos p) - 53)%Z).
  { unfold fexp, SpecFloat.emin, prec, emax. lia. }
  rewrite Hf.
  destruct (Z.pos (digits2_pos p) - 53 - 0)%Z as [|d|d] eqn:Hs; try lia.
  - assert (Hc : canonical_mantissa prec emax p 0 = true).
    { unfold canonical_mantissa. apply Z.eqb_eq. rewrite Hf. lia. }
    exists p, 0%Z. split.
    + apply round_exact; [exact Hc | unfold prec, emax; lia].
    + unfold bounded. rewrite Hc. reflexivity.
  - assert (Hc : canonical_mantissa prec emax (Pos.iter xO p d)
                   (Z.pos (digits2_pos p) - 53) = true).
    { unfold canonical_mantissa. apply Z.eqb_eq. rewrite digits2_iter.
      unfold fexp, SpecFloat.emin, prec, emax. lia. }
    exists (Pos.iter xO p d), (Z.pos (digits2_pos p) - 53)%Z. split.
    + apply round_exact; [exact Hc | unfold prec, emax; lia].
    + unfold bounded. rewrite Hc. apply Z.leb_le. unfold prec, emax. lia.
Qed.

Lemma of_Z_valid z : (0 < z < 2 ^ 53)%Z -> valid (of_Z z) = true.
Proof.
  intros H. destruct (of_Z_finite z H) as (m & e & -> & Hb). exact Hb.
Qed.

Lemma div_of_Z_same z : (0 < z < 2 ^ 53)%Z -> div (of_Z z) (of_Z z) = one.
Proof.
  intros H. destruct (of_Z_finite z H) as (m & e & -> & _). apply div_same.
Qed.
End F64Facts.

(** ** Indexing lemmas for tensors *)

Section TensorFacts.
Context {A : Type} `{Inhabited A}.

Lemma length_flat_map_block {B} (g : nat -> list B) len n : forall s,
  (forall x, s <= x < s + n -> length (g x) = len) ->
  length (flat_map g (seq s n)) = n * len.
Proof.
  induction n as [|n IH]; intros s Hg; cbn [seq flat_map]; [reflexivity|].
  rewrite length_app, Hg by lia. rewrite IH; [lia|].
  intros x Hx. apply Hg. lia.
Qed.

Lemma nth_flat_map_block {B} (g : nat -> list B) len n (d : B) : forall s i j,
  (forall x, s <= x < s + n -> length (g x) = len) ->
  i < n -> j < len ->
  nth (i * len + j) (flat_map g (seq s n)) d = nth j (g (s + i)) d.
Proof.
  induction n as [|n IH]; intros s i j Hg Hi Hj; [lia|].
  cbn [seq flat_map]. destruct i as [|i].
  - rewrite app_nth1 by (rewrite Hg; lia). now rewrite Nat.add_0_r.
  - rewrite app_nth2 by (rewrite Hg; lia). rewrite Hg by lia.
    replace (S i * len + j - len) with (i * len + j) by lia.
    rewrite IH; [ | intros x Hx; apply Hg; lia | lia | lia].
    f_equal. f_equal. lia.
Qed.

Lemma length_build3 d0 d1 d2 (f : nat -> nat -> nat -> A) : length (build3 d0 d1 d2 f) = d0 * d1 * d2.
Proof.
  unfold build3.
  rewrite (length_flat_map_block _ (d1 * d2)); [lia|].
  intros x _. rewrite (length_flat_map_block _ d2); [lia|].
  intros y _. now rewrite length_map, length_seq.
Qed.

Lemma nth_build3 d0 d1 d2 (f : nat -> nat -> nat -> A) i j k d :
  i < d0 -> j < d1 -> k < d2 ->
  nth ((i * d1 + j) * d2 + k) (build3 d0 d1 d2 f) d = f i j k.
Proof.
  intros Hi Hj Hk. unfold build3.
  replace ((i * d1 + j) * d2 + k) with (i * (d1 * d2) + (j * d2 + k)) by lia.
  assert (S j * d2 <= d1 * d2) by (apply Nat.mul_le_mono_r; lia).
  rewrite (nth_flat_map_block _ (d1 * d2)); [ | | lia | lia].
  2:{ intros x _. rewrite (length_flat_map_block _ d2); [lia|].
      intros y _. now rewrite length_map, length_seq. }
  rewrite (nth_flat_map_block _ d2); [ | | lia | lia].
  2:{ intros y _. now rewrite length_map, length_seq. }
  cbn [Nat.add].
  rewrite (nth_indep _ d (f i j 0)) by (rewrite length_map, length_seq; lia).
  rewrite (map_nth (fun k => f i j k) (seq 0 d2) 0 k).
  now rewrite seq_nth by lia.
Qed.

Lemma at3_build3 d0 d1 d2 (f : nat -> nat -> nat -> A) i j k :
  i < d0 -> j < d1 -> k < d2 ->
  at3 (Tensor [d0; d1; d2] (build3 d0 d1 d2 f)) i j k = f i j k.
Proof. intros. unfold at3, dim. cbn [shape data nth]. now apply nth_build3. Qed.

Lemma at3_transpose021 (t : tensor A) i j k :
  i < dim t 0 -> j < dim t 2 -> k < dim t 1 ->
  at3 (transpose021 t) i j k = at3 t i k j.
Proof. intros. unfold transpose021. now rewrite at3_build3. Qed.

Lemma at3_slice3 (t : tensor A) b0 b1 b2 s0 s1 s2 i j k :
  i < slice_extent (dim t 0) b0 s0 ->
  j < slice_extent (dim t 1) b1 s1 ->
  k < slice_extent (dim t 2) b2 s2 ->
  at3 (slice3 t (b0, b1, b2) (s0, s1, s2)) i j k
  = at3 t (b0 + i) (b1 + j) (b2 + k).
Proof. intros. unfold slice3. now rewrite at3_build3. Qed.

Lemma nth_zip_with (f : A -> A -> A) l1 l2 n d :
  n < length l1 -> n < length l2 ->
  nth n (zip_with f l1 l2) d = f (nth n l1 d) (nth n l2 d).
Proof.
  revert l2 n. induction l1 as [|x l1 IH]; intros [|y l2] [|n] H1 H2;
    cbn in *; try lia; [reflexivity|]. apply IH; lia.
Qed.

Lemma at3_binop (f : A -> A -> A) (a b : tensor A) i j k :
  shape b = shape a ->
  (i * dim a 1 + j) * dim a 2 + k < length (data a) ->
  (i * dim a 1 + j) * dim a 2 + k < length (data b) ->
  shape a <> [] ->
  at3 (binop f a b) i j k = f (at3 a i j k) (at3 b i j k).
Proof.
  intros Hs Ha Hb Hne. unfold binop. rewrite Hs.
  destruct (shape a) as [|d0 s] eqn:Hsa; [congruence|].
  unfold at3, dim. cbn [shape data]. rewrite Hs, Hsa.
  unfold dim in Ha, Hb. rewrite Hsa in Ha, Hb.
  now apply nth_zip_with.
Qed.

Lemma at3_binop_scalar (f : A -> A -> A) (a : tensor A) c i j k :
  (i * dim a 1 + j) * dim a 2 + k < length (data a) ->
  at3 (binop f a (scalar c)) i j k = f (at3 a i j k) c.
Proof.
  intros Ha. unfold binop, scalar, at3, dim. cbn [shape data].
  rewrite (nth_indep _ _ (f inhabitant c)) by now rewrite length_map.
  now rewrite (map_nth (fun x => f x c)).
Qed.

Lemma shape_binop (f : A -> A -> A) (a b : tensor A) : shape (binop f a b) = shape a.
Proof. unfold binop. now destruct (shape b), (data b) as [|? [|? ?]]. Qed.

Lemma length_binop_scalar (f : A -> A -> A) (a : tensor A) c :
  length (data (binop f a (scalar c))) = length (data a).
Proof. unfold binop, scalar. cbn. now rewrite length_map. Qed.

Lemma length_binop_same (f : A -> A -> A) (a b : tensor A) :
  shape b = shape a -> shape a <> [] -> length (data b) = length (data a) ->
  length (data (binop f a b)) = length (data a).
Proof.
  intros Hs Hne Hl. unfold binop. rewrite Hs.
  destruct (shape a); [congruence|]. cbn [data].
  rewrite length_zip_with. lia.
Qed.

End TensorFacts.

(** ** Box decoding *)

Section Decoder.
Variables (res : tensor F32.num) (C N : nat).
Hypothesis res_shape : shape res = [1; 4 + C; N].

Local Abbreviation transRes := (transpose021 res).

Lemma dims_res : dim res 0 = 1 /\ dim res 1 = 4 + C /\ dim res 2 = N.
Proof. unfold dim. now rewrite res_shape. Qed.

Lemma shape_transRes : shape transRes = [1; N; 4 + C].
Proof.
  unfold transpose021. cbn [shape].
  destruct dims_res as (-> & -> & ->). reflexivity.
Qed.

Lemma dims_transRes :
  dim transRes 0 = 1 /\ dim transRes 1 = N /\ dim transRes 2 = 4 + C.
Proof. unfold dim. now rewrite shape_transRes. Qed.

Lemma shape_column a : shape (column res a) = [1; N; 1].
Proof.
  unfold column, slice3. cbn [shape].
  destruct dims_transRes as (-> & -> & ->).
  unfold slice_extent. cbn. do 2 f_equal. lia.
Qed.

Lemma length_column a : length (data (column res a)) = N.
Proof.
  unfold column, slice3. cbn [data]. rewrite length_build3.
  destruct dims_transRes as (-> & -> & ->).
  unfold slice_extent. cbn. lia.
Qed.

Lemma at3_column a i :
  a < 4 + C -> i < N -> at3 (column res a) 0 i 0 = attribute res a i.
Proof.
  intros Ha Hi. unfold column.
  destruct dims_transRes as (D0 & D1 & D2).
  rewrite at3_slice3;
    [ | rewrite D0; cbn; lia | rewrite D1; cbn; lia | rewrite D2; cbn; lia].
  destruct dims_res as (E0 & E1 & E2).
  rewrite at3_transpose021; [ | rewrite E0; lia | rewrite E2; lia | rewrite E1; lia].
  cbn [Nat.add]. rewrite Nat.add_0_r. reflexivity.
Qed.

Lemma column_index i : i < N -> forall a,
  (0 * dim (column res a) 1 + i) * dim (column res a) 2 + 0 < N.
Proof. intros Hi a. unfold dim. rewrite shape_column. cbn. lia. Qed.

Lemma detect_boxes_unfold :
  detect_boxes transRes = squeeze (concat2 [y1_t res; x1_t res; y2_t res; x2_t res]).
Proof. reflexivity. Qed.

Lemma shape_half a : shape (half res a) = [1; N; 1].
Proof. unfold half, tf_div. now rewrite shape_binop, shape_column. Qed.

Lemma length_half a : length (data (half res a)) = N.
Proof. unfold half, tf_div. now rewrite length_binop_scalar, length_column. Qed.

Lemma at3_half a i :
  a < 4 + C -> i < N ->
  at3 (half res a) 0 i 0 = F32.div (attribute res a i) (F32.of_Z 2).
Proof.
  intros Ha Hi. unfold half, tf_div.
  rewrite at3_binop_scalar by (rewrite length_column; now apply column_index).
  now rewrite at3_column.
Qed.

Lemma shape_corner f a b : shape (binop f (column res a) (half res b)) = [1; N; 1].
Proof. now rewrite shape_binop, shape_column. Qed.

Lemma length_corner f a b : length (data (binop f (column res a) (half res b))) = N.
Proof.
  rewrite length_binop_same; rewrite ?shape_half, ?shape_column,
    ?length_half, ?length_column; congruence.
Qed.

Lemma at3_corner f a b i :
  a < 4 + C -> b < 4 + C -> i < N ->
  at3 (binop f (column res a) (half res b)) 0 i 0
  = f (attribute res a i) (F32.div (attribute res b i) (F32.of_Z 2)).
Proof.
  intros Ha Hb Hi.
  rewrite at3_binop.
  - now rewrite at3_column, at3_half.
  - now rewrite shape_half, shape_column.
  - rewrite length_column. now apply column_index.
  - rewrite length_half. now apply column_index.
  - now rewrite shape_column.
Qed.

Lemma at3_far f a b c i :
  a < 4 + C -> b < 4 + C -> c < 4 + C -> i < N ->
  at3 (tf_add (binop f (column res a) (half res b)) (column res c)) 0 i 0
  = F32.add (f (attribute res a i) (F32.div (attribute res b i) (F32.of_Z 2)))
            (attribute res c i).
Proof.
  intros Ha Hb Hc Hi. unfold tf_add.
  assert (Hidx : (0 * dim (binop f (column res a) (half res b)) 1 + i)
                 * dim (binop f (column res a) (half res b)) 2 + 0 < N).
  { unfold dim. rewrite shape_corner. cbn. lia. }
  rewrite at3_binop.
  - now rewrite at3_corner, at3_column.
  - now rewrite shape_corner, shape_column.
  - now rewrite length_corner.
  - now rewrite length_column.
  - now rewrite shape_corner.
Qed.

Lemma data_detect_boxes :
  data (detect_boxes transRes)
  = build3 1 N 4 (concat_at [y1_t res; x1_t res; y2_t res; x2_t res]).
Proof.
  rewrite detect_boxes_unfold. unfold squeeze, concat2. cbn [data fold_right].
  unfold y2_t, x2_t, y1_t, x1_t, tf_add, tf_sub, dim.
  now rewrite !shape_binop, !shape_column.
Qed.

Lemma length_detect_boxes : length (data (detect_boxes transRes)) = N * 4.
Proof. rewrite data_detect_boxes, length_build3. lia. Qed.

Lemma nth_detect_boxes i k :
  i < N -> k < 4 ->
  nth (i * 4 + k) (data (detect_boxes transRes)) F32.nan
  = concat_at [y1_t res; x1_t res; y2_t res; x2_t res] 0 i k.
Proof.
  intros Hi Hk. rewrite data_detect_boxes.
  replace (i * 4 + k) with ((0 * N + i) * 4 + k) by lia.
  apply nth_build3; lia.
Qed.

End Decoder.

Lemma js_slice4 {A} (l : list A) i d :
  (i + 1) * 4 <= length l ->
  js_slice l (i * 4) ((i + 1) * 4)
  = [nth (i * 4) l d; nth (i * 4 + 1) l d;
     nth (i * 4 + 2) l d; nth (i * 4 + 3) l d].
Proof.
  unfold js_slice. replace ((i + 1) * 4 - i * 4) with 4 by lia.
  replace ((i + 1) * 4) with (i * 4 + 4) by lia.
  generalize (i * 4) as n. intros n.
  revert l. induction n as [|n IH]; intros l Hl.
  - destruct l as [|a [|b [|c [|e l]]]]; cbn in Hl; try lia. reflexivity.
  - destruct l as [|a l]; cbn in Hl; [lia|]. cbn [skipn nth Nat.add].
    apply IH. lia.
Qed.

(** C1 (Box Decoder).  For a raw output of shape [1, 4 + C, N], every one
    of the [N] detections is decoded (no score is consulted): the box of
    detection [i] is the slice [[y1, x1, y2, x2]] of the squeezed [boxes]
    buffer with [x1 = cx - w/2], [y1 = cy - h/2], [y2 = y1 + h],
    [x2 = x1 + w], where [cx, cy, w, h] are read at positions 0..3 of
    detection [i] in the transposed tensor of shape [1, N, 4 + C], that is
    attributes 0..3 of the raw output; attributes [50, 50, 20, 10] decode
    to [45, 40, 55, 60]. *)
Theorem box_decoder_correct (res : tensor F32.num) (C N i : nat) :
  shape res = [1; 4 + C; N] ->
  i < N ->
  let transRes := transpose021 res in
  let boxes := detect_boxes transRes in
  let cx := at3 transRes 0 i 0 in
  let cy := at3 transRes 0 i 1 in
  let w := at3 transRes 0 i 2 in
  let h := at3 transRes 0 i 3 in
  let x1 := F32.sub cx (F32.div w (F32.of_Z 2)) in
  let y1 := F32.sub cy (F32.div h (F32.of_Z 2)) in
  shape transRes = [1; N; 4 + C] /\
  cx = attribute res 0 i /\ cy = attribute res 1 i /\
  w = attribute res 2 i /\ h = attribute res 3 i /\
  length (data boxes) = N * 4 /\
  js_slice (data boxes) (i * 4) ((i + 1) * 4)
  = [y1; x1; F32.add y1 h; F32.add x1 w] /\
  (cx = F32.of_Z 50 -> cy = F32.of_Z 50 ->
   w = F32.of_Z 20 -> h = F32.of_Z 10 ->
   js_slice (data boxes) (i * 4) ((i + 1) * 4)
   = [F32.of_Z 45; F32.of_Z 40; F32.of_Z 55; F32.of_Z 60]).
Proof.
  intros Hs Hi transRes boxes cx cy w h x1 y1.
  destruct (dims_res res C N Hs) as (E0 & E1 & E2).
  assert (Hattr : forall a, a < 4 ->
            at3 transRes 0 i a = attribute res a i).
  { intros a Ha. unfold transRes.
    rewrite at3_transpose021; [reflexivity | rewrite E0; lia | rewrite E2; lia
                              | rewrite E1; lia]. }
  assert (Hlen : length (data boxes) = N * 4)
    by (unfold boxes, transRes; now rewrite (length_detect_boxes res C N Hs)).
  assert (Hbox : js_slice (data boxes) (i * 4) ((i + 1) * 4)
                 = [y1; x1; F32.add y1 h; F32.add x1 w]).
  { rewrite (js_slice4 _ _ F32.nan) by (rewrite Hlen; lia).
    unfold boxes, transRes.
    rewrite <- (Nat.add_0_r (i * 4)) at 1.
    rewrite !(nth_detect_boxes res C N Hs) by lia.
    assert (D : forall f a b, dim (binop f (column res a) (half res b)) 2 = 1).
    { intros. unfold dim. now rewrite (shape_corner res C N Hs). }
    assert (D' : forall f a b c,
               dim (tf_add (binop f (column res a) (half res b)) (column res c)) 2 = 1).
    { intros. unfold dim, tf_add.
      now rewrite shape_binop, (shape_corner res C N Hs). }
    unfold y2_t, x2_t, y1_t, x1_t, tf_sub.
    cbn [concat_at]. rewrite !D, !D'. cbn [Nat.ltb Nat.leb Nat.sub].
    rewrite !(at3_far res C N Hs), !(at3_corner res C N Hs) by lia.
    unfold y1, x1, cx, cy, w, h. rewrite !Hattr by lia.
    reflexivity. }
  split; [exact (shape_transRes res C N Hs) | ].
  repeat (split; [apply Hattr; lia | ]).
  split; [exact Hlen | split; [exact Hbox | ]].
  intros Hcx Hcy Hw Hh. rewrite Hbox. unfold y1, x1.
  rewrite Hcx, Hcy, Hw, Hh. reflexivity.
Qed.

Lemma box_decoder_witness :
  shape sample_res = [1; 4 + 2; 2] /\ 0 < 2 /\
  js_slice (data (detect_boxes (transpose021 sample_res))) (0 * 4) ((0 + 1) * 4)
  = [F32.of_Z 45; F32.of_Z 40; F32.of_Z 55; F32.of_Z 60].
Proof.
  split; [reflexivity | split; [lia | ]].
  destruct (box_decoder_correct sample_res 2 2 0 eq_refl ltac:(lia))
    as (_ & _ & _ & _ & _ & _ & _ & Hex).
  apply Hex; reflexivity.
Defined.

(** ** Scores and classes *)

Lemma SFltb_le_lt a b c :
  a <> S754_nan -> SFltb b a = false -> SFltb b c = true -> SFltb a c = true.
Proof.
  unfold SFltb, SFcompare.
  destruct a as [sa|sa| |sa ma ea], b as [sb|sb| |sb mb eb],
           c as [sc|sc| |sc mc ec]; intros Ha H1 H2; try congruence; sf_order.
Qed.

(** The scan, started on a prefix [seen] whose maximum [best] sits at index
    [besti], ends on the maximum of the whole row, at the lowest index that
    holds it. *)
Lemma scan_spec (rest : list F32.num) : forall seen best besti,
  Forall (fun v => v <> S754_nan) (seen ++ rest) ->
  besti < length seen ->
  nth besti seen F32.nan = best ->
  (forall k, k < length seen -> SFltb best (nth k seen F32.nan) = false) ->
  (forall k, k < besti -> SFltb (nth k seen F32.nan) best = true) ->
  let all := seen ++ rest in
  let M := fold_left (fun m x => if F32.ltb m x then x else m) rest best in
  let I := scan_argmax best besti (length seen) rest in
  I < length all /\ nth I all F32.nan = M /\
  (forall k, k < length all -> SFltb M (nth k all F32.nan) = false) /\
  (forall k, k < I -> SFltb (nth k all F32.nan) M = true).
Proof.
  induction rest as [|v rest IH]; intros seen best besti Hnn Hbi Hb Hmax Hlow.
  - cbn. rewrite app_nil_r. auto.
  - cbn zeta. cbn [fold_left scan_argmax].
    replace (seen ++ v :: rest) with ((seen ++ [v]) ++ rest) in *
      by now rewrite <- app_assoc.
    assert (Hv : v <> S754_nan).
    { rewrite Forall_app in Hnn. destruct Hnn as [Hnn _].
      rewrite Forall_app in Hnn. destruct Hnn as [_ Hnn].
      now inversion Hnn. }
    assert (Hseen : forall k, k < length seen -> nth k seen F32.nan <> S754_nan).
    { intros k Hk. rewrite Forall_app in Hnn. destruct Hnn as [Hnn _].
      rewrite Forall_app in Hnn. destruct Hnn as [Hnn _].
      now apply (proj1 (Forall_nth _ F32.nan seen) Hnn). }
    replace (S (length seen)) with (length (seen ++ [v]))
      by (rewrite length_app; cbn; lia).
    unfold F32.ltb. destruct (SFltb best v) eqn:Hlt.
    + apply IH; auto.
      * rewrite length_app. cbn. lia.
      * rewrite app_nth2 by lia. now rewrite Nat.sub_diag.
      * intros k Hk. rewrite length_app in Hk. cbn in Hk.
        destruct (Nat.eq_dec k (length seen)) as [->|Hne].
        -- rewrite app_nth2 by lia. rewrite Nat.sub_diag. cbn.
           apply SFltb_irrefl.
        -- rewrite app_nth1 by lia.
           destruct (SFltb v (nth k seen F32.nan)) eqn:Hc; [|reflexivity].
           rewrite <- (Hmax k ltac:(lia)). symmetry.
           now apply SFltb_trans with v.
      * intros k Hk. rewrite app_nth1 by lia.
        apply SFltb_le_lt with best; auto.
    + apply IH; auto.
      * rewrite length_app. cbn. lia.
      * now rewrite app_nth1 by lia.
      * intros k Hk. rewrite length_app in Hk. cbn in Hk.
        destruct (Nat.eq_dec k (length seen)) as [->|Hne].
        -- rewrite app_nth2 by lia. rewrite Nat.sub_diag. exact Hlt.
        -- rewrite app_nth1 by lia. apply Hmax. lia.
      * intros k Hk. rewrite app_nth1 by lia. now apply Hlow.
Qed.

Lemma row_max_argmax_spec (scores : list F32.num) :
  scores <> [] ->
  Forall (fun v => v <> S754_nan) scores ->
  let M := row_max scores in
  let I := row_argmax scores in
  I < length scores /\ nth I scores F32.nan = M /\
  (forall k, k < length scores -> SFleb (nth k scores F32.nan) M = true) /\
  (forall k, k < I -> SFltb (nth k scores F32.nan) M = true).
Proof.
  intros Hne Hnn. destruct scores as [|v rest]; [congruence|].
  cbn zeta. unfold row_max, row_argmax.
  pose proof (scan_spec rest [v] v 0 Hnn ltac:(cbn; lia) eq_refl) as Hs.
  cbn zeta in Hs. cbn [length app] in Hs.
  destruct Hs as (HI & HM & Hmax & Hlow).
  - intros [|k] Hk; cbn in *; [apply SFltb_irrefl | lia].
  - intros k Hk. lia.
  - repeat split; auto.
    intros k Hk. apply SFleb_total; auto.
    + rewrite <- HM.
      now apply (proj1 (Forall_nth _ F32.nan (v :: rest)) Hnn).
    + now apply (proj1 (Forall_nth _ F32.nan (v :: rest)) Hnn).
Qed.

Lemma nth_map_seq {B} (g : nat -> B) n k d :
  k < n -> nth k (map g (seq 0 n)) d = g k.
Proof.
  intros Hk. rewrite (nth_indep _ d (g 0)) by (rewrite length_map, length_seq; lia).
  rewrite (map_nth g (seq 0 n) 0 k). now rewrite seq_nth by lia.
Qed.

Section Scores.
Variables (res : tensor F32.num) (C N : nat).
Hypothesis res_shape : shape res = [1; 4 + C; N].

Lemma shape_rawScores : shape (rawScores res C) = [N; C].
Proof.
  unfold rawScores, squeeze0, slice3. cbn [shape tail].
  destruct (dims_transRes res C N res_shape) as (_ & -> & _).
  unfold slice_extent.
  replace (Z.of_nat C =? -1)%Z with false by (symmetry; apply Z.eqb_neq; lia).
  cbn. now rewrite Nat.sub_0_r, Nat2Z.id.
Qed.

Lemma data_rawScores :
  data (rawScores res C)
  = build3 1 N C (fun i j k => at3 (transpose021 res) (0 + i) (0 + j) (4 + k)).
Proof.
  unfold rawScores, squeeze0, slice3. cbn [data].
  destruct (dims_transRes res C N res_shape) as (-> & -> & _).
  unfold slice_extent.
  replace (Z.of_nat C =? -1)%Z with false by (symmetry; apply Z.eqb_neq; lia).
  cbn. now rewrite Nat.sub_0_r, Nat2Z.id.
Qed.

Lemma row_rawScores i : i < N -> row (rawScores res C) i = class_scores res C i.
Proof.
  intros Hi. unfold row, dim. rewrite shape_rawScores. cbn [nth].
  assert (Hlen : length (data (rawScores res C)) = N * C)
    by (rewrite data_rawScores, length_build3; lia).
  assert (S i * C <= N * C) by (apply Nat.mul_le_mono_r; lia).
  apply (nth_ext _ _ F32.nan F32.nan).
  - unfold class_scores. rewrite length_map, length_seq.
    rewrite length_firstn, length_skipn, Hlen. lia.
  - intros k Hk. rewrite length_firstn, length_skipn, Hlen in Hk.
    assert (Hk' : k < C) by lia.
    rewrite nth_firstn. apply Nat.ltb_lt in Hk' as Hb. rewrite Hb.
    rewrite nth_skipn. unfold class_scores. rewrite nth_map_seq by lia.
    rewrite data_rawScores.
    replace (i * C + k) with ((0 * N + i) * C + k) by lia.
    rewrite nth_build3 by lia. cbn [Nat.add].
    destruct (dims_res res C N res_shape) as (E0 & E1 & E2).
    rewrite at3_transpose021; [reflexivity | rewrite E0; lia | rewrite E2; lia
                              | rewrite E1; lia].
Qed.

Lemma nth_scores i :
  i < N ->
  nth i (data (fst (detect_scores_classes C (transpose021 res)))) F32.nan
  = row_max (class_scores res C i).
Proof.
  intros Hi. unfold detect_scores_classes. cbn [fst]. fold (rawScores res C).
  unfold tf_max1, reduce_rows, dim. rewrite shape_rawScores. cbn [data nth].
  rewrite nth_map_seq by lia. now rewrite row_rawScores.
Qed.

Lemma nth_classes i :
  i < N ->
  nth i (data (snd (detect_scores_classes C (transpose021 res)))) 0
  = row_argmax (class_scores res C i).
Proof.
  intros Hi. unfold detect_scores_classes. cbn [snd]. fold (rawScores res C).
  unfold tf_argMax1, reduce_rows, dim. rewrite shape_rawScores. cbn [data nth].
  rewrite nth_map_seq by lia. now rewrite row_rawScores.
Qed.

Lemma length_scores_classes :
  length (data (fst (detect_scores_classes C (transpose021 res)))) = N /\
  length (data (snd (detect_scores_classes C (transpose021 res)))) = N.
Proof.
  unfold detect_scores_classes. cbn [fst snd]. fold (rawScores res C).
  unfold tf_max1, tf_argMax1, reduce_rows, dim. rewrite shape_rawScores.
  cbn [data nth]. now rewrite !length_map, !length_seq.
Qed.

End Scores.

(** C5 (score reduction).  For every detection the score is the maximum of
    its [C] class scores (attributes [4 .. 4 + C - 1]) and the class id is
    the index of that maximum; among classes sharing the maximum the lowest
    index is chosen, every class before the chosen one scoring strictly
    less. *)
Theorem score_reduction_correct (res : tensor F32.num) (C N i : nat) :
  shape res = [1; 4 + C; N] ->
  1 <= C ->
  i < N ->
  (forall c, c < C -> attribute res (4 + c) i <> F32.nan) ->
  let scores := fst (detect_scores_classes C (transpose021 res)) in
  let classes := snd (detect_scores_classes C (transpose021 res)) in
  let score := nth i (data scores) F32.nan in
  let classId := nth i (data classes) 0 in
  length (data scores) = N /\ length (data classes) = N /\
  classId < C /\
  score = attribute res (4 + classId) i /\
  (forall c, c < C -> F32.leb (attribute res (4 + c) i) score = true) /\
  (forall c, c < classId -> F32.ltb (attribute res (4 + c) i) score = true) /\
  (forall c, c < C -> attribute res (4 + c) i = score -> classId <= c).
Proof.
  intros Hs HC Hi Hnn scores classes score classId.
  destruct (length_scores_classes res C N Hs) as [L1 L2].
  unfold score, classId, scores, classes.
  rewrite (nth_scores res C N Hs i Hi), (nth_classes res C N Hs i Hi).
  assert (Hlen : length (class_scores res C i) = C)
    by (unfold class_scores; now rewrite length_map, length_seq).
  assert (Hnth : forall c, c < C ->
            nth c (class_scores res C i) F32.nan = attribute res (4 + c) i)
    by (intros c Hc; unfold class_scores; now rewrite nth_map_seq).
  destruct (row_max_argmax_spec (class_scores res C i)) as (HI & HM & Hmax & Hlow).
  - intros E. rewrite E in Hlen. cbn in Hlen. lia.
  - apply (Forall_nth _ F32.nan). intros c Hc. rewrite Hlen in Hc.
    rewrite Hnth by lia. now apply Hnn.
  - rewrite Hlen in HI, Hmax.
    assert (Hlow' : forall c, c < row_argmax (class_scores res C i) ->
              F32.ltb (attribute res (4 + c) i) (row_max (class_scores res C i)) = true).
    { intros c Hc. rewrite <- Hnth by lia. now apply Hlow. }
    repeat split; auto.
    + rewrite <- HM. now apply Hnth.
    + intros c Hc. rewrite <- Hnth by lia. now apply Hmax.
    + intros c Hc Heq.
      destruct (Nat.le_gt_cases (row_argmax (class_scores res C i)) c) as [|Hgt];
        [assumption|].
      specialize (Hlow' c Hgt). rewrite Heq in Hlow'.
      unfold F32.ltb in Hlow'. rewrite SFltb_irrefl in Hlow'. discriminate.
Qed.

Lemma score_reduction_witness :
  shape sample_res = [1; 4 + 2; 2] /\ 1 <= 2 /\ 1 < 2 /\
  nth 1 (data (snd (detect_scores_classes 2 (transpose021 sample_res)))) 0 <= 0.
Proof.
  split; [reflexivity | split; [lia | split; [lia | ]]].
  assert (Hnn : forall c, c < 2 -> attribute sample_res (4 + c) 1 <> F32.nan).
  { intros [|[|c]] Hc; try lia; vm_compute; discriminate. }
  destruct (score_reduction_correct sample_res 2 2 1 eq_refl ltac:(lia)
              ltac:(lia) Hnn) as (_ & _ & _ & _ & _ & _ & Htie).
  apply (Htie 0); [lia | reflexivity].
Defined.


(** ** Rebasing *)

Lemma renderBoxes_loop g labels bd cd ratios mW mH (f : nat -> F64.num) :
  forall (idx : list nat) (acc : list annotation),
  fold_left
    (fun boxes i =>
       let score := f i in
       boxes ++ [render_one g labels bd cd ratios mW mH i])
    idx acc
  = acc ++ map (render_one g labels bd cd ratios mW mH) idx.
Proof.
  induction idx as [|i idx IH]; intros acc; cbn [fold_left map].
  - now rewrite app_nil_r.
  - rewrite IH. now rewrite <- app_assoc.
Qed.

(** The loop of [renderBoxes] maps its body over the indices of
    [scores_data]. *)
Lemma renderBoxes_map g labels bd sd cd ratios mW mH :
  renderBoxes g labels bd sd cd ratios mW mH
  = map (render_one g labels bd cd ratios mW mH) (seq 0 (length sd)).
Proof.
  unfold renderBoxes.
  now rewrite (renderBoxes_loop g labels bd cd ratios mW mH
                 (fun i => F64.mul (num_at sd i) (F64.of_Z 100))).
Qed.

Lemma renderBoxes_lookup g labels bd sd cd ratios mW mH i :
  i < length sd ->
  renderBoxes g labels bd sd cd ratios mW mH !! i
  = Some (render_one g labels bd cd ratios mW mH i).
Proof.
  intros Hi. rewrite renderBoxes_map, list_lookup_fmap.
  rewrite lookup_seq_lt by lia. reflexivity.
Qed.

Lemma renderBoxes_length g labels bd sd cd ratios mW mH :
  length (renderBoxes g labels bd sd cd ratios mW mH) = length sd.
Proof. now rewrite renderBoxes_map, length_map, length_seq. Qed.

Lemma scale_identity (W : F64.num) :
  F64.is_pos_finite W = true -> F64.mul F64.one (F64.div W W) = F64.one.
Proof.
  destruct W as [s|s| |[|] m e]; cbn [F64.is_pos_finite]; try discriminate.
  intros _. now rewrite F64Facts.div_same.
Qed.

(** Reading position [k] of the slice for box [i] reads position
    [4 i + k] of the array; past the end both are [undefined]. *)
Lemma num_at_js_slice (bd : list F64.num) i k :
  k < 4 -> num_at (js_slice bd (i * 4) ((i + 1) * 4)) k = num_at bd (i * 4 + k).
Proof.
  intros Hk. unfold num_at, js_slice.
  replace ((i + 1) * 4 - i * 4) with 4 by lia.
  rewrite nth_firstn.
  destruct (Nat.ltb_spec k 4) as [_ | Hge]; [ | lia].
  now rewrite nth_skipn.
Qed.

(** C3 (Coordinate Rebaser).  The block emitted for box [i] is built from
    the four numbers [boxes_data[4i .. 4i+3]], read as [y1, x1, y2, x2]: it
    is the polygon [(x1', y1') (x2', y1') (x2', y2') (x1', y2')] with the x
    coordinates multiplied by [xRatio * (originalWidth / modelWidth)] and
    the y coordinates by [yRatio * (originalHeight / modelHeight)]; with
    both ratios one and all four dimensions the same positive number the
    box is emitted unchanged. *)
Theorem rebaser_correct g labels bd sd cd ratios mW mH i :
  i < length sd ->
  let y1 := num_at bd (i * 4) in
  let x1 := num_at bd (i * 4 + 1) in
  let y2 := num_at bd (i * 4 + 2) in
  let x2 := num_at bd (i * 4 + 3) in
  let sx := F64.mul (num_at ratios 0) (F64.div (ImageOriginalWidth g) mW) in
  let sy := F64.mul (num_at ratios 1) (F64.div (ImageOriginalHeight g) mH) in
  exists a,
    renderBoxes g labels bd sd cd ratios mW mH !! i = Some a /\
    box a = [(F64.mul x1 sx, F64.mul y1 sy); (F64.mul x2 sx, F64.mul y1 sy);
             (F64.mul x2 sx, F64.mul y2 sy); (F64.mul x1 sx, F64.mul y2 sy)] /\
    (num_at ratios 0 = F64.one -> num_at ratios 1 = F64.one ->
     F64.is_pos_finite mW = true ->
     mH = mW -> ImageOriginalWidth g = mW -> ImageOriginalHeight g = mW ->
     F64.valid y1 = true -> F64.valid x1 = true ->
     F64.valid y2 = true -> F64.valid x2 = true ->
     box a = [(x1, y1); (x2, y1); (x2, y2); (x1, y2)]).
Proof.
  intros Hi y1 x1 y2 x2 sx sy.
  exists (render_one g labels bd cd ratios mW mH i).
  assert (Hbox : box (render_one g labels bd cd ratios mW mH i)
                 = [(F64.mul x1 sx, F64.mul y1 sy); (F64.mul x2 sx, F64.mul y1 sy);
                    (F64.mul x2 sx, F64.mul y2 sy); (F64.mul x1 sx, F64.mul y2 sy)]).
  { cbn [render_one box].
    rewrite !num_at_js_slice by lia. rewrite Nat.add_0_r. reflexivity. }
  split; [now apply renderBoxes_lookup | split; [exact Hbox | ]].
  intros Hrx Hry Hpos HmH HW HH Vy1 Vx1 Vy2 Vx2.
  rewrite Hbox. unfold sx, sy.
  rewrite Hrx, Hry, HW, HH, HmH, (scale_identity mW Hpos).
  now rewrite !F64Facts.mul_one_r.
Qed.

(** Two boxes that differ in every coordinate: the second block is built
    from the second box, and from no number of the first. *)
Lemma rebaser_witness :
  1 < length [F64.lit 9 10; F64.lit 8 10] /\
  (exists a,
     renderBoxes sample_globals sample_labels sample_boxes_data
       [F64.lit 9 10; F64.lit 8 10] [0%Z; 1%Z] [F64.one; F64.one]
       (F64.of_Z 200) (F64.of_Z 200) !! 1 = Some a /\
     box a = [(F64.of_Z 20, F64.of_Z 10); (F64.of_Z 40, F64.of_Z 10);
              (F64.of_Z 40, F64.of_Z 30); (F64.of_Z 20, F64.of_Z 30)]) /\
  (exists a,
     renderBoxes sample_globals sample_labels sample_boxes_data
       [F64.lit 9 10; F64.lit 8 10] [0%Z; 1%Z] [F64.of_Z 2; F64.one]
       (F64.of_Z 100) (F64.of_Z 100) !! 1 = Some a /\
     box a = [(F64.of_Z 80, F64.of_Z 20); (F64.of_Z 160, F64.of_Z 20);
              (F64.of_Z 160, F64.of_Z 60); (F64.of_Z 80, F64.of_Z 60)]).
Proof.
  split; [cbn; lia | split].
  - destruct (rebaser_correct sample_globals sample_labels sample_boxes_data
                [F64.lit 9 10; F64.lit 8 10] [0%Z; 1%Z] [F64.one; F64.one]
                (F64.of_Z 200) (F64.of_Z 200) 1 ltac:(cbn; lia))
      as (a & Ha & _ & Hid).
    exists a. split; [exact Ha | ].
    apply Hid; reflexivity.
  - destruct (rebaser_correct sample_globals sample_labels sample_boxes_data
                [F64.lit 9 10; F64.lit 8 10] [0%Z; 1%Z] [F64.of_Z 2; F64.one]
                (F64.of_Z 100) (F64.of_Z 100) 1 ltac:(cbn; lia))
      as (a & Ha & Hbox & _).
    exists a. split; [exact Ha | ].
    rewrite Hbox. vm_compute. reflexivity.
Defined.

(** C9 (cardinality).  For [n] surviving detections given as parallel
    arrays, [renderBoxes] returns exactly [n] blocks, the [i]-th built from
    the [i]-th box and the [i]-th class id; for [n = 0] the result is the
    empty list, returned normally. *)
Theorem rebaser_cardinality g labels bd sd cd ratios mW mH n :
  length sd = n -> length bd = 4 * n -> length cd = n ->
  let out := renderBoxes g labels bd sd cd ratios mW mH in
  length out = n /\
  (forall i, i < n ->
     exists y1 x1 y2 x2 c,
       js_slice bd (i * 4) ((i + 1) * 4) = [y1; x1; y2; x2] /\
       cd !! i = Some c /\
       out !! i =
         Some {| box := polygon (F64.mul x1 (scaleX g ratios mW))
                                (F64.mul y1 (scaleY g ratios mH))
                                (F64.mul x2 (scaleX g ratios mW))
                                (F64.mul y2 (scaleY g ratios mH));
                 typology := type_of (typeMappings g)
                               (label_of labels (Some c)) |}) /\
  (n = 0 ->
   renderBoxes_call g labels bd sd cd ratios mW mH = Normal []).
Proof.
  intros Hsd Hbd Hcd out. unfold out.
  split; [now rewrite renderBoxes_length | split].
  - intros i Hi.
    pose proof (js_slice4 bd i F64.nan ltac:(lia)) as Hsl.
    destruct (lookup_lt_is_Some_2 cd i ltac:(lia)) as [c Hc].
    eexists _, _, _, _, c. split; [exact Hsl | split; [exact Hc | ]].
    rewrite renderBoxes_lookup by lia. f_equal.
    unfold render_one. rewrite Hsl, Hc. reflexivity.
  - intros ->. unfold renderBoxes_call, renderBoxes.
    apply length_zero_iff_nil in Hsd. now rewrite Hsd.
Qed.

Lemma rebaser_cardinality_witness :
  length (renderBoxes sample_globals sample_labels sample_boxes_data
            [F64.lit 9 10; F64.lit 8 10] [0%Z; 1%Z] [F64.one; F64.one]
            (F64.of_Z 200) (F64.of_Z 200)) = 2.
Proof.
  apply (rebaser_cardinality sample_globals sample_labels sample_boxes_data
           [F64.lit 9 10; F64.lit 8 10] [0%Z; 1%Z] [F64.one; F64.one]
           (F64.of_Z 200) (F64.of_Z 200) 2); reflexivity.
Defined.

(** C10 (scores do not flow into the blocks).  Two score arrays of the same
    length give the same list of blocks; a block holds a polygon and a
    typology and nothing derived from a score. *)
Theorem score_noninterference g labels bd cd ratios mW mH
    (scores1 scores2 : list F64.num) :
  length scores1 = length scores2 ->
  renderBoxes g labels bd scores1 cd ratios mW mH
  = renderBoxes g labels bd scores2 cd ratios mW mH.
Proof. intros Hlen. now rewrite !renderBoxes_map, Hlen. Qed.

Lemma score_noninterference_witness :
  length [F64.lit 9 10; F64.lit 8 10] = length [F64.nan; F64.zero] /\
  renderBoxes sample_globals sample_labels sample_boxes_data
    [F64.lit 9 10; F64.lit 8 10] [0%Z; 1%Z] [F64.one; F64.one]
    (F64.of_Z 200) (F64.of_Z 200)
  = renderBoxes sample_globals sample_labels sample_boxes_data
      [F64.nan; F64.zero] [0%Z; 1%Z] [F64.one; F64.one]
      (F64.of_Z 200) (F64.of_Z 200).
Proof.
  split; [reflexivity | ].
  apply (score_noninterference sample_globals sample_labels sample_boxes_data
           [0%Z; 1%Z] [F64.one; F64.one] (F64.of_Z 200) (F64.of_Z 200)).
  reflexivity.
Defined.

(** Counterexample to C6 as stated: label ["b"] has no entry in the mapping,
    yet the call completes normally and emits the block of the detection of
    class ["b"], with an undefined typology. *)
Lemma unmapped_class_counterexample :
  typeMappings sample_globals !! "b" = None /\
  renderBoxes_call sample_globals sample_labels sample_boxes_data
    [F64.lit 9 10] [1%Z] [F64.one; F64.one] (F64.of_Z 200) (F64.of_Z 200)
  = Normal [ {| box := [(F64.of_Z 80, F64.of_Z 80); (F64.of_Z 120, F64.of_Z 80);
                        (F64.of_Z 120, F64.of_Z 120); (F64.of_Z 80, F64.of_Z 120)];
                typology := None |} ].
Proof. split; reflexivity. Qed.

(** C6, amended.  When the class id of detection [i] has no entry in the
    mapping, [renderBoxes] raises nothing: the call completes normally with
    one block per detection, and the block of detection [i] carries its
    rebased polygon and an undefined typology. *)
Theorem unmapped_class_emitted g labels bd sd cd ratios mW mH i :
  i < length sd ->
  type_of (typeMappings g) (label_of labels (cd !! i)) = None ->
  exists out a,
    renderBoxes_call g labels bd sd cd ratios mW mH = Normal out /\
    length out = length sd /\
    out !! i = Some a /\
    typology a = None /\
    box a = box (render_one g labels bd cd ratios mW mH i).
Proof.
  intros Hi Hnone.
  exists (renderBoxes g labels bd sd cd ratios mW mH),
         (render_one g labels bd cd ratios mW mH i).
  split; [reflexivity | split; [apply renderBoxes_length | ]].
  split; [now apply renderBoxes_lookup | split; [exact Hnone | reflexivity]].
Qed.

Lemma unmapped_class_witness :
  0 < length [F64.lit 9 10] /\
  exists out a,
    renderBoxes_call sample_globals sample_labels sample_boxes_data
      [F64.lit 9 10] [1%Z] [F64.one; F64.one] (F64.of_Z 200) (F64.of_Z 200)
    = Normal out /\
    out !! 0 = Some a /\ typology a = None.
Proof.
  split; [cbn; lia | ].
  destruct (unmapped_class_emitted sample_globals sample_labels
              sample_boxes_data [F64.lit 9 10] [1%Z] [F64.one; F64.one]
              (F64.of_Z 200) (F64.of_Z 200) 0 ltac:(cbn; lia) eq_refl)
    as (out & a & Hc & _ & Ha & Ht & _).
  exists out, a. auto.
Defined.

(** ** Suppression *)

Example suppress_disjoint : suppress disjoint_boxes two_scores = [0; 1].
Proof. vm_compute. reflexivity. Qed.

Example suppress_overlapping : suppress overlapping_boxes two_scores = [0].
Proof. vm_compute. reflexivity. Qed.

Example iou_overlapping : iou overlapping_boxes 1 0 = F64.lit 9 10.
Proof. vm_compute. reflexivity. Qed.

Section SuppressionFacts.
Variables (boxes scores : list F64.num).
Variables (maxOutputSize : nat) (iouThreshold scoreThreshold : F64.num).

Local Abbreviation score := (score_of scores).
Local Abbreviation insert := (insert_desc scores).
Local Abbreviation sorted := (sort_desc scores).
Local Abbreviation pick := (select boxes maxOutputSize iouThreshold).

Local Abbreviation before := (before scores).

Lemma Forall_insert (P : nat -> Prop) c l :
  P c -> Forall P l -> Forall P (insert c l).
Proof.
  intros Hc Hl. induction Hl as [|d r Hd Hr IH]; cbn [insert_desc].
  - now constructor.
  - destruct (F64.ltb (score c) (score d)); repeat constructor; auto.
Qed.

Lemma Forall_sorted (P : nat -> Prop) l : Forall P l -> Forall P (sorted l).
Proof.
  induction 1 as [|c l Hc Hl IH]; cbn [sort_desc fold_right].
  - constructor.
  - now apply Forall_insert.
Qed.

Lemma before_trans a b c :
  score b <> F64.nan -> before a b -> before b c -> before a c.
Proof. unfold before, F64.ltb. apply SFltb_negtrans. Qed.

Lemma ltb_before a b : F64.ltb (score a) (score b) = true -> before b a.
Proof.
  unfold before, F64.ltb. intros H.
  destruct (SFltb (score b) (score a)) eqn:E; [|reflexivity].
  pose proof (SFltb_trans _ _ _ H E) as Hc.
  now rewrite SFltb_irrefl in Hc.
Qed.

Lemma insert_sorted c l :
  Forall (fun i => score i <> F64.nan) l ->
  StronglySorted before l -> StronglySorted before (insert c l).
Proof.
  intros Hnn Hs. induction Hs as [|d r Hr IH Hd]; cbn [insert_desc].
  - repeat constructor.
  - inversion Hnn as [|? ? Hnd Hnr]; subst.
    destruct (F64.ltb (score c) (score d)) eqn:E.
    + constructor; [now apply IH | ].
      apply Forall_insert; [now apply ltb_before | exact Hd].
    + constructor; [now constructor | ].
      constructor; [exact E | ].
      eapply Forall_impl; [exact Hd | ].
      intros x Hx. now apply before_trans with d.
Qed.

Lemma sorted_sorted l :
  Forall (fun i => score i <> F64.nan) l -> StronglySorted before (sorted l).
Proof.
  induction 1 as [|c l Hc Hl IH]; cbn [sort_desc fold_right].
  - constructor.
  - apply insert_sorted; [now apply Forall_sorted | exact IH].
Qed.

Lemma StronglySorted_drop_middle {B} (R : B -> B -> Prop) l1 x l2 :
  StronglySorted R (l1 ++ x :: l2) -> StronglySorted R (l1 ++ l2).
Proof.
  rewrite !StronglySorted_app. intros (H1 & H2 & H3).
  split; [ | split; [exact H2 | now inversion H3]].
  intros a b Ha Hb. apply H1; [exact Ha | now right].
Qed.

(** The three invariants of the greedy pass. *)
Lemma pick_sorted cands : forall selected,
  StronglySorted before (selected ++ cands) ->
  StronglySorted before (pick cands selected).
Proof.
  induction cands as [|c rest IH]; intros selected Hs; cbn [select].
  - now rewrite app_nil_r in Hs.
  - destruct (maxOutputSize <=? length selected).
    + now apply StronglySorted_app_1_l in Hs.
    + destruct (existsb _ selected).
      * apply IH. now apply StronglySorted_drop_middle in Hs.
      * apply IH. now rewrite <- app_assoc.
Qed.

Lemma pick_Forall (P : nat -> Prop) cands : forall selected,
  Forall P selected -> Forall P cands -> Forall P (pick cands selected).
Proof.
  induction cands as [|c rest IH]; intros selected Hsel Hc; cbn [select];
    [exact Hsel | ].
  inversion Hc; subst.
  destruct (maxOutputSize <=? length selected); [exact Hsel | ].
  destruct (existsb _ selected); apply IH; auto.
  apply Forall_app; split; auto.
Qed.

Lemma pick_length cands : forall selected,
  length selected <= maxOutputSize ->
  length (pick cands selected) <= maxOutputSize.
Proof.
  induction cands as [|c rest IH]; intros selected Hl; cbn [select];
    [exact Hl | ].
  destruct (maxOutputSize <=? length selected) eqn:E; [exact Hl | ].
  apply Nat.leb_gt in E.
  destruct (existsb _ selected); apply IH; auto.
  rewrite length_app. cbn. lia.
Qed.

Local Abbreviation apart := (apart boxes iouThreshold).

Lemma apart_snoc l c :
  apart l ->
  existsb (fun s => F64.ltb iouThreshold (iou boxes c s)) l = false ->
  apart (l ++ [c]).
Proof.
  intros Hl Hex p q a b Hpq Ha Hb.
  assert (Hq : q < length (l ++ [c])) by (eapply lookup_lt_Some; eauto).
  rewrite length_app in Hq. cbn in Hq.
  rewrite lookup_app_l in Ha by lia.
  destruct (Nat.eq_dec q (length l)) as [->|Hne].
  - rewrite lookup_app_r, Nat.sub_diag in Hb by lia. cbn in Hb.
    injection Hb as <-.
    destruct (F64.ltb iouThreshold (iou boxes c a)) eqn:E; [|reflexivity].
    assert (Hin : In a l) by (apply list_elem_of_In; eapply list_elem_of_lookup_2; eauto).
    assert (existsb (fun s => F64.ltb iouThreshold (iou boxes c s)) l = true)
      by (apply existsb_exists; eauto).
    congruence.
  - rewrite lookup_app_l in Hb by lia. eauto.
Qed.

Lemma pick_apart cands : forall selected,
  apart selected -> apart (pick cands selected).
Proof.
  induction cands as [|c rest IH]; intros selected Hs; cbn [select];
    [exact Hs | ].
  destruct (maxOutputSize <=? length selected); [exact Hs | ].
  destruct (existsb _ selected) eqn:E; apply IH; auto.
  now apply apart_snoc.
Qed.

Lemma StronglySorted_lookup {B} (R : B -> B -> Prop) l p q a b :
  StronglySorted R l -> p < q -> l !! p = Some a -> l !! q = Some b -> R a b.
Proof.
  intros Hs. revert p q. induction Hs as [|x l Hl IH Hx]; intros p q Hpq Ha Hb.
  - discriminate.
  - destruct q as [|q]; [lia|]. cbn in Hb. destruct p as [|p].
    + cbn in Ha. injection Ha as ->.
      rewrite List.Forall_forall in Hx. apply Hx.
      apply list_elem_of_In. eapply list_elem_of_lookup_2; eauto.
    + cbn in Ha. apply (IH p q); auto. lia.
Qed.

End SuppressionFacts.

Lemma candidates_spec (scores : list F64.num) (thr : F64.num) :
  Forall (fun i => i < length scores /\
                   F64.ltb (score_of scores i) thr = false)
         (filter (fun i => F64.ltb (score_of scores i) thr = false)
                 (seq 0 (length scores))).
Proof.
  apply Forall_forall. intros i Hi.
  apply list_elem_of_filter in Hi as [Hs Hi].
  apply elem_of_seq in Hi. split; [lia | exact Hs].
Qed.

Lemma suppress_two boxes :
  suppress boxes two_scores
  = if F64.ltb (F64.lit 45 100) (iou boxes 1 0) then [0] else [0; 1].
Proof.
  unfold suppress, nonMaxSuppression.
  replace (filter _ (seq 0 (length two_scores))) with [0; 1]
    by (vm_compute; reflexivity).
  replace (sort_desc two_scores [0; 1]) with [0; 1] by (vm_compute; reflexivity).
  cbn [select length existsb app Nat.leb].
  now rewrite orb_false_r.
Qed.

(** Counterexample to C4 as stated: the suppression stage of [detect]
    takes the boxes and the scores only, so a caller cannot obtain the
    suppression for another parameter setting; with a cap of one the two
    separate boxes would be cut to one, but [suppress] returns both. *)
Lemma suppress_not_configurable :
  ~ (forall maxOutputSize iouThreshold scoreThreshold boxes scores,
       suppress boxes scores
       = nonMaxSuppression boxes scores maxOutputSize iouThreshold
           scoreThreshold).
Proof.
  intros H.
  specialize (H 1 (F64.lit 45 100) (F64.lit 2 10) disjoint_boxes two_scores).
  vm_compute in H. discriminate H.
Qed.

(** C4, amended.  The suppression stage is greedy non-maximum suppression
    with the parameters fixed in the call: cap 500, overlap threshold 0.45,
    score threshold 0.2.  No box scoring below 0.2 is returned, at most 500
    indices are returned, in non-increasing score order, and no returned box
    overlaps an earlier returned box by more than 0.45.  Of two boxes
    scoring 0.9 and 0.8, only the first survives when their overlap exceeds
    the threshold, and both survive when it is below. *)
Theorem suppression_correct (boxes scores : list F64.num) :
  Forall (fun s => s <> F64.nan) scores ->
  let out := suppress boxes scores in
  out = nonMaxSuppression boxes scores 500 (F64.lit 45 100) (F64.lit 2 10) /\
  length out <= 500 /\
  (forall i, i ∈ out ->
     i < length scores /\
     F64.ltb (score_of scores i) (F64.lit 2 10) = false) /\
  (forall p q a b, p < q -> out !! p = Some a -> out !! q = Some b ->
     F64.ltb (score_of scores a) (score_of scores b) = false) /\
  (forall p q a b, p < q -> out !! p = Some a -> out !! q = Some b ->
     F64.ltb (F64.lit 45 100) (iou boxes b a) = false) /\
  (scores = [F64.lit 9 10; F64.lit 8 10] ->
     (F64.ltb (F64.lit 45 100) (iou boxes 1 0) = true -> out = [0]) /\
     (F64.ltb (iou boxes 1 0) (F64.lit 45 100) = true -> out = [0; 1])).
Proof.
  intros Hnn out. unfold out, suppress, nonMaxSuppression.
  set (cands := filter _ (seq 0 (length scores))).
  pose proof (candidates_spec scores (F64.lit 2 10)) as Hc. fold cands in Hc.
  split; [reflexivity | split; [ | split; [ | split; [ | split]]]].
  - apply pick_length. cbn. lia.
  - apply Forall_forall. apply pick_Forall; [constructor | ].
    now apply Forall_sorted.
  - intros p q a b Hpq Ha Hb.
    eapply (StronglySorted_lookup (before scores)); eauto.
    apply pick_sorted. cbn [app]. apply sorted_sorted.
    eapply Forall_impl; [exact Hc | ].
    intros i [Hi _]. unfold score_of, num_at.
    now apply (proj1 (Forall_nth _ F64.nan scores) Hnn).
  - intros p q a b Hpq Ha Hb.
    eapply (pick_apart boxes 500 (F64.lit 45 100)); eauto.
    intros p' q' a' b' _ Hn. discriminate Hn.
  - intros ->. fold cands. clear Hc. subst cands.
    change (select boxes 500 (F64.lit 45 100) _ [])
      with (suppress boxes two_scores).
    rewrite suppress_two. split.
    + now intros ->.
    + intros Hlt.
      destruct (F64.ltb (F64.lit 45 100) (iou boxes 1 0)) eqn:E; [|reflexivity].
      unfold F64.ltb in *. pose proof (SFltb_trans _ _ _ Hlt E) as Hcontra.
      now rewrite SFltb_irrefl in Hcontra.
Qed.

Lemma suppression_witness :
  Forall (fun s => s <> F64.nan) two_scores /\
  suppress overlapping_boxes two_scores = [0] /\
  suppress disjoint_boxes two_scores = [0; 1].
Proof.
  assert (Hnn : Forall (fun s => s <> F64.nan) two_scores)
    by (repeat constructor; discriminate).
  split; [exact Hnn | split].
  - destruct (suppression_correct overlapping_boxes two_scores Hnn)
      as (_ & _ & _ & _ & _ & Hex).
    apply (Hex eq_refl). reflexivity.
  - destruct (suppression_correct disjoint_boxes two_scores Hnn)
      as (_ & _ & _ & _ & _ & Hex).
    apply (Hex eq_refl). reflexivity.
Defined.

(** ** Preprocessing *)

Lemma preprocess_run resizeBilinear source mW mH e :
  exists input e',
    preprocess resizeBilinear source mW mH e
    = (Normal (input, fst (ratios_of source), snd (ratios_of source)), e') /\
    hval input
    = expandDims0 (tf_div (resizeBilinear (imgPadded_of source) mW mH)
                          (scalar (F32.of_Z 255))) /\
    kernels e'
    = kernels e ++ [KFromPixels; KPad; KResizeBilinear; KDiv; KExpandDims].
Proof.
  cbv beta iota zeta delta
    [preprocess tidy startScope mbind M_bind make mret M_ret ratios_of
     fst snd hid hval endScope scopes track kernels nextId live].
  eexists _, _. split; [reflexivity | split; [reflexivity | ]].
  rewrite <- !app_assoc. reflexivity.
Qed.

Section Padding.
Variables (img : tensor Z) (h w c : nat).
Hypothesis img_shape : shape img = [h; w; c].

Lemma dims_img : dim img 0 = h /\ dim img 1 = w /\ dim img 2 = c.
Proof. unfold dim. now rewrite img_shape. Qed.

Lemma shape_imgPadded :
  shape (imgPadded_of img) = [Nat.max w h; Nat.max w h; c].
Proof.
  unfold imgPadded_of, pad3. cbn [shape fst snd].
  destruct dims_img as (-> & -> & ->). f_equal; [lia | f_equal; [lia | ]].
  f_equal. lia.
Qed.

Lemma at3_imgPadded i j k :
  i < Nat.max w h -> j < Nat.max w h -> k < c ->
  at3 (imgPadded_of img) i j k
  = if (i <? h) && (j <? w) then at3 img i j k else 0%Z.
Proof.
  intros Hi Hj Hk. unfold imgPadded_of, pad3. cbn [fst snd].
  destruct dims_img as (-> & -> & ->).
  rewrite at3_build3 by lia.
  cbn [Nat.leb Nat.add andb]. rewrite !Nat.sub_0_r.
  apply Nat.ltb_lt in Hk as ->. now rewrite andb_true_r.
Qed.

End Padding.

(** Counterexample to C2 as stated: for a page 11 pixels wide and 15 high
    the returned [xRatio] is the double nearest to 15/11, and multiplying
    it by the width gives 14.999999999999998, not [maxSize = 15]. *)
Lemma preprocess_ratio_counterexample :
  exists input xRatio yRatio e',
    preprocess sample_resize tall_source 4 4 fresh_engine
    = (Normal (input, xRatio, yRatio), e') /\
    F64.mul xRatio (F64.of_nat 11) <> F64.of_nat (Nat.max 11 15).
Proof.
  destruct (preprocess_run sample_resize tall_source 4 4 fresh_engine)
    as (input & e' & Hrun & _).
  exists input, (fst (ratios_of tall_source)), (snd (ratios_of tall_source)), e'.
  split; [exact Hrun | ]. vm_compute. discriminate.
Qed.

(** C2, amended.  For a page of width [w] and height [h], both positive,
    [preprocess] pads at the bottom and at the right only, to a square of
    side [maxSize = max w h] that holds the page in its top-left corner and
    zero elsewhere, and returns [xRatio = maxSize / w] and
    [yRatio = maxSize / h] as rounded quotients.  The ratio of the longer
    side is exactly one, so for that side ratio times side is [maxSize]
    exactly; when [w = h] both ratios are one. *)
Theorem preprocess_geometry resizeBilinear (img : tensor Z) (h w c mW mH : nat)
    (e : engine) :
  shape img = [h; w; c] ->
  (0 < Z.of_nat w < 2 ^ 53)%Z ->
  (0 < Z.of_nat h < 2 ^ 53)%Z ->
  let maxSize := Nat.max w h in
  exists input xRatio yRatio e',
    preprocess resizeBilinear img mW mH e
    = (Normal (input, xRatio, yRatio), e') /\
    hval input
    = expandDims0 (tf_div (resizeBilinear (imgPadded_of img) mW mH)
                          (scalar (F32.of_Z 255))) /\
    shape (imgPadded_of img) = [maxSize; maxSize; c] /\
    (forall i j k, i < h -> j < w -> k < c ->
       at3 (imgPadded_of img) i j k = at3 img i j k) /\
    (forall i j k, i < maxSize -> j < maxSize -> k < c ->
       h <= i \/ w <= j -> at3 (imgPadded_of img) i j k = 0%Z) /\
    xRatio = F64.div (F64.of_nat maxSize) (F64.of_nat w) /\
    yRatio = F64.div (F64.of_nat maxSize) (F64.of_nat h) /\
    (h <= w -> xRatio = F64.one /\
               F64.mul xRatio (F64.of_nat w) = F64.of_nat maxSize) /\
    (w <= h -> yRatio = F64.one /\
               F64.mul yRatio (F64.of_nat h) = F64.of_nat maxSize) /\
    (w = h -> xRatio = F64.one /\ yRatio = F64.one).
Proof.
  intros Hs Hw Hh maxSize.
  destruct (preprocess_run resizeBilinear img mW mH e)
    as (input & e' & Hrun & Hin & _).
  exists input, (fst (ratios_of img)), (snd (ratios_of img)), e'.
  destruct (dims_img img h w c Hs) as (D0 & D1 & D2).
  assert (Hx : fst (ratios_of img)
               = F64.div (F64.of_nat maxSize) (F64.of_nat w))
    by (unfold ratios_of; cbn [fst]; now rewrite D0, D1).
  assert (Hy : snd (ratios_of img)
               = F64.div (F64.of_nat maxSize) (F64.of_nat h))
    by (unfold ratios_of; cbn [snd]; now rewrite D0, D1).
  assert (Hlong : forall n, (0 < Z.of_nat n < 2 ^ 53)%Z ->
            F64.div (F64.of_nat n) (F64.of_nat n) = F64.one /\
            F64.mul F64.one (F64.of_nat n) = F64.of_nat n).
  { intros n Hn. unfold F64.of_nat. split.
    - now apply F64Facts.div_of_Z_same.
    - apply F64Facts.mul_one_l. now apply F64Facts.of_Z_valid. }
  split; [exact Hrun | split; [exact Hin | ]].
  split; [now apply shape_imgPadded | ].
  split; [ | split; [ | split; [exact Hx | split; [exact Hy | ]]]].
  - intros i j k Hi Hj Hk.
    rewrite (at3_imgPadded img h w c Hs) by lia.
    apply Nat.ltb_lt in Hi as ->. now apply Nat.ltb_lt in Hj as ->.
  - intros i j k Hi Hj Hk Hout.
    rewrite (at3_imgPadded img h w c Hs) by (fold maxSize; lia).
    destruct Hout as [Hout | Hout].
    + apply Nat.ltb_ge in Hout as ->. reflexivity.
    + apply Nat.ltb_ge in Hout as ->. now rewrite andb_false_r.
  - rewrite Hx, Hy. split; [ | split].
    + intros Hle. replace maxSize with w by (unfold maxSize; lia).
      destruct (Hlong w Hw) as [-> ->]. auto.
    + intros Hle. replace maxSize with h by (unfold maxSize; lia).
      destruct (Hlong h Hh) as [-> ->]. auto.
    + intros ->. replace maxSize with h by (unfold maxSize; lia).
      destruct (Hlong h Hh) as [-> _]. auto.
Qed.

Lemma preprocess_geometry_witness :
  shape sample_source = [1; 2; 3] /\
  exists input xRatio yRatio e',
    preprocess sample_resize sample_source 4 4 fresh_engine
    = (Normal (input, xRatio, yRatio), e') /\
    shape (imgPadded_of sample_source) = [2; 2; 3] /\
    xRatio = F64.one /\ yRatio = F64.of_Z 2.
Proof.
  split; [reflexivity | ].
  destruct (preprocess_geometry sample_resize sample_source 1 2 3 4 4
              fresh_engine eq_refl ltac:(cbn; lia) ltac:(cbn; lia))
    as (input & xRatio & yRatio & e' & Hrun & _ & Hsh & _ & _ & Hx & Hy & _).
  exists input, xRatio, yRatio, e'.
  split; [exact Hrun | split; [exact Hsh | split]].
  - rewrite Hx. reflexivity.
  - rewrite Hy. reflexivity.
Defined.

(** ** The tensor engine *)

Lemma extends_refl e : extends e e [].
Proof.
  split; auto.
  - now destruct (scopes e).
  - intros id Hid. inversion Hid.
  - exists []. now rewrite app_nil_r.
Qed.

Lemma extends_trans e e1 e2 n1 n2 :
  extends e e1 n1 -> extends e1 e2 n2 -> extends e e2 (n2 ++ n1).
Proof.
  intros [L1 V1 S1 N1 [k1 K1]] [L2 V2 S2 N2 [k2 K2]]. split.
  - lia.
  - intros id Hid. rewrite V1 by lia. apply V2. lia.
  - rewrite S2, S1. destruct (scopes e); cbn; [reflexivity | ].
    now rewrite app_assoc.
  - intros id Hid. apply elem_of_app in Hid as [Hid | Hid].
    + apply N2 in Hid. lia.
    + apply N1 in Hid. lia.
  - exists (k1 ++ k2). now rewrite K2, K1, app_assoc.
Qed.

Lemma framed_ret {A} (v : A) : framed (mret v).
Proof. intros e. exists []. apply extends_refl. Qed.

Lemma framed_throw {A} msg : framed (@throw A msg).
Proof. intros e. exists []. apply extends_refl. Qed.

Lemma framed_make {A} k (v : tensor A) : framed (make k v).
Proof.
  intros e. exists [nextId e]. cbn. split; cbn.
  - lia.
  - intros id Hid. rewrite elem_of_union, elem_of_singleton.
    split; [auto | intros [-> | ?]; [lia | auto]].
  - now destruct (scopes e).
  - intros id Hid. apply list_elem_of_singleton in Hid. lia.
  - eauto.
Qed.

Lemma framed_bind {A B} (m : M A) (f : A -> M B) :
  framed m -> (forall v, framed (f v)) -> framed (m ≫= f).
Proof.
  intros Hm Hf e. unfold mbind, M_bind.
  destruct (Hm e) as [n1 H1]. destruct (m e) as [[v | msg] e1]; cbn [snd] in *.
  - destruct (Hf v e1) as [n2 H2]. exists (n2 ++ n1).
    now apply extends_trans with e1.
  - now exists n1.
Qed.

Lemma extends_endScope e e1 new keep :
  extends (snd (startScope e)) e1 new ->
  extends e (endScope keep e1) (filter (fun id => id ∈ keep) new).
Proof.
  intros [L V S N [ks K]]. cbn in L, V, S, N, K.
  unfold endScope. rewrite S. rewrite app_nil_r. split; cbn.
  - exact L.
  - intros id Hid. rewrite V by exact Hid.
    rewrite elem_of_difference, elem_of_list_to_set, list_elem_of_filter.
    split; [ | now intros [? _]].
    intros Hin. split; [exact Hin | ].
    intros [_ Hnew]. apply N in Hnew. lia.
  - now destruct (scopes e).
  - intros id Hid. apply list_elem_of_filter in Hid as [_ Hid]. now apply N.
  - eauto.
Qed.

Lemma framed_tidy {R} (tensors_of : R -> list nat) (body : M R) :
  framed body -> framed (tidy tensors_of body).
Proof.
  intros Hb e. unfold tidy.
  destruct (Hb (snd (startScope e))) as [new Hnew].
  destruct (body (snd (startScope e))) as [[v | msg] e1]; cbn [snd] in *;
    eexists; eapply extends_endScope; eauto.
Qed.

Ltac framed :=
  repeat lazymatch goal with
  | |- framed (make _ _) => apply framed_make
  | |- framed (mret _) => apply framed_ret
  | |- framed (throw _) => apply framed_throw
  | |- framed (tidy _ _) => apply framed_tidy
  | |- framed (_ ≫= _) => apply framed_bind; [ | intros ?; cbv beta ]
  | |- framed (let '(_, _) := ?p in _) => destruct p
  end.

Lemma framed_preprocess resizeBilinear source mW mH :
  framed (preprocess resizeBilinear source mW mH).
Proof. unfold preprocess. framed. Qed.

Lemma framed_execute execute input : framed (tf_execute execute input).
Proof.
  intros e. unfold tf_execute. destruct (execute (hval input)).
  - apply framed_make.
  - exists []. apply extends_refl.
Qed.

Lemma framed_boxes_tidy transRes : framed (boxes_tidy transRes).
Proof. unfold boxes_tidy. framed. Qed.

Lemma framed_scores_tidy labels transRes : framed (scores_tidy labels transRes).
Proof. unfold scores_tidy. framed. Qed.

Lemma framed_nonMaxSuppression boxes scores :
  framed (tf_nonMaxSuppressionAsync boxes scores).
Proof.
  unfold tf_nonMaxSuppressionAsync.
  destruct (nms_shapes_ok (hval boxes) (hval scores)).
  - apply framed_make.
  - apply framed_throw.
Qed.

Ltac framed_pipeline :=
  repeat lazymatch goal with
  | |- framed (make _ _) => apply framed_make
  | |- framed (mret _) => apply framed_ret
  | |- framed (throw _) => apply framed_throw
  | |- framed (tidy _ _) => apply framed_tidy
  | |- framed (tf_execute _ _) => apply framed_execute
  | |- framed (boxes_tidy _) => apply framed_boxes_tidy
  | |- framed (scores_tidy _ _) => apply framed_scores_tidy
  | |- framed (tf_nonMaxSuppressionAsync _ _) => apply framed_nonMaxSuppression
  | |- framed (_ ≫= _) => apply framed_bind; [ | intros ?; cbv beta ]
  | |- framed (let '(_, _) := ?p in _) => destruct p
  end.

Lemma framed_detect_from execute g labels input xRatio yRatio mW mH :
  framed (detect_from execute g labels input xRatio yRatio mW mH).
Proof. unfold detect_from. framed_pipeline. Qed.

(** What [preprocess] leaves behind: its result, allocated fifth, is
    live. *)
Lemma preprocess_input_live resizeBilinear source mW mH e :
  exists input e1,
    preprocess resizeBilinear source mW mH e
    = (Normal (input, fst (ratios_of source), snd (ratios_of source)), e1) /\
    hid input = nextId e + 4 /\
    nextId e1 = nextId e + 5 /\
    hid input ∈ live e1 /\
    kernels e1
    = kernels e ++ [KFromPixels; KPad; KResizeBilinear; KDiv; KExpandDims].
Proof.
  cbv beta iota zeta delta
    [preprocess tidy startScope mbind M_bind make mret M_ret ratios_of
     fst snd hid hval endScope scopes track kernels nextId live].
  eexists _, _. split; [reflexivity | ].
  split; [lia | split; [lia | split]].
  - rewrite elem_of_difference, elem_of_list_to_set, list_elem_of_filter.
    split; [set_solver | ]. intros [Hn _]. apply Hn. set_solver.
  - rewrite <- !app_assoc. reflexivity.
Qed.

Lemma detect_unfold execute resizeBilinear g labels source mW mH e :
  detect execute resizeBilinear g labels source mW mH e
  = match preprocess resizeBilinear source mW mH (snd (startScope e)) with
    | (Normal (input, xRatio, yRatio), e1) =>
        detect_from execute g labels input xRatio yRatio mW mH e1
    | (Throw msg, e1) => (Throw msg, e1)
    end.
Proof.
  unfold detect, mbind, M_bind. cbn [startScope fst snd].
  destruct (preprocess _ _ _ _ _) as [[[[input x] y] | msg] e1]; reflexivity.
Qed.

(** C7.  Whatever the page and whatever the model answers (also when it
    throws), the tensor [preprocess] returns is still live when [detect]
    ends, although it was not before the call, and the scope opened by
    [startScope] is still open: the live set after the call differs from
    the live set before it. *)
Theorem detect_leaks execute resizeBilinear g labels source mW mH e :
  engine_ok e ->
  let e' := snd (detect execute resizeBilinear g labels source mW mH e) in
  (nextId e + 4 ∈ live e') /\
  (nextId e + 4 ∉ live e) /\
  live e' <> live e /\
  length (scopes e') = S (length (scopes e)).
Proof.
  intros Hok e'.
  destruct (preprocess_input_live resizeBilinear source mW mH
              (snd (startScope e)))
    as (input & e1 & Hrun & Hid & Hnext & Hlive & _).
  cbn [startScope snd nextId] in Hid, Hnext.
  assert (He' : e' = snd (detect_from execute g labels input
                            (fst (ratios_of source)) (snd (ratios_of source))
                            mW mH e1)).
  { unfold e'. rewrite detect_unfold, Hrun. reflexivity. }
  destruct (framed_detect_from execute g labels input
              (fst (ratios_of source)) (snd (ratios_of source)) mW mH e1)
    as [new2 H2].
  rewrite <- He' in H2.
  destruct (framed_preprocess resizeBilinear source mW mH (snd (startScope e)))
    as [new1 H1].
  rewrite Hrun in H1. cbn [snd] in H1.
  assert (Hin : nextId e + 4 ∈ live e').
  { apply (ext_live _ _ _ H2); [lia | ]. now rewrite <- Hid. }
  assert (Hout : nextId e + 4 ∉ live e).
  { intros Hc. apply Hok in Hc. lia. }
  split; [exact Hin | split; [exact Hout | split]].
  - intros Heq. apply Hout. now rewrite <- Heq.
  - rewrite (ext_scopes _ _ _ H2), (ext_scopes _ _ _ H1).
    cbn [startScope snd scopes push_all length]. reflexivity.
Qed.

Lemma detect_leaks_witness :
  engine_ok fresh_engine /\
  live (snd (sample_detect sample_source fresh_engine)) <> live fresh_engine /\
  size (live (snd (sample_detect sample_source fresh_engine))) = 10 /\
  live (snd (detect failing_execute sample_resize sample_globals sample_labels
               sample_source 4 4 fresh_engine)) <> live fresh_engine.
Proof.
  assert (Hok : engine_ok fresh_engine) by (intros id Hid; inversion Hid).
  split; [exact Hok | split; [ | split]].
  - apply (detect_leaks sample_execute sample_resize sample_globals
             sample_labels sample_source 4 4 fresh_engine Hok).
  - vm_compute. reflexivity.
  - apply (detect_leaks failing_execute sample_resize sample_globals
             sample_labels sample_source 4 4 fresh_engine Hok).
Defined.

(** The two [tidy] blocks of [detect] return the tensors the decoder
    theorems are about. *)
Lemma boxes_tidy_value transRes e :
  exists b e',
    boxes_tidy transRes e = (Normal b, e') /\
    hval b = detect_boxes (hval transRes).
Proof.
  cbv beta iota zeta delta
    [boxes_tidy tidy startScope mbind M_bind make mret M_ret
     fst snd hid hval endScope scopes track kernels nextId live].
  eexists _, _. split; reflexivity.
Qed.

Lemma scores_tidy_value labels transRes e :
  exists r e',
    scores_tidy labels transRes e = (Normal r, e') /\
    (hval (fst r), hval (snd r))
    = detect_scores_classes (length labels) (hval transRes).
Proof.
  cbv beta iota zeta delta
    [scores_tidy tidy startScope mbind M_bind make mret M_ret numClass
     fst snd hid hval endScope scopes track kernels nextId live].
  eexists _, _. split; reflexivity.
Qed.

(** ** Running [detect] *)

Lemma bind_normal {A B} (m : M A) (f : A -> M B) e v e1 :
  m e = (Normal v, e1) -> (m ≫= f) e = f v e1.
Proof. intros Hm. unfold mbind, M_bind. now rewrite Hm. Qed.

Lemma bind_throw {A B} (m : M A) (f : A -> M B) e msg e1 :
  m e = (Throw msg, e1) -> (m ≫= f) e = (Throw msg, e1).
Proof. intros Hm. unfold mbind, M_bind. now rewrite Hm. Qed.

Lemma detect_from_run execute g labels input xRatio yRatio mW mH e res :
  execute (hval input) = Normal res ->
  let transRes := transpose021 res in
  let boxes := detect_boxes transRes in
  let scores := fst (detect_scores_classes (length labels) transRes) in
  let classes := snd (detect_scores_classes (length labels) transRes) in
  let idx := survivors (length labels) res in
  fst (detect_from execute g labels input xRatio yRatio mW mH e)
  = if nms_shapes_ok boxes scores then
      Normal (renderBoxes g labels
                (map F32.to_f64 (data (gather_rows boxes idx)))
                (map F32.to_f64 (data (gather1 scores idx)))
                (map Z.of_nat (data (gather1 classes idx)))
                [xRatio; yRatio] (F64.of_nat mW) (F64.of_nat mH))
    else Throw "boxes must be of shape [n, 4] and scores of shape [n]".
Proof.
  intros Hexec transRes boxes scores classes idx.
  unfold detect_from.
  erewrite bind_normal by (unfold tf_execute; rewrite Hexec; reflexivity).
  erewrite bind_normal by reflexivity.
  cbn [hval].
  lazymatch goal with
  | |- fst ((boxes_tidy ?t ≫= _) ?e0) = _ =>
      destruct (boxes_tidy_value t e0) as (b & e2 & Hb & Hbv)
  end.
  erewrite bind_normal by exact Hb.
  lazymatch goal with
  | |- fst ((scores_tidy _ ?t ≫= _) ?e0) = _ =>
      destruct (scores_tidy_value labels t e0) as ([s c] & e3 & Hs & Hsv)
  end.
  erewrite bind_normal by exact Hs.
  cbn [hval] in Hbv, Hsv.
  assert (Hs1 : hval s = scores) by exact (f_equal fst Hsv).
  assert (Hs2 : hval c = classes) by exact (f_equal snd Hsv).
  change (hval b = boxes) in Hbv. clear Hsv.
  unfold tf_nonMaxSuppressionAsync, dataSync, dataSync_int.
  rewrite Hbv, Hs1. fold idx.
  destruct (nms_shapes_ok boxes scores).
  - erewrite bind_normal by reflexivity.
    erewrite bind_normal by reflexivity.
    erewrite bind_normal by reflexivity.
    erewrite bind_normal by reflexivity.
    cbn [hval fst mret M_ret data].
    rewrite ?Hbv, ?Hs1, ?Hs2. reflexivity.
  - erewrite bind_throw by reflexivity. reflexivity.
Qed.

(** The value [detect] completes with when the model answers [res]. *)
Lemma detect_run execute resizeBilinear g labels source mW mH e res :
  execute (model_input resizeBilinear source mW mH) = Normal res ->
  let transRes := transpose021 res in
  let boxes := detect_boxes transRes in
  let scores := fst (detect_scores_classes (length labels) transRes) in
  let classes := snd (detect_scores_classes (length labels) transRes) in
  let idx := survivors (length labels) res in
  fst (detect execute resizeBilinear g labels source mW mH e)
  = if nms_shapes_ok boxes scores then
      Normal (renderBoxes g labels
                (map F32.to_f64 (data (gather_rows boxes idx)))
                (map F32.to_f64 (data (gather1 scores idx)))
                (map Z.of_nat (data (gather1 classes idx)))
                [fst (ratios_of source); snd (ratios_of source)]
                (F64.of_nat mW) (F64.of_nat mH))
    else Throw "boxes must be of shape [n, 4] and scores of shape [n]".
Proof.
  intros Hexec transRes boxes scores classes idx.
  rewrite detect_unfold.
  destruct (preprocess_run resizeBilinear source mW mH (snd (startScope e)))
    as (input & e1 & Hrun & Hin & _).
  rewrite Hrun. apply detect_from_run. now rewrite Hin.
Qed.

(** [detect] throws what the model throws. *)
Lemma detect_throws execute resizeBilinear g labels source mW mH e msg :
  execute (model_input resizeBilinear source mW mH) = Throw msg ->
  fst (detect execute resizeBilinear g labels source mW mH e) = Throw msg.
Proof.
  intros Hexec. rewrite detect_unfold.
  destruct (preprocess_run resizeBilinear source mW mH (snd (startScope e)))
    as (input & e1 & Hrun & Hin & _).
  rewrite Hrun. unfold detect_from.
  erewrite bind_throw; [reflexivity | ].
  unfold tf_execute. fold (model_input resizeBilinear source mW mH) in Hin.
  rewrite Hin, Hexec. reflexivity.
Qed.

(** Counterexample to C8 as stated: for a page without columns the call
    completes normally, after padding, resizing and running the model. *)
Lemma invalid_geometry_counterexample :
  dim empty_source 1 = 0 /\
  (exists out, fst (sample_detect empty_source fresh_engine) = Normal out) /\
  firstn 6 (kernels (snd (sample_detect empty_source fresh_engine)))
  = [KFromPixels; KPad; KResizeBilinear; KDiv; KExpandDims; KExecute].
Proof.
  split; [reflexivity | split].
  - eexists. vm_compute. reflexivity.
  - vm_compute. reflexivity.
Qed.

(** Once the model has answered, [detect] only runs kernels and balanced
    [tidy] blocks. *)
Lemma detect_after_execute execute resizeBilinear g labels source mW mH e res :
  execute (model_input resizeBilinear source mW mH) = Normal res ->
  exists ks,
    kernels (snd (detect execute resizeBilinear g labels source mW mH e))
    = kernels e
      ++ [KFromPixels; KPad; KResizeBilinear; KDiv; KExpandDims]
      ++ KExecute :: ks.
Proof.
  intros Hexec. rewrite detect_unfold.
  destruct (preprocess_run resizeBilinear source mW mH (snd (startScope e)))
    as (input & e1 & Hrun & Hin & Hk).
  cbn [startScope snd kernels] in Hk.
  rewrite Hrun. unfold detect_from.
  erewrite bind_normal
    by (unfold tf_execute; rewrite Hin;
        fold (model_input resizeBilinear source mW mH); rewrite Hexec;
        reflexivity).
  lazymatch goal with
  | |- exists ks, kernels (snd (?m ?e2)) = _ =>
      assert (Hf : framed m) by framed_pipeline;
      destruct (Hf e2) as [new [_ _ _ _ [ks Hks]]]
  end.
  exists ks. rewrite Hks. cbn [kernels]. rewrite Hk.
  now rewrite <- !app_assoc.
Qed.

(** C8, amended.  The code has no check of the image geometry.  For every
    page, also one whose width or height is zero, [preprocess] completes
    normally: it returns the padded, resized and normalised image and the
    ratios [maxSize / w] and [maxSize / h], and [detect] starts with the
    kernels of [preprocess].  The model is then run on that image: an error
    of the model at this input is the error [detect] throws, with nothing
    run after [preprocess]; an answer of the model at this input is followed
    by the kernel of the model in the log, and [detect] ends as it does for
    a model that gives this answer to every input.  With a zero width and a
    positive height [xRatio] is infinite; with both zero the two ratios
    are not numbers.  (A tensor shape has no negative extent.) *)
Theorem geometry_unchecked execute resizeBilinear g labels source mW mH e :
  let image := model_input resizeBilinear source mW mH in
  let r := detect execute resizeBilinear g labels source mW mH e in
  let pre := [KFromPixels; KPad; KResizeBilinear; KDiv; KExpandDims] in
  (exists input e1,
     preprocess resizeBilinear source mW mH e
     = (Normal (input, fst (ratios_of source), snd (ratios_of source)), e1) /\
     hval input = image) /\
  (exists ks, kernels (snd r) = kernels e ++ pre ++ ks) /\
  (forall msg, execute image = Throw msg ->
     fst r = Throw msg /\ kernels (snd r) = kernels e ++ pre) /\
  (forall res, execute image = Normal res ->
     (exists ks, kernels (snd r) = kernels e ++ pre ++ KExecute :: ks) /\
     fst r = fst (detect (fun _ => Normal res) resizeBilinear g labels
                    source mW mH e)) /\
  (dim source 1 = 0 -> (0 < Z.of_nat (dim source 0) < 2 ^ 53)%Z ->
     fst (ratios_of source) = F64.infinity) /\
  (dim source 1 = 0 -> dim source 0 = 0 ->
     ratios_of source = (F64.nan, F64.nan)).
Proof.
  intros image r pre. subst r pre.
  split; [ | split; [ | split; [ | split; [ | split]]]].
  - destruct (preprocess_run resizeBilinear source mW mH e)
      as (input & e1 & Hrun & Hin & _). eauto.
  - destruct (preprocess_input_live resizeBilinear source mW mH
                (snd (startScope e)))
      as (input & e1 & Hrun & _ & _ & _ & Hk).
    cbn [startScope snd kernels] in Hk.
    rewrite detect_unfold, Hrun.
    destruct (framed_detect_from execute g labels input
                (fst (ratios_of source)) (snd (ratios_of source)) mW mH e1)
      as [new [_ _ _ _ [ks Hks]]].
    exists ks. rewrite Hks, Hk. now rewrite <- app_assoc.
  - intros msg Hexec.
    split; [now apply detect_throws | ].
    rewrite detect_unfold.
    destruct (preprocess_run resizeBilinear source mW mH (snd (startScope e)))
      as (input & e1 & Hrun & Hin & Hk).
    cbn [startScope snd kernels] in Hk.
    change (hval input = image) in Hin.
    rewrite Hrun. unfold detect_from.
    erewrite bind_throw
      by (unfold tf_execute; rewrite Hin, Hexec; reflexivity).
    exact Hk.
  - intros res Hexec. split.
    + now apply (detect_after_execute execute resizeBilinear g labels source
                   mW mH e res).
    + pose proof (detect_run execute resizeBilinear g labels source mW mH e
                    res Hexec) as H1.
      pose proof (detect_run (fun _ => Normal res) resizeBilinear g labels
                    source mW mH e res eq_refl) as H2.
      cbn zeta in H1, H2. now rewrite H1, H2.
  - intros Hw Hh. unfold ratios_of. cbn [fst]. rewrite Hw.
    rewrite Nat.max_0_l. unfold F64.of_nat.
    destruct (F64Facts.of_Z_finite _ Hh) as (m & ex & -> & _). reflexivity.
  - intros Hw Hh. unfold ratios_of. rewrite Hw, Hh. reflexivity.
Qed.

(** A page without columns: the first ratio is infinite, and the error of
    a model that rejects the image made from it is the error of [detect]. *)
Lemma geometry_unchecked_witness :
  dim empty_source 1 = 0 /\
  (0 < Z.of_nat (dim empty_source 0) < 2 ^ 53)%Z /\
  fst (ratios_of empty_source) = F64.infinity /\
  fst (detect failing_execute sample_resize sample_globals sample_labels
         empty_source 4 4 fresh_engine)
  = Throw "the model rejects its input".
Proof.
  split; [reflexivity | split; [cbn; lia | ]].
  destruct (geometry_unchecked failing_execute sample_resize sample_globals
              sample_labels empty_source 4 4 fresh_engine)
    as (_ & _ & Hthrow & _ & Hinf & _).
  split.
  - apply Hinf; [reflexivity | cbn; lia].
  - apply (Hthrow "the model rejects its input"). reflexivity.
Defined.

(** * Part III: further properties of the pipeline *)

(** ** Shapes of the decoded tensors *)

Lemma shape_detect_boxes (res : tensor F32.num) (C N : nat) :
  shape res = [1; 4 + C; N] ->
  shape (detect_boxes (transpose021 res))
  = if decide (N = 1) then [4] else [N; 4].
Proof.
  intros Hs. rewrite (detect_boxes_unfold res).
  unfold squeeze, concat2. cbn [shape fold_right].
  unfold y2_t, x2_t, y1_t, x1_t, tf_add, tf_sub, dim.
  rewrite !shape_binop, !(shape_column res C N Hs). cbn [nth Nat.add].
  rewrite !filter_cons. rewrite filter_nil.
  repeat case_decide; try lia; try congruence; reflexivity.
Qed.

Lemma shape_detect_scores (res : tensor F32.num) (C N : nat) :
  shape res = [1; 4 + C; N] ->
  shape (fst (detect_scores_classes C (transpose021 res))) = [N] /\
  shape (snd (detect_scores_classes C (transpose021 res))) = [N].
Proof.
  intros Hs. unfold detect_scores_classes. cbn [fst snd].
  fold (rawScores res C). unfold tf_max1, tf_argMax1, reduce_rows, dim.
  now rewrite (shape_rawScores res C N Hs).
Qed.

(** X1.  [boxes] is squeezed on every axis, [rawScores] on axis 0 only: the
    scores and classes always have shape [N], also for a single class,
    while the boxes have shape [N, 4] only when [N] is not one; a single
    detection gives the rank-1 shape [4]. *)
Theorem decoded_shapes (res : tensor F32.num) (C N : nat) :
  shape res = [1; 4 + C; N] ->
  let transRes := transpose021 res in
  shape (detect_boxes transRes) = (if decide (N = 1) then [4] else [N; 4]) /\
  shape (fst (detect_scores_classes C transRes)) = [N] /\
  shape (snd (detect_scores_classes C transRes)) = [N].
Proof.
  intros Hs transRes. split.
  - now apply (shape_detect_boxes res C N).
  - now apply (shape_detect_scores res C N).
Qed.

Lemma decoded_shapes_witness :
  shape sample_res = [1; 4 + 2; 2] /\
  shape (detect_boxes (transpose021 sample_res)) = [2; 4].
Proof.
  split; [reflexivity | ].
  destruct (decoded_shapes sample_res 2 2 eq_refl) as (H & _). exact H.
Defined.

(** ** Running [detect] *)

Lemma filter_drop_kept (k : nat) (l : list nat) :
  k ∉ l -> filter (fun id => id ∉ [k]) (k :: l) = l.
Proof.
  intros Hk. rewrite filter_cons_False by (intros Hn; apply Hn; constructor).
  induction l as [|x l IH]; [reflexivity | ].
  apply not_elem_of_cons in Hk as [Hne Hk].
  rewrite filter_cons_True
    by (intros Hx; apply list_elem_of_singleton in Hx; congruence).
  f_equal. now apply IH.
Qed.

Lemma filter_take_kept (k : nat) (l : list nat) :
  k ∉ l -> filter (fun id => id ∈ [k]) (k :: l) = [k].
Proof.
  intros Hk. rewrite filter_cons_True by constructor. f_equal.
  induction l as [|x l IH]; [reflexivity | ].
  apply not_elem_of_cons in Hk as [Hne Hk].
  rewrite filter_cons_False
    by (intros Hx; apply list_elem_of_singleton in Hx; congruence).
  now apply IH.
Qed.

Lemma preprocess_effect resizeBilinear source mW mH e :
  engine_ok e ->
  exists input e1,
    preprocess resizeBilinear source mW mH e
    = (Normal (input, fst (ratios_of source), snd (ratios_of source)), e1) /\
    hid input = nextId e + 4 /\
    hval input = model_input resizeBilinear source mW mH /\
    live e1 = live e ∪ {[ hid input ]} /\
    scopes e1 = push_all [hid input] (scopes e) /\
    nextId e1 = nextId e + 5 /\
    kernels e1
    = kernels e ++ [KFromPixels; KPad; KResizeBilinear; KDiv; KExpandDims].
Proof.
  destruct e as [n lv sc ks]. intros Hok.
  assert (Hfresh : forall x, x ∈ lv -> x < n) by apply Hok.
  cbv beta iota zeta delta
    [preprocess tidy startScope mbind M_bind make mret M_ret ratios_of
     fst snd hid hval endScope scopes track kernels nextId live].
  eexists _, _. split; [reflexivity | ].
  split; [cbn; lia | split; [reflexivity | ]].
  split; [ | split; [ | split; [cbn; lia | ]]].
  - rewrite filter_drop_kept
      by (rewrite !not_elem_of_cons; repeat split; try lia;
          apply not_elem_of_nil).
    apply set_eq. intros x. specialize (Hfresh x).
    rewrite elem_of_difference, elem_of_list_to_set, !elem_of_union,
      !elem_of_singleton, !elem_of_cons, elem_of_nil.
    split.
    + intros [Hin Hnot].
      destruct Hin as [-> | [-> | [-> | [-> | [-> | Hin]]]]];
        auto; exfalso; apply Hnot; auto 10.
    + intros [Hin | ->]; (split; [auto 10 | ]); intros Hc;
        try specialize (Hfresh Hin); lia.
  - rewrite filter_take_kept
      by (rewrite !not_elem_of_cons; repeat split; try lia;
          apply not_elem_of_nil).
    now destruct sc.
  - rewrite <- !app_assoc. reflexivity.
Qed.

(** X2.  [preprocess] is balanced: the pixel, padded, resized and
    normalised tensors are disposed when its [tidy] block ends; the one
    tensor it returns is the only tensor added to the live set, and it is
    handed to the scope of the caller. *)
Theorem preprocess_balanced resizeBilinear source mW mH e :
  engine_ok e ->
  exists input xRatio yRatio e1,
    preprocess resizeBilinear source mW mH e
    = (Normal (input, xRatio, yRatio), e1) /\
    hid input = nextId e + 4 /\
    hval input = model_input resizeBilinear source mW mH /\
    live e1 = live e ∪ {[ hid input ]} /\
    scopes e1 = push_all [hid input] (scopes e) /\
    nextId e1 = nextId e + 5.
Proof.
  intros Hok.
  destruct (preprocess_effect resizeBilinear source mW mH e Hok)
    as (input & e1 & H1 & H2 & H3 & H4 & H5 & H6 & _).
  exists input, (fst (ratios_of source)), (snd (ratios_of source)), e1. auto 10.
Qed.

Lemma preprocess_balanced_witness :
  engine_ok fresh_engine /\
  exists input xRatio yRatio e1,
    preprocess sample_resize sample_source 4 4 fresh_engine
    = (Normal (input, xRatio, yRatio), e1) /\
    live e1 = {[ 4 ]}.
Proof.
  assert (Hok : engine_ok fresh_engine) by (intros id Hid; inversion Hid).
  split; [exact Hok | ].
  destruct (preprocess_balanced sample_resize sample_source 4 4 fresh_engine Hok)
    as (input & x & y & e1 & Hrun & Hid & _ & Hlive & _).
  exists input, x, y, e1. split; [exact Hrun | ].
  rewrite Hlive, Hid. cbn. apply (left_id_L ∅ (∪)).
Defined.

(** *** What the suppression returns *)

Lemma length_insert_desc scores c l :
  length (insert_desc scores c l) = S (length l).
Proof.
  induction l as [|d r IH]; cbn [insert_desc]; [reflexivity | ].
  destruct (F64.ltb _ _); cbn [length]; [now rewrite IH | reflexivity].
Qed.

Lemma length_sort_desc scores l : length (sort_desc scores l) = length l.
Proof.
  induction l as [|c l IH]; cbn [sort_desc fold_right length]; [reflexivity | ].
  fold (sort_desc scores l). now rewrite length_insert_desc, IH.
Qed.

Lemma length_select boxes maxOut thr cands : forall selected,
  length (select boxes maxOut thr cands selected)
  <= length selected + length cands.
Proof.
  induction cands as [|c rest IH]; intros selected; cbn [select length];
    [lia | ].
  destruct (maxOut <=? length selected); [lia | ].
  destruct (existsb _ selected).
  - specialize (IH selected). lia.
  - specialize (IH (selected ++ [c])). rewrite length_app in IH. cbn in IH. lia.
Qed.

Lemma suppress_bounds boxes scores :
  length (suppress boxes scores) <= 500 /\
  length (suppress boxes scores) <= length scores /\
  Forall (fun i => i < length scores) (suppress boxes scores).
Proof.
  unfold suppress, nonMaxSuppression.
  set (cands := filter _ (seq 0 (length scores))).
  split; [ | split].
  - apply pick_length. cbn. lia.
  - etransitivity; [apply length_select | ]. cbn [length Nat.add].
    rewrite length_sort_desc. unfold cands.
    etransitivity; [apply length_filter | ]. now rewrite length_seq.
  - apply pick_Forall; [constructor | ]. apply Forall_sorted.
    eapply Forall_impl; [apply candidates_spec | ]. now intros i [Hi _].
Qed.

(** *** Gathering the survivors *)

Lemma js_slice_flat_map {A} (f : nat -> list A) len (l : list nat) :
  forall k i,
  Forall (fun j => length (f j) = len) l ->
  l !! k = Some i ->
  js_slice (flat_map f l) (k * len) ((k + 1) * len) = f i.
Proof.
  unfold js_slice.
  induction l as [|x l IH]; intros k i Hlen Hk; [discriminate | ].
  inversion Hlen as [|? ? Hx Hl]; subst. cbn [flat_map].
  replace ((k + 1) * length (f x) - k * length (f x)) with (length (f x)) by lia.
  destruct k as [|k].
  - injection Hk as ->. cbn [Nat.mul skipn]. apply take_app_length.
  - cbn in Hk. replace (S k * length (f x)) with (length (f x) + k * length (f x)) by lia.
    rewrite <- drop_drop, drop_app_length.
    specialize (IH k i Hl Hk).
    replace ((k + 1) * length (f x) - k * length (f x)) with (length (f x))
      in IH by lia.
    exact IH.
Qed.

Lemma js_slice_map {A B} (g : A -> B) (l : list A) a b :
  js_slice (map g l) a b = map g (js_slice l a b).
Proof. unfold js_slice. now rewrite skipn_map, firstn_map. Qed.

Lemma length_js_slice4 {A} (l : list A) i :
  (i + 1) * 4 <= length l -> length (js_slice l (i * 4) ((i + 1) * 4)) = 4.
Proof.
  intros Hl. unfold js_slice. rewrite length_firstn, length_skipn. lia.
Qed.

(** X3.  When the model answers a tensor of shape [1, 4 + C, N] for the
    [C] labels and [N] is not one, [detect] completes normally with one
    block per survivor of the suppression, at most 500 and at most [N], in
    the order of the suppression; the block at position [k] is built from
    the decoded box and the class of detection [idx[k]]: its polygon is
    that box scaled by the two factors and its typology the mapping of the
    label of that class. *)
Theorem detect_end_to_end execute resizeBilinear g labels source mW mH e res N :
  execute (model_input resizeBilinear source mW mH) = Normal res ->
  shape res = [1; 4 + length labels; N] ->
  N <> 1 ->
  let transRes := transpose021 res in
  let boxes := detect_boxes transRes in
  let classes := snd (detect_scores_classes (length labels) transRes) in
  let idx := survivors (length labels) res in
  let ratios := [fst (ratios_of source); snd (ratios_of source)] in
  let sx := scaleX g ratios (F64.of_nat mW) in
  let sy := scaleY g ratios (F64.of_nat mH) in
  exists out,
    fst (detect execute resizeBilinear g labels source mW mH e) = Normal out /\
    length out = length idx /\ length out <= 500 /\ length out <= N /\
    forall k i, idx !! k = Some i ->
      i < N /\
      exists y1 x1 y2 x2,
        js_slice (data boxes) (i * 4) ((i + 1) * 4) = [y1; x1; y2; x2] /\
        out !! k
        = Some {| box := polygon (F64.mul (F32.to_f64 x1) sx)
                                 (F64.mul (F32.to_f64 y1) sy)
                                 (F64.mul (F32.to_f64 x2) sx)
                                 (F64.mul (F32.to_f64 y2) sy);
                  typology := type_of (typeMappings g)
                                (label_of labels
                                   (Some (Z.of_nat (nth i (data classes) 0)))) |}.
Proof.
  intros Hexec Hs HN transRes boxes classes idx ratios sx sy.
  pose proof (detect_run execute resizeBilinear g labels source mW mH e res Hexec)
    as Hrun. cbn zeta in Hrun.
  fold transRes boxes classes idx in Hrun.
  set (scores := fst (detect_scores_classes (length labels) transRes)) in *.
  assert (Hsb : shape boxes = [N; 4]).
  { unfold boxes, transRes. rewrite (shape_detect_boxes res _ N Hs).
    now case_decide. }
  destruct (shape_detect_scores res _ N Hs) as [Hss Hsc].
  fold transRes in Hss, Hsc. fold scores in Hss. fold classes in Hsc.
  assert (Hok : nms_shapes_ok boxes scores = true).
  { unfold nms_shapes_ok. rewrite Hsb, Hss. apply Nat.eqb_refl. }
  rewrite Hok in Hrun.
  destruct (length_scores_classes res (length labels) N Hs) as [Lsc Lcl].
  fold transRes in Lsc, Lcl. fold scores in Lsc. fold classes in Lcl.
  assert (Lbx : length (data boxes) = N * 4)
    by (unfold boxes, transRes; apply (length_detect_boxes res _ N Hs)).
  destruct (suppress_bounds (map F32.to_f64 (data boxes))
              (map F32.to_f64 (data scores))) as (B500 & BN & Bidx).
  fold (survivors (length labels) res) in B500, BN, Bidx. fold idx in B500, BN, Bidx.
  rewrite length_map, Lsc in BN, Bidx.
  eexists. split; [exact Hrun | ].
  rewrite renderBoxes_length, length_map. cbn [gather1 data].
  rewrite length_map.
  split; [reflexivity | split; [exact B500 | split; [exact BN | ]]].
  intros k i Hk.
  assert (Hi : i < N).
  { rewrite Forall_forall in Bidx. apply Bidx.
    eapply list_elem_of_lookup_2; eauto. }
  split; [exact Hi | ].
  pose proof (js_slice4 (data boxes) i F32.nan ltac:(lia)) as Hbox.
  eexists _, _, _, _. split; [exact Hbox | ].
  assert (Hk' : k < length idx) by (eapply lookup_lt_Some; eauto).
  rewrite renderBoxes_lookup by (now rewrite !length_map).
  f_equal. unfold render_one. cbn [gather_rows data].
  rewrite js_slice_map.
  rewrite (js_slice_flat_map (row boxes) 4 idx k i); [ | | exact Hk].
  2:{ eapply Forall_impl; [exact Bidx | ]. intros j Hj. cbn beta.
      unfold row, dim. rewrite Hsb. cbn [nth].
      cbn beta in Hj. rewrite length_firstn, length_skipn, Lbx. lia. }
  replace (row boxes i) with (js_slice (data boxes) (i * 4) ((i + 1) * 4)).
  2:{ unfold row, js_slice, dim. rewrite Hsb. cbn [nth]. f_equal. lia. }
  rewrite Hbox. cbn [map num_at nth].
  rewrite !list_lookup_fmap, Hk. cbn [fmap option_fmap option_map].
  reflexivity.
Qed.

Lemma detect_end_to_end_witness :
  sample_execute (model_input sample_resize sample_source 4 4)
  = Normal sample_res /\
  shape sample_res = [1; 4 + length sample_labels; 2] /\
  exists out,
    fst (sample_detect sample_source fresh_engine) = Normal out /\
    length out <= 2.
Proof.
  split; [reflexivity | split; [reflexivity | ]].
  destruct (detect_end_to_end sample_execute sample_resize sample_globals
              sample_labels sample_source 4 4 fresh_engine sample_res 2
              eq_refl eq_refl ltac:(lia))
    as (out & Hrun & _ & _ & HN & _).
  exists out. split; assumption.
Defined.

(** X4.  A model that answers a single detection makes [detect] throw:
    [squeeze()] without an axis also drops the detection axis, the boxes
    tensor has rank 1, and the suppression rejects it; no block is
    rendered. *)
Theorem detect_single_detection execute resizeBilinear g labels source mW mH e res :
  execute (model_input resizeBilinear source mW mH) = Normal res ->
  shape res = [1; 4 + length labels; 1] ->
  shape (detect_boxes (transpose021 res)) = [4] /\
  exists msg,
    fst (detect execute resizeBilinear g labels source mW mH e) = Throw msg.
Proof.
  intros Hexec Hs.
  assert (Hsb : shape (detect_boxes (transpose021 res)) = [4]).
  { rewrite (shape_detect_boxes res _ 1 Hs). now case_decide. }
  split; [exact Hsb | ].
  pose proof (detect_run execute resizeBilinear g labels source mW mH e res Hexec)
    as Hrun. cbn zeta in Hrun.
  unfold nms_shapes_ok in Hrun. rewrite Hsb in Hrun. eauto.
Qed.

Lemma detect_single_detection_witness :
  shape single_res = [1; 4 + length sample_labels; 1] /\
  exists msg,
    fst (detect (fun _ => Normal single_res) sample_resize sample_globals
           sample_labels sample_source 4 4 fresh_engine) = Throw msg.
Proof.
  split; [reflexivity | ].
  destruct (detect_single_detection (fun _ => Normal single_res) sample_resize
              sample_globals sample_labels sample_source 4 4 fresh_engine
              single_res eq_refl eq_refl) as (_ & Hthrow).
  exact Hthrow.
Defined.

(** X5.  When the model throws, [detect] throws the same error: only the
    five kernels of [preprocess] have run, nothing is rendered, and the
    tensor handed to the model stays live. *)
Theorem detect_model_failure execute resizeBilinear g labels source mW mH e msg :
  engine_ok e ->
  execute (model_input resizeBilinear source mW mH) = Throw msg ->
  let r := detect execute resizeBilinear g labels source mW mH e in
  fst r = Throw msg /\
  kernels (snd r)
  = kernels e ++ [KFromPixels; KPad; KResizeBilinear; KDiv; KExpandDims] /\
  live (snd r) = live e ∪ {[ nextId e + 4 ]}.
Proof.
  intros Hok Hexec r. unfold r. rewrite detect_unfold.
  assert (Hok0 : engine_ok (snd (startScope e))) by exact Hok.
  destruct (preprocess_effect resizeBilinear source mW mH (snd (startScope e)) Hok0)
    as (input & e1 & Hrun & Hid & Hin & Hlive & _ & _ & Hk).
  cbn [startScope snd nextId live kernels] in Hid, Hlive, Hk.
  rewrite Hrun. unfold detect_from.
  erewrite bind_throw
    by (unfold tf_execute; rewrite Hin, Hexec; reflexivity).
  cbn [fst snd]. rewrite Hlive, Hid, Hk. auto.
Qed.

Lemma detect_model_failure_witness :
  engine_ok fresh_engine /\
  fst (detect failing_execute sample_resize sample_globals sample_labels
         sample_source 4 4 fresh_engine)
  = Throw "the model rejects its input".
Proof.
  assert (Hok : engine_ok fresh_engine) by (intros id Hid; inversion Hid).
  split; [exact Hok | ].
  apply (detect_model_failure failing_execute sample_resize sample_globals
           sample_labels sample_source 4 4 fresh_engine _ Hok eq_refl).
Defined.

(** X6.  [detect] never disposes a tensor of its caller: every tensor that
    was live before the call is live after it, whether the call returns or
    throws, and the kernel log is only extended. *)
Theorem detect_keeps_callers_tensors execute resizeBilinear g labels source
    mW mH e :
  engine_ok e ->
  let e' := snd (detect execute resizeBilinear g labels source mW mH e) in
  (forall id, id ∈ live e -> id ∈ live e') /\
  nextId e <= nextId e' /\
  exists ks, kernels e' = kernels e ++ ks.
Proof.
  intros Hok e'.
  destruct (preprocess_run resizeBilinear source mW mH (snd (startScope e)))
    as (input & e1 & Hrun & _).
  destruct (framed_preprocess resizeBilinear source mW mH (snd (startScope e)))
    as [n1 H1].
  rewrite Hrun in H1. cbn [snd] in H1.
  destruct (framed_detect_from execute g labels input
              (fst (ratios_of source)) (snd (ratios_of source)) mW mH e1)
    as [n2 H2].
  assert (He' : e' = snd (detect_from execute g labels input
                            (fst (ratios_of source)) (snd (ratios_of source))
                            mW mH e1))
    by (unfold e'; rewrite detect_unfold, Hrun; reflexivity).
  rewrite <- He' in H2.
  pose proof (extends_trans _ _ _ _ _ H1 H2) as [L V _ _ [ks K]].
  cbn [startScope snd nextId live kernels] in L, V, K.
  split; [ | split; [exact L | now exists ks]].
  intros id Hid. apply V; [now apply Hok | exact Hid].
Qed.

Lemma detect_keeps_callers_tensors_witness :
  engine_ok {| nextId := 3; live := {[ 1 ]}; scopes := []; kernels := [] |} /\
  1 ∈ live (snd (sample_detect sample_source
                   {| nextId := 3; live := {[ 1 ]}; scopes := [];
                      kernels := [] |})).
Proof.
  assert (Hok : engine_ok {| nextId := 3; live := {[ 1 ]}; scopes := [];
                             kernels := [] |}).
  { intros id Hid. cbn in Hid. apply elem_of_singleton in Hid. cbn. lia. }
  split; [exact Hok | ].
  destruct (detect_keeps_callers_tensors sample_execute sample_resize
              sample_globals sample_labels sample_source 4 4 _ Hok)
    as (Hkeep & _).
  apply Hkeep. cbn. now apply elem_of_singleton.
Defined.

(** ** Edge cases of [renderBoxes] *)

Lemma mul_nan_l y : F64.mul F64.nan y = F64.nan.
Proof. now destruct y. Qed.

(** X7.  [renderBoxes] takes its length from [scores_data] alone.  For an
    index past the end of [boxes_data] the block is still emitted, with a
    polygon of four [NaN] corners; for a class id that is missing, negative
    or not below the number of labels the typology is what the mapping
    holds under the key ["undefined"]. *)
Theorem renderBoxes_short_arrays g labels bd sd cd ratios mW mH i :
  i < length sd ->
  exists a,
    renderBoxes g labels bd sd cd ratios mW mH !! i = Some a /\
    (length bd <= i * 4 ->
       box a = polygon F64.nan F64.nan F64.nan F64.nan) /\
    (cd !! i = None \/
     (exists c, cd !! i = Some c /\ (c < 0 \/ Z.of_nat (length labels) <= c)%Z) ->
       typology a = typeMappings g !! "undefined").
Proof.
  intros Hi. exists (render_one g labels bd cd ratios mW mH i).
  split; [now apply renderBoxes_lookup | split].
  - intros Hshort. unfold render_one. cbn [box].
    unfold js_slice. rewrite skipn_all2 by exact Hshort.
    rewrite firstn_nil. unfold num_at. cbn [nth].
    now rewrite !mul_nan_l.
  - intros Hcls. unfold render_one. cbn [typology].
    destruct Hcls as [-> | (c & -> & Hc)]; [reflexivity | ].
    unfold label_of. destruct (Z.ltb_spec c 0) as [Hneg | Hpos]; [reflexivity | ].
    rewrite lookup_ge_None_2 by lia. reflexivity.
Qed.

Lemma renderBoxes_short_arrays_witness :
  1 < length [F64.lit 9 10; F64.lit 8 10] /\
  exists a,
    renderBoxes sample_globals sample_labels
      [F64.of_Z 80; F64.of_Z 80; F64.of_Z 120; F64.of_Z 120]
      [F64.lit 9 10; F64.lit 8 10] [0%Z] [F64.one; F64.one]
      (F64.of_Z 200) (F64.of_Z 200) !! 1 = Some a /\
    box a = polygon F64.nan F64.nan F64.nan F64.nan /\
    typology a = None.
Proof.
  split; [cbn; lia | ].
  destruct (renderBoxes_short_arrays sample_globals sample_labels
              [F64.of_Z 80; F64.of_Z 80; F64.of_Z 120; F64.of_Z 120]
              [F64.lit 9 10; F64.lit 8 10] [0%Z] [F64.one; F64.one]
              (F64.of_Z 200) (F64.of_Z 200) 1 ltac:(cbn; lia))
    as (a & Ha & Hbox & Htyp).
  exists a. split; [exact Ha | split].
  - apply Hbox. cbn. lia.
  - rewrite Htyp; [reflexivity | now left].
Defined.

(** ** Creating the block types *)

(** A label no request of which succeeds keeps its old mapping. *)
Lemma createTypes_from_untouched answers labels : forall i tm l,
  (forall k pk, labels !! k = Some l -> answers (i + k) <> Ok pk) ->
  createTypes_from answers i labels tm !! l = tm !! l.
Proof.
  induction labels as [ | x rest IH]; intros i tm l Hno; [reflexivity | ].
  cbn [createTypes_from]. rewrite IH.
  - destruct (answers i) as [pk | st | msg] eqn:Ha; try reflexivity.
    apply lookup_insert_ne. intros ->.
    apply (Hno 0 pk); [reflexivity | now rewrite Nat.add_0_r].
  - intros k pk Hk. replace (S i + k) with (i + S k) by lia.
    now apply Hno.
Qed.

(** The last successful request for a label decides its mapping. *)
Lemma createTypes_from_last answers labels : forall i tm k l pk,
  labels !! k = Some l ->
  answers (i + k) = Ok pk ->
  (forall j pk', k < j -> labels !! j = Some l -> answers (i + j) <> Ok pk') ->
  createTypes_from answers i labels tm !! l = Some pk.
Proof.
  induction labels as [ | x rest IH]; intros i tm k l pk Hk Ha Hlast;
    [discriminate | ].
  cbn [createTypes_from]. destruct k as [ | k].
  - injection Hk as ->. rewrite Nat.add_0_r in Ha. rewrite Ha.
    rewrite createTypes_from_untouched; [apply lookup_insert_eq | ].
    intros j pk' Hj. replace (S i + j) with (i + S j) by lia.
    apply Hlast; [lia | exact Hj].
  - apply (IH (S i) _ k); [exact Hk | | ].
    + now replace (S i + k) with (i + S k) by lia.
    + intros j pk' Hlt Hj. replace (S i + j) with (i + S j) by lia.
      apply Hlast; [lia | exact Hj].
Qed.

(** X8.  After [createTypes], a label is mapped to the key returned by the
    last request for it that succeeded; a label for which no request
    succeeded (or which is not in the list) keeps the mapping it had before
    the call, so that a failed creation leaves a stale key in place. *)
Theorem createTypes_mapping answers labels g l :
  (forall k pk,
     labels !! k = Some l -> answers k = Ok pk ->
     (forall j pk', k < j -> labels !! j = Some l -> answers j <> Ok pk') ->
     typeMappings (createTypes answers labels g) !! l = Some pk) /\
  ((forall k pk, labels !! k = Some l -> answers k <> Ok pk) ->
     typeMappings (createTypes answers labels g) !! l = typeMappings g !! l).
Proof.
  split.
  - intros k pk Hk Ha Hlast. cbn [createTypes typeMappings].
    now apply (createTypes_from_last answers labels 0 _ k).
  - intros Hno. cbn [createTypes typeMappings].
    now apply createTypes_from_untouched.
Qed.

Lemma createTypes_mapping_witness :
  typeMappings (createTypes refuse_second sample_labels sample_globals) !! "a"
    = Some 100%Z /\
  typeMappings (createTypes refuse_second sample_labels sample_globals) !! "b"
    = None.
Proof.
  split.
  - apply (proj1 (createTypes_mapping refuse_second sample_labels
                    sample_globals "a") 0 100%Z); [reflexivity | reflexivity | ].
    intros [ | [ | j]] pk' Hlt Hj; [lia | discriminate | discriminate].
  - rewrite (proj2 (createTypes_mapping refuse_second sample_labels
                      sample_globals "b")); [reflexivity | ].
    intros [ | [ | k]] pk Hk; discriminate.
Defined.

(** X9.  [createTypes] followed by [renderBoxes], as the popup runs them,
    with labels that are pairwise different: the typology of a detection of
    class [c] is the key the server returned for the [c]-th label; if that
    request failed, it is the mapping the label had before, whatever the
    other requests did. *)
Theorem typology_after_createTypes answers labels g bd sd cd ratios mW mH
    i c label :
  NoDup labels ->
  i < length sd ->
  cd !! i = Some (Z.of_nat c) ->
  labels !! c = Some label ->
  exists a,
    renderBoxes (createTypes answers labels g) labels bd sd cd ratios mW mH !! i
      = Some a /\
    typology a = match answers c with
                 | Ok pk => Some pk
                 | NotOk _ | Rejected _ => typeMappings g !! label
                 end.
Proof.
  intros Hnd Hi Hc Hl.
  exists (render_one (createTypes answers labels g) labels bd cd ratios mW mH i).
  split; [now apply renderBoxes_lookup | ].
  unfold render_one. cbn [typology]. rewrite Hc. unfold label_of.
  destruct (Z.ltb_spec (Z.of_nat c) 0) as [Hneg | _]; [lia | ].
  rewrite Nat2Z.id, Hl. cbn [type_of].
  assert (Huniq : forall j, labels !! j = Some label -> j = c).
  { intros j Hj. eapply NoDup_lookup; eauto. }
  cbn [createTypes typeMappings].
  destruct (answers c) as [pk | st | msg] eqn:Ha.
  - apply (createTypes_from_last answers labels 0 _ c); [exact Hl | exact Ha | ].
    intros j pk' Hlt Hj. apply Huniq in Hj. lia.
  - apply createTypes_from_untouched. intros k pk Hk.
    apply Huniq in Hk. subst k. cbn. rewrite Ha. discriminate.
  - apply createTypes_from_untouched. intros k pk Hk.
    apply Huniq in Hk. subst k. cbn. rewrite Ha. discriminate.
Qed.

Lemma sample_labels_NoDup : NoDup sample_labels.
Proof. apply (bool_decide_unpack _). vm_compute. exact I. Qed.

Lemma typology_after_createTypes_witness :
  exists a b,
    renderBoxes (createTypes refuse_second sample_labels sample_globals)
      sample_labels sample_boxes_data [F64.lit 9 10; F64.lit 8 10] [0%Z; 1%Z]
      [F64.one; F64.one] (F64.of_Z 200) (F64.of_Z 200) = [a; b] /\
    typology a = Some 100%Z /\ typology b = None.
Proof.
  destruct (typology_after_createTypes refuse_second sample_labels
              sample_globals sample_boxes_data [F64.lit 9 10; F64.lit 8 10]
              [0%Z; 1%Z] [F64.one; F64.one] (F64.of_Z 200) (F64.of_Z 200)
              0 0 "a" sample_labels_NoDup
              ltac:(cbn; lia) eq_refl eq_refl) as (a & Ha & Hta).
  destruct (typology_after_createTypes refuse_second sample_labels
              sample_globals sample_boxes_data [F64.lit 9 10; F64.lit 8 10]
              [0%Z; 1%Z] [F64.one; F64.one] (F64.of_Z 200) (F64.of_Z 200)
              1 1 "b" sample_labels_NoDup
              ltac:(cbn; lia) eq_refl eq_refl) as (b & Hb & Htb).
  exists a, b. split; [ | split; [exact Hta | exact Htb]].
  vm_compute in Ha, Hb.
  injection Ha as <-. injection Hb as <-. vm_compute. reflexivity.
Defined.

(** ** Posting the blocks *)

Lemma createBlocks_from_accepted answers pageId blocks : forall i sent,
  (forall k, k < length blocks -> exists u, answers (i + k) = Ok u) ->
  createBlocks_from answers pageId i blocks sent
  = (Normal tt, sent ++ map (stamp pageId) blocks).
Proof.
  induction blocks as [ | b rest IH]; intros i sent Hok.
  - cbn. now rewrite app_nil_r.
  - cbn [createBlocks_from].
    destruct (Hok 0 ltac:(cbn; lia)) as (u & Hu).
    rewrite Nat.add_0_r in Hu. rewrite Hu.
    rewrite IH.
    + cbn [map]. now rewrite <- app_assoc.
    + intros k Hk. replace (S i + k) with (i + S k) by lia.
      apply Hok. cbn. lia.
Qed.

Lemma createBlocks_from_refused answers pageId blocks : forall i sent k st,
  k < length blocks ->
  (forall j, j < k -> exists u, answers (i + j) = Ok u) ->
  answers (i + k) = NotOk st ->
  createBlocks_from answers pageId i blocks sent
  = (Throw ("Failed to add block: " ++ st),
     sent ++ map (stamp pageId) (take (S k) blocks)).
Proof.
  induction blocks as [ | b rest IH]; intros i sent k st Hk Hok Hno;
    [cbn in Hk; lia | ].
  cbn [createBlocks_from]. destruct k as [ | k].
  - rewrite Nat.add_0_r in Hno. rewrite Hno. cbn [take map].
    now rewrite take_0.
  - destruct (Hok 0 ltac:(lia)) as (u & Hu).
    rewrite Nat.add_0_r in Hu. rewrite Hu.
    rewrite (IH (S i) _ k st).
    + cbn [take map]. now rewrite <- app_assoc.
    + cbn in Hk. lia.
    + intros j Hj. replace (S i + j) with (i + S j) by lia. apply Hok. lia.
    + now replace (S i + k) with (i + S k) by lia.
Qed.

(** X10.  When the server accepts every request, [createBlocks] returns
    normally after posting each block exactly once, in the order of the
    list, every one with its [document_part] set to the page; geometry and
    typology are sent as [renderBoxes] produced them. *)
Theorem createBlocks_all_accepted answers pageId blocks :
  (forall k, k < length blocks -> exists u, answers k = Ok u) ->
  createBlocks answers pageId blocks
  = (Normal tt, map (stamp pageId) blocks).
Proof.
  intros Hok. unfold createBlocks.
  now rewrite createBlocks_from_accepted.
Qed.

Lemma createBlocks_all_accepted_witness :
  createBlocks (accept_first 2) "7"
    [ {| box := []; typology := Some 1%Z |}; {| box := []; typology := None |} ]
  = (Normal tt,
     [ {| r_box := []; r_typology := Some 1%Z; r_document_part := "7" |};
       {| r_box := []; r_typology := None; r_document_part := "7" |} ]).
Proof.
  apply (createBlocks_all_accepted (accept_first 2) "7"
           [ {| box := []; typology := Some 1%Z |};
             {| box := []; typology := None |} ]).
  intros [ | [ | k]] Hk; [now exists tt | now exists tt | cbn in Hk; lia].
Defined.

(** X11.  When request [k] is the first one the server refuses,
    [createBlocks] throws ["Failed to add block: "] followed by the status
    text.  The blocks before [k] have been posted and accepted, and stay on
    the server; the blocks after [k] are never sent. *)
Theorem createBlocks_stops_at_refusal answers pageId blocks k st :
  k < length blocks ->
  (forall j, j < k -> exists u, answers j = Ok u) ->
  answers k = NotOk st ->
  createBlocks answers pageId blocks
  = (Throw ("Failed to add block: " ++ st),
     map (stamp pageId) (take (S k) blocks)).
Proof.
  intros Hk Hok Hno. unfold createBlocks.
  now rewrite (createBlocks_from_refused answers pageId blocks 0 [] k st).
Qed.

Lemma createBlocks_stops_at_refusal_witness :
  createBlocks (accept_first 1) "7"
    [ {| box := []; typology := Some 1%Z |};
      {| box := []; typology := Some 2%Z |};
      {| box := []; typology := Some 3%Z |} ]
  = (Throw "Failed to add block: Bad Request",
     [ {| r_box := []; r_typology := Some 1%Z; r_document_part := "7" |};
       {| r_box := []; r_typology := Some 2%Z; r_document_part := "7" |} ]).
Proof.
  apply (createBlocks_stops_at_refusal (accept_first 1) "7"
           [ {| box := []; typology := Some 1%Z |};
             {| box := []; typology := Some 2%Z |};
             {| box := []; typology := Some 3%Z |} ] 1 "Bad Request").
  - cbn. lia.
  - intros [ | j] Hj; [now exists tt | lia].
  - reflexivity.
Defined.

(** ** The address of the page *)

Lemma append_cons c p r : (String c p ++ r)%string = String c (p ++ r)%string.
Proof. reflexivity. Qed.

Lemma strip_prefix_app p r : strip_prefix p (p ++ r)%string = Some r.
Proof.
  induction p as [ | c p IH]; [reflexivity | ].
  rewrite append_cons. cbn [strip_prefix]. now rewrite Ascii.eqb_refl.
Qed.

Lemma strip_prefix_Some p : forall s r, strip_prefix p s = Some r -> s = (p ++ r)%string.
Proof.
  induction p as [ | c p IH]; intros s r H; cbn in H.
  - now injection H as ->.
  - destruct s as [ | d s]; [discriminate | ].
    destruct (Ascii.eqb_spec c d) as [-> | ]; [ | discriminate].
    rewrite append_cons. f_equal. now apply IH.
Qed.

Lemma span_app p a b :
  all_chars p a = true ->
  match b with String c _ => p c = false | EmptyString => True end ->
  span p (a ++ b)%string = (a, b).
Proof.
  intros Ha Hb. induction a as [ | c a IH].
  - change (EmptyString ++ b)%string with b.
    destruct b as [ | c b]; [reflexivity | ]. cbn [span]. now rewrite Hb.
  - cbn [all_chars] in Ha. apply andb_prop in Ha as [Hc Ha].
    rewrite append_cons. cbn [span]. rewrite Hc, (IH Ha). reflexivity.
Qed.

Lemma span_spec p : forall s a b,
  span p s = (a, b) -> s = (a ++ b)%string /\ all_chars p a = true.
Proof.
  induction s as [ | c s IH]; intros a b H; cbn in H.
  - injection H as <- <-. now split.
  - destruct (p c) eqn:Hc.
    + destruct (span p s) as [a' b'] eqn:Hs. injection H as <- <-.
      destruct (IH a' b' eq_refl) as [-> Ha]. cbn [all_chars].
      now rewrite Hc, Ha.
    + injection H as <- <-. now split.
Qed.

Lemma optional_char_spec c s :
  s = optional_char c s \/ s = String c (optional_char c s).
Proof.
  destruct s as [ | d r]; [now left | ]. cbn.
  destruct (Ascii.eqb_spec c d) as [-> | ]; [now right | now left].
Qed.

Lemma optional_char_split c s :
  s = ((if decide (s = optional_char c s) then "" else String c "")
       ++ optional_char c s)%string.
Proof.
  destruct (decide (s = optional_char c s)) as [e | n]; [exact e | ].
  destruct (optional_char_spec c s) as [e | e]; [contradiction | exact e].
Qed.

Lemma string_app_assoc (a b c : string) :
  ((a ++ b) ++ c = a ++ (b ++ c))%string.
Proof.
  induction a as [ | x a IH]; [reflexivity | ].
  rewrite !append_cons. now f_equal.
Qed.

(** The matcher accepts exactly the addresses of the pattern. *)
Lemma regex_exec_complete url domain document page :
  page_address url domain document page ->
  regex_exec url = Some (domain, document, page).
Proof.
  intros (scheme & host & p1 & p2 & sl & Hs & Hh & Hhost & Hp1 & Hp2 & Hsl
          & Hd & Hdoc & Hp & Hpage & -> & ->).
  unfold regex_exec.
  assert (Hscheme : forall rest,
    strip_scheme ((scheme ++ host) ++ rest)%string
    = Some (scheme, (host ++ rest)%string)).
  { intros rest. destruct Hs as [-> | ->]; reflexivity. }
  rewrite Hscheme. cbn [mbind option_bind].
  rewrite span_app; [ | exact Hhost | reflexivity].
  destruct (decide (host = "")) as [? | _]; [contradiction | ].
  rewrite (strip_prefix_app "/document"). cbn [mbind option_bind].
  assert (Hopt1 : forall rest,
    strip_prefix "/" (optional_char "s"%char (p1 ++ "/" ++ rest)%string)
    = Some rest).
  { intros rest. destruct Hp1 as [-> | ->]; reflexivity. }
  rewrite Hopt1. cbn [mbind option_bind].
  rewrite span_app; [ | exact Hdoc | reflexivity].
  destruct (decide (document = "")) as [? | _]; [contradiction | ].
  rewrite (strip_prefix_app "/part"). cbn [mbind option_bind].
  assert (Hopt2 : forall rest,
    strip_prefix "/" (optional_char "s"%char (p2 ++ "/" ++ rest)%string)
    = Some rest).
  { intros rest. destruct Hp2 as [-> | ->]; reflexivity. }
  rewrite Hopt2. cbn [mbind option_bind].
  rewrite span_app; [ | exact Hpage | reflexivity].
  destruct (decide (page = "")) as [? | _]; [contradiction | ].
  rewrite (strip_prefix_app "/edit"). cbn [mbind option_bind].
  destruct Hsl as [-> | ->]; reflexivity.
Qed.

Lemma regex_exec_sound url domain document page :
  regex_exec url = Some (domain, document, page) ->
  page_address url domain document page.
Proof.
  unfold regex_exec. intros H.
  destruct (strip_scheme url) as [[scheme r0] | ] eqn:Hs; [ | discriminate].
  unfold strip_scheme in Hs.
  assert (Hscheme : (scheme = "http://" \/ scheme = "https://")
                    /\ url = (scheme ++ r0)%string).
  { destruct (strip_prefix "https://" url) as [r | ] eqn:E.
    - injection Hs as <- <-. split; [now right | now apply strip_prefix_Some].
    - destruct (strip_prefix "http://" url) as [r | ] eqn:E'; [ | discriminate].
      injection Hs as <- <-. split; [now left | now apply strip_prefix_Some]. }
  destruct Hscheme as [Hsch ->]. clear Hs.
  cbn [mbind option_bind] in H.
  destruct (span not_slash r0) as [host r1] eqn:Hspan1.
  apply span_spec in Hspan1 as [-> Hhost].
  destruct (decide (host = "")) as [ | Hh]; [discriminate | ].
  destruct (strip_prefix "/document" r1) as [r2 | ] eqn:E2; [ | discriminate].
  apply strip_prefix_Some in E2 as ->. cbn [mbind option_bind] in H.
  destruct (strip_prefix "/" (optional_char "s"%char r2)) as [r3 | ] eqn:E3;
    [ | discriminate].
  apply strip_prefix_Some in E3. cbn [mbind option_bind] in H.
  destruct (span is_digit r3) as [doc r4] eqn:Hspan2.
  apply span_spec in Hspan2 as [-> Hdoc].
  destruct (decide (doc = "")) as [ | Hd]; [discriminate | ].
  destruct (strip_prefix "/part" r4) as [r5 | ] eqn:E5; [ | discriminate].
  apply strip_prefix_Some in E5 as ->. cbn [mbind option_bind] in H.
  destruct (strip_prefix "/" (optional_char "s"%char r5)) as [r6 | ] eqn:E6;
    [ | discriminate].
  apply strip_prefix_Some in E6. cbn [mbind option_bind] in H.
  destruct (span is_digit r6) as [pg r7] eqn:Hspan3.
  apply span_spec in Hspan3 as [-> Hpage].
  destruct (decide (pg = "")) as [ | Hp]; [discriminate | ].
  destruct (strip_prefix "/edit" r7) as [r8 | ] eqn:E8; [ | discriminate].
  apply strip_prefix_Some in E8 as ->. cbn [mbind option_bind] in H.
  destruct (decide (optional_char "/"%char r8 = "")) as [E9 | ]; [ | discriminate].
  injection H as <- <- <-.
  exists scheme, host,
    (if decide (r2 = optional_char "s"%char r2) then "" else String "s" ""),
    (if decide (r5 = optional_char "s"%char r5) then "" else String "s" ""),
    r8.
  repeat split; try assumption.
  - destruct (decide _); [now left | now right].
  - destruct (decide _); [now left | now right].
  - destruct (optional_char_spec "/" r8) as [-> | ->];
      rewrite E9; [now left | now right].
  - rewrite string_app_assoc. do 3 f_equal.
    rewrite (optional_char_split "s"%char r2) at 1. rewrite E3.
    do 4 f_equal.
    rewrite (optional_char_split "s"%char r5) at 1. now rewrite E6.
Qed.

(** X12.  For every address of the form
    [scheme://host/document(s)/D/part(s)/P/edit(/)] the promise of
    [getBlocksUrl] is fulfilled, with page [P], document [D] and the
    address [scheme://host/api/documents/D/parts/P/blocks/]. *)
Theorem getBlocksUrl_resolves url domain document page :
  page_address url domain document page ->
  getBlocksUrl url
  = Fulfilled {| pageId := page;
                 documentId := document;
                 blocksUrl := (domain ++ "/api/documents/" ++ document
                               ++ "/parts/" ++ page ++ "/blocks/")%string |}.
Proof.
  intros H. unfold getBlocksUrl.
  now rewrite (regex_exec_complete url domain document page H).
Qed.

Lemma getBlocksUrl_resolves_witness :
  getBlocksUrl "https://escriptorium.inria.fr/documents/12/part/345/edit/"
  = Fulfilled
      {| pageId := "345";
         documentId := "12";
         blocksUrl :=
           "https://escriptorium.inria.fr/api/documents/12/parts/345/blocks/" |}.
Proof.
  apply (getBlocksUrl_resolves
           "https://escriptorium.inria.fr/documents/12/part/345/edit/"
           "https://escriptorium.inria.fr" "12" "345").
  exists "https://"%string, "escriptorium.inria.fr"%string,
         "s"%string, ""%string, "/"%string.
  repeat split; try discriminate; try reflexivity;
    first [now left | now right].
Defined.

(** X13.  The promise of [getBlocksUrl] is fulfilled for such addresses
    only, and then with the groups of the address; for any other address
    (no [/edit] at the end, a query string, a document that is not a
    number, ...) it is neither fulfilled nor rejected. *)
Theorem getBlocksUrl_pages_only url :
  match getBlocksUrl url with
  | Fulfilled t =>
      exists domain,
        page_address url domain (documentId t) (pageId t) /\
        blocksUrl t = (domain ++ "/api/documents/" ++ documentId t
                       ++ "/parts/" ++ pageId t ++ "/blocks/")%string
  | Pending =>
      forall domain document page, ~ page_address url domain document page
  end.
Proof.
  unfold getBlocksUrl.
  destruct (regex_exec url) as [[[domain document] page] | ] eqn:E.
  - exists domain. split; [now apply regex_exec_sound | reflexivity].
  - intros domain document page H.
    apply regex_exec_complete in H. congruence.
Qed.

(** ** The first decoder *)

Lemma ltb_neg_infinity x : F64.ltb x (S754_infinity true) = false.
Proof. destruct x as [[ | ] | [ | ] | | [ | ] m e]; reflexivity. Qed.

Lemma fold_left_push {A B} (f : B -> list A) (l : list B) : forall init,
  fold_left (fun acc i => acc ++ f i) l init = init ++ flat_map f l.
Proof.
  induction l as [ | x l IH]; intros init; cbn.
  - now rewrite app_nil_r.
  - now rewrite IH, app_assoc.
Qed.

(** The result of the inner loop is the start value, or an element of the
    buffer together with the class it was read for. *)
Lemma best_class_spec data N C i :
  let '(maxProb, classId) := best_class data N C i in
  (maxProb = S754_infinity true /\ classId = (-1)%Z) \/
  exists j, j < C /\ classId = Z.of_nat j /\
            data !! (N * i + j + 4) = Some maxProb.
Proof.
  unfold best_class.
  assert (H : forall l st,
    Forall (fun j => j < C) l ->
    (let '(m, c) := st in
     (m = S754_infinity true /\ c = (-1)%Z) \/
     exists j, j < C /\ c = Z.of_nat j /\ data !! (N * i + j + 4) = Some m) ->
    let '(m, c) :=
      fold_left
        (fun '(maxProb, classId) j =>
           match data !! (N * i + j + 4) with
           | Some prob =>
               if F64.ltb maxProb prob then (prob, Z.of_nat j)
               else (maxProb, classId)
           | None => (maxProb, classId)
           end) l st in
    (m = S754_infinity true /\ c = (-1)%Z) \/
    exists j, j < C /\ c = Z.of_nat j /\ data !! (N * i + j + 4) = Some m).
  { induction l as [ | j l IH]; intros [m c] Hl Hst; [exact Hst | ].
    cbn [fold_left]. inversion Hl as [ | ? ? Hj Hl']; subst.
    apply IH; [exact Hl' | ].
    destruct (data !! (N * i + j + 4)) as [prob | ] eqn:E; [ | exact Hst].
    destruct (F64.ltb m prob); [ | exact Hst].
    right. exists j. now repeat split. }
  apply H.
  - apply List.Forall_forall. intros j Hj. apply in_seq in Hj. lia.
  - now left.
Qed.

(** Each iteration pushes at most one box. *)
Lemma length_extract_one data N C thr oW oH i :
  length (extract_one data N C thr oW oH i) <= 1.
Proof.
  unfold extract_one. destruct (best_class data N C i) as [m c].
  destruct (F64.ltb thr m); cbn; lia.
Qed.

Lemma length_flat_map_bounded {A} (f : nat -> list A) (m : nat) :
  (forall i, length (f i) <= 1) ->
  forall n, (forall i, m <= i -> i < n -> f i = []) ->
  length (flat_map f (seq 0 n)) <= Nat.min n m.
Proof.
  intros H1. induction n as [ | n IH]; intros Hm; [cbn; lia | ].
  rewrite seq_S, flat_map_app, length_app. cbn [flat_map Nat.add].
  rewrite app_nil_r.
  assert (IH' : length (flat_map f (seq 0 n)) <= Nat.min n m).
  { apply IH. intros i Hi Hlt. apply Hm; lia. }
  destruct (le_lt_dec m n) as [Hle | Hlt].
  - rewrite (Hm n Hle ltac:(lia)). cbn [length]. lia.
  - specialize (H1 n). lia.
Qed.

(** X14.  Every box [extractBoundingBoxes] returns has a confidence above
    the threshold and a class between [0] and the number of classes, the
    confidence being the element of the buffer at
    [numDetections * i + class + 4] for an [i] below [numDetections]; its
    typology is [null].  There are at most [numDetections] boxes. *)
Theorem extractBoundingBoxes_sound predictions threshold oW oH :
  let thr := default (F64.lit 5 10) threshold in
  let N := dim predictions 2 in
  let C := dim predictions 1 - 4 in
  let out := extractBoundingBoxes predictions threshold oW oH in
  length out <= N /\
  forall b, In b out ->
    F64.ltb thr (e_confidence b) = true /\
    e_typology b = None /\
    exists i j, i < N /\ j < C /\ e_class b = Z.of_nat j /\
      map F32.to_f64 (data predictions) !! (N * i + j + 4)
        = Some (e_confidence b).
Proof.
  intros thr N C out. subst out. unfold extractBoundingBoxes.
  fold thr N C. rewrite fold_left_push. cbn [app]. split.
  - etransitivity; [ | apply (Nat.le_min_l N N)].
    apply length_flat_map_bounded; [intros i; apply length_extract_one | ].
    intros i Hi Hlt. lia.
  - intros b Hb. apply in_flat_map in Hb as (i & Hi & Hb).
    apply in_seq in Hi. unfold extract_one in Hb.
    pose proof (best_class_spec (map F32.to_f64 (data predictions)) N C i) as Hs.
    destruct (best_class (map F32.to_f64 (data predictions)) N C i) as [m c].
    destruct (F64.ltb thr m) eqn:Hthr; [ | contradiction].
    destruct Hb as [<- | []]. cbn [e_confidence e_typology e_class].
    split; [exact Hthr | split; [reflexivity | ]].
    destruct Hs as [[-> _] | (j & Hj & -> & Hd)].
    + now rewrite ltb_neg_infinity in Hthr.
    + exists i, j. repeat split; [lia | exact Hj | exact Hd].
Qed.

(** X15.  On a buffer of [A * N] elements ([A] attributes for each of [N]
    detections, as the model returns it) [extractBoundingBoxes] returns at
    most [A] boxes, however many detections there are: iteration [i] reads
    its scores from position [N * i + 4] on, which is past the end of the
    buffer as soon as [i] reaches [A]. *)
Theorem extractBoundingBoxes_few predictions threshold oW oH :
  length (data predictions) = dim predictions 1 * dim predictions 2 ->
  length (extractBoundingBoxes predictions threshold oW oH)
    <= dim predictions 1.
Proof.
  intros Hlen. unfold extractBoundingBoxes.
  rewrite fold_left_push. cbn [app].
  set (thr := default (F64.lit 5 10) threshold).
  set (N := dim predictions 2) in *. set (A := dim predictions 1) in *.
  etransitivity; [ | apply (Nat.le_min_r N A)].
  apply length_flat_map_bounded; [intros i; apply length_extract_one | ].
  intros i Hi _. unfold extract_one.
  pose proof (best_class_spec (map F32.to_f64 (data predictions)) N (A - 4) i)
    as Hs.
  destruct (best_class (map F32.to_f64 (data predictions)) N (A - 4) i)
    as [m c].
  destruct (F64.ltb thr m) eqn:Hthr; [ | reflexivity].
  destruct Hs as [[-> _] | (j & Hj & _ & Hd)].
  - now rewrite ltb_neg_infinity in Hthr.
  - apply lookup_lt_Some in Hd. rewrite length_map, Hlen in Hd.
    assert (A * N <= N * i) by (rewrite (Nat.mul_comm N i);
                                 now apply Nat.mul_le_mono_r).
    lia.
Qed.


Lemma extractBoundingBoxes_few_witness :
  length (extractBoundingBoxes wide_res None (F64.of_Z 960) (F64.of_Z 960)) <= 5.
Proof.
  apply (extractBoundingBoxes_few wide_res None (F64.of_Z 960) (F64.of_Z 960)).
  reflexivity.
Defined.

(** ** Exporting the raw output *)




(** One turn of the loop. *)
Lemma export_each_cons predictions A i rest e :
  export_each predictions A (i :: rest) e
  = match export_each predictions A rest
            {| nextId := S (nextId e);
               live := ({[ nextId e ]} ∪ live e) ∖ {[ nextId e ]};
               scopes := track (nextId e) (scopes e);
               kernels := kernels e ++ [KSlice] |} with
    | (Normal files, e2) =>
        (Normal ({| file_name := "Detection_" ++ decimal (i + 1) ++ "_";
                    file_data := map F32.to_f64
                      (data (slice3 (hval predictions) (0, 0, i)
                                    (1, Z.of_nat A, 1)%Z)) |} :: files), e2)
    | (Throw msg, e2) => (Throw msg, e2)
    end.
Proof. reflexivity. Qed.

(** What the loop returns: one file per detection. *)
Lemma export_each_value predictions A todo : forall e,
  fst (export_each predictions A todo e)
  = Normal (map (fun i =>
      {| file_name := "Detection_" ++ decimal (i + 1) ++ "_";
         file_data := map F32.to_f64
           (data (slice3 (hval predictions) (0, 0, i)
                         (1, Z.of_nat A, 1)%Z)) |}) todo).
Proof.
  induction todo as [ | i rest IH]; intros e; [reflexivity | ].
  rewrite export_each_cons. cbn [map].
  match goal with |- context [export_each predictions A rest ?e1] =>
    specialize (IH e1); destruct (export_each predictions A rest e1) as [[v | msg] e2]
  end; cbn [fst] in IH; [ | discriminate].
  injection IH as ->. reflexivity.
Qed.

(** What the loop does to the engine: each slice it makes is disposed. *)
Lemma export_each_engine predictions A todo : forall e,
  engine_ok e ->
  nextId (snd (export_each predictions A todo e)) = nextId e + length todo /\
  live (snd (export_each predictions A todo e)) = live e /\
  kernels (snd (export_each predictions A todo e))
    = kernels e ++ repeat KSlice (length todo).
Proof.
  induction todo as [ | i rest IH]; intros e Hok.
  - cbn. rewrite app_nil_r. repeat split; lia.
  - rewrite export_each_cons.
    match goal with |- context [export_each predictions A rest ?e1] =>
      set (e1' := e1)
    end.
    assert (Hlive1 : live e1' = live e).
    { subst e1'. cbn [live]. apply set_eq. intros x.
      rewrite elem_of_difference, elem_of_union, !elem_of_singleton.
      split; [intros [[-> | Hx] Hne]; [contradiction | exact Hx] | ].
      intros Hx. split; [now right | ]. intros ->.
      apply Hok in Hx. lia. }
    assert (Hok1 : engine_ok e1').
    { intros id Hid. rewrite Hlive1 in Hid. apply Hok in Hid.
      subst e1'. cbn [nextId]. lia. }
    specialize (IH e1' Hok1).
    destruct (export_each predictions A rest e1') as [[v | msg] e2];
      cbn [snd] in IH |- *; destruct IH as (Hn & Hl & Hk);
      rewrite Hn, Hl, Hk, Hlive1; subst e1'; cbn [nextId kernels length repeat];
      (repeat split; [lia | ]); now rewrite <- app_assoc.
Qed.



(** X17.  [exportDetectionsAndAttributes] runs [N + 1] slices.  The slice
    of each detection is disposed before the next one is made; the slice of
    everything is not: when the function returns, the engine holds exactly
    one tensor more than before. *)
Theorem export_keeps_last_slice predictions e :
  engine_ok e ->
  let N := dim (hval predictions) 2 in
  let e' := snd (exportDetectionsAndAttributes predictions e) in
  live e' = live e ∪ {[ nextId e + N ]} /\
  (nextId e + N ∉ live e) /\
  nextId e' = nextId e + N + 1 /\
  kernels e' = kernels e ++ repeat KSlice (N + 1).
Proof.
  intros Hok N e'. subst e'. unfold exportDetectionsAndAttributes. fold N.
  pose proof (export_each_value predictions (dim (hval predictions) 1)
                (seq 0 N) e) as Hv.
  pose proof (export_each_engine predictions (dim (hval predictions) 1)
                (seq 0 N) e Hok) as (Hn & Hl & Hk).
  destruct (export_each predictions (dim (hval predictions) 1) (seq 0 N) e)
    as [[files | msg] e1] eqn:Hrun; cbn [fst] in Hv; [ | discriminate].
  rewrite (bind_normal _ _ e files e1 Hrun).
  cbn [snd] in Hn, Hl, Hk. rewrite length_seq in Hn, Hk.
  unfold mbind, M_bind, make, mret, M_ret. cbn [snd live nextId kernels].
  rewrite Hn, Hl, Hk. repeat split.
  - apply set_eq. intros x.
    rewrite !elem_of_union, elem_of_singleton. tauto.
  - intros Hin. apply Hok in Hin. lia.
  - lia.
  - rewrite <- app_assoc. f_equal.
    rewrite Nat.add_1_r. cbn [repeat].
    now rewrite repeat_cons.
Qed.

Lemma export_keeps_last_slice_witness :
  live (snd (exportDetectionsAndAttributes (Handle 0 sample_res)
               {| nextId := 1; live := {[ 0 ]}; scopes := []; kernels := [] |}))
  = {[ 0 ]} ∪ {[ 3 ]}.
Proof.
  destruct (export_keeps_last_slice (Handle 0 sample_res)
              {| nextId := 1; live := {[ 0 ]}; scopes := []; kernels := [] |})
    as (Hlive & _).
  - intros id Hid. cbn [live] in Hid. apply elem_of_singleton in Hid.
    subst id. cbn. lia.
  - exact Hlive.
Defined.

(** ** One annotation run *)

(** [detect] completes when the model answers a well-shaped tensor. *)
Lemma detect_completes execute resizeBilinear g labels source mW mH e res N :
  execute (model_input resizeBilinear source mW mH) = Normal res ->
  shape res = [1; 4 + length labels; N] ->
  N <> 1 ->
  exists out,
    fst (detect execute resizeBilinear g labels source mW mH e) = Normal out /\
    length out = length (survivors (length labels) res).
Proof.
  intros Hexec Hs HN.
  pose proof (detect_run execute resizeBilinear g labels source mW mH e res Hexec)
    as Hrun. cbn zeta in Hrun.
  assert (Hsb : shape (detect_boxes (transpose021 res)) = [N; 4]).
  { rewrite (shape_detect_boxes res _ N Hs). now case_decide. }
  destruct (shape_detect_scores res _ N Hs) as [Hss _].
  unfold nms_shapes_ok in Hrun. rewrite Hsb, Hss, Nat.eqb_refl in Hrun.
  eexists. split; [exact Hrun | ].
  rewrite renderBoxes_length, length_map. cbn [gather1 data].
  now rewrite length_map.
Qed.

(** X18.  On a tab whose address is not that of a page being edited, the
    handler shows [Image loaded successfully] and nothing more: no type is
    created, the model is not run, no block is posted, no error is shown,
    and the handler never comes to its end. *)
Theorem onload_needs_page execute resizeBilinear labels url type_answers
    block_answers g source mW mH e :
  (forall domain document page, ~ page_address url domain document page) ->
  onload execute resizeBilinear labels url type_answers block_answers g
         source mW mH e
  = ({| shown := ["Image loaded successfully"];
        mappings := typeMappings g; requested := [];
        reloaded := false; settled := false |}, e).
Proof.
  intros Hno. unfold onload, getBlocksUrl.
  destruct (regex_exec url) as [[[domain document] page] | ] eqn:E;
    [ | reflexivity].
  apply regex_exec_sound in E. now apply Hno in E.
Qed.

Lemma onload_needs_page_witness :
  onload sample_execute sample_resize sample_labels
         "https://escriptorium.inria.fr/documents/12/images/"
         create_all (accept_first 5) sample_globals sample_source 4 4
         fresh_engine
  = ({| shown := ["Image loaded successfully"];
        mappings := typeMappings sample_globals; requested := [];
        reloaded := false; settled := false |}, fresh_engine).
Proof.
  apply (onload_needs_page sample_execute sample_resize sample_labels
           "https://escriptorium.inria.fr/documents/12/images/").
  intros domain document page H.
  apply regex_exec_complete in H. vm_compute in H. discriminate.
Defined.

(** X19.  On the address of a page, with a model that answers a tensor of
    shape [1, 4 + C, N], [N] not one, and a server that accepts every
    block: the types are created first, [detect] then runs with the mapping
    [createTypes] left, one request is made per block it returns, each for
    this page, and the handler shows [Blocks added successfully!] and asks
    for the reload.  When nothing survives the suppression the same
    message is shown. *)
Theorem onload_success execute resizeBilinear labels url type_answers
    block_answers g source mW mH e domain document page res N :
  page_address url domain document page ->
  execute (model_input resizeBilinear source mW mH) = Normal res ->
  shape res = [1; 4 + length labels; N] ->
  N <> 1 ->
  (forall k, k < length (survivors (length labels) res) ->
     exists u, block_answers k = Ok u) ->
  let g' := createTypes type_answers labels g in
  exists blocks,
    fst (detect execute resizeBilinear g' labels source mW mH e)
      = Normal blocks /\
    length blocks = length (survivors (length labels) res) /\
    fst (onload execute resizeBilinear labels url type_answers block_answers
           g source mW mH e)
    = {| shown := ["Image loaded successfully"; "Blocks added successfully!"];
         mappings := typeMappings g';
         requested := map (stamp page) blocks;
         reloaded := true; settled := true |}.
Proof.
  intros Hpage Hexec Hs HN Hacc g'.
  destruct (detect_completes execute resizeBilinear g' labels source mW mH e
              res N Hexec Hs HN) as (blocks & Hdet & Hlen).
  exists blocks. split; [exact Hdet | split; [exact Hlen | ]].
  unfold onload, getBlocksUrl.
  rewrite (regex_exec_complete url domain document page Hpage).
  fold g'. cbn [pageId].
  destruct (detect execute resizeBilinear g' labels source mW mH e)
    as [c e'] eqn:Hrun.
  cbn [fst] in Hdet. subst c.
  unfold createBlocks. rewrite createBlocks_from_accepted.
  - reflexivity.
  - intros k Hk. rewrite Hlen in Hk. now apply Hacc.
Qed.

Lemma onload_success_witness :
  exists blocks,
    length blocks = 1 /\
    fst (onload sample_execute sample_resize sample_labels
           "https://escriptorium.inria.fr/document/12/part/345/edit"
           create_all (accept_first 5) sample_globals sample_source 4 4
           fresh_engine)
    = {| shown := ["Image loaded successfully"; "Blocks added successfully!"];
         mappings := typeMappings (createTypes create_all sample_labels
                                     sample_globals);
         requested := map (stamp "345") blocks;
         reloaded := true; settled := true |}.
Proof.
  destruct (onload_success sample_execute sample_resize sample_labels
              "https://escriptorium.inria.fr/document/12/part/345/edit"
              create_all (accept_first 5) sample_globals sample_source 4 4
              fresh_engine "https://escriptorium.inria.fr" "12" "345"
              sample_res 2)
    as (blocks & _ & Hlen & Hrun).
  - exists "https://"%string, "escriptorium.inria.fr"%string,
           ""%string, ""%string, ""%string.
    repeat split; try discriminate; try reflexivity;
      first [now left | now right].
  - reflexivity.
  - reflexivity.
  - lia.
  - intros k Hk. vm_compute in Hk. exists tt.
    destruct k as [ | k]; [reflexivity | lia].
  - exists blocks. split; [exact Hlen | exact Hrun].
Defined.

(** X20.  When the model throws, the handler shows
    [Error during annotation: ] followed by the message of the error and
    posts no block; the types have been created before the model ran and
    stay mapped. *)
Theorem onload_model_failure execute resizeBilinear labels url type_answers
    block_answers g source mW mH e domain document page msg :
  page_address url domain document page ->
  execute (model_input resizeBilinear source mW mH) = Throw msg ->
  fst (onload execute resizeBilinear labels url type_answers block_answers
         g source mW mH e)
  = {| shown := ["Image loaded successfully";
                 ("Error during annotation: " ++ msg)%string];
       mappings := typeMappings (createTypes type_answers labels g);
       requested := [];
       reloaded := false; settled := true |}.
Proof.
  intros Hpage Hexec.
  pose proof (detect_throws execute resizeBilinear
                (createTypes type_answers labels g) labels source mW mH e msg
                Hexec) as Hdet.
  unfold onload, getBlocksUrl.
  rewrite (regex_exec_complete url domain document page Hpage).
  destruct (detect execute resizeBilinear (createTypes type_answers labels g)
              labels source mW mH e) as [c e'] eqn:Hrun.
  cbn [fst] in Hdet. subst c. reflexivity.
Qed.

Lemma onload_model_failure_witness :
  fst (onload failing_execute sample_resize sample_labels
         "https://escriptorium.inria.fr/document/12/part/345/edit"
         create_all (accept_first 5) sample_globals sample_source 4 4
         fresh_engine)
  = {| shown := ["Image loaded successfully";
                 "Error during annotation: the model rejects its input"];
       mappings := typeMappings (createTypes create_all sample_labels
                                   sample_globals);
       requested := [];
       reloaded := false; settled := true |}.
Proof.
  apply (onload_model_failure failing_execute sample_resize sample_labels
           "https://escriptorium.inria.fr/document/12/part/345/edit"
           create_all (accept_first 5) sample_globals sample_source 4 4
           fresh_engine "https://escriptorium.inria.fr" "12" "345").
  - exists "https://"%string, "escriptorium.inria.fr"%string,
           ""%string, ""%string, ""%string.
    repeat split; try discriminate; try reflexivity;
      first [now left | now right].
  - reflexivity.
Defined.

(** X21.  When the server refuses block [k], the handler shows
    [Error during annotation: Failed to add block: ] followed by the status
    text and does not ask for the reload; the requests for the blocks up to
    [k] have been made, and the blocks before [k] stay on the page. *)
Theorem onload_block_refused execute resizeBilinear labels url type_answers
    block_answers g source mW mH e domain document page res N k st :
  page_address url domain document page ->
  execute (model_input resizeBilinear source mW mH) = Normal res ->
  shape res = [1; 4 + length labels; N] ->
  N <> 1 ->
  k < length (survivors (length labels) res) ->
  (forall j, j < k -> exists u, block_answers j = Ok u) ->
  block_answers k = NotOk st ->
  let g' := createTypes type_answers labels g in
  exists blocks,
    fst (detect execute resizeBilinear g' labels source mW mH e)
      = Normal blocks /\
    fst (onload execute resizeBilinear labels url type_answers block_answers
           g source mW mH e)
    = {| shown := ["Image loaded successfully";
                   ("Error during annotation: Failed to add block: "
                    ++ st)%string];
         mappings := typeMappings g';
         requested := map (stamp page) (take (S k) blocks);
         reloaded := false; settled := true |}.
Proof.
  intros Hpage Hexec Hs HN Hk Hacc Hno g'.
  destruct (detect_completes execute resizeBilinear g' labels source mW mH e
              res N Hexec Hs HN) as (blocks & Hdet & Hlen).
  exists blocks. split; [exact Hdet | ].
  unfold onload, getBlocksUrl.
  rewrite (regex_exec_complete url domain document page Hpage).
  fold g'. cbn [pageId].
  destruct (detect execute resizeBilinear g' labels source mW mH e)
    as [c e'] eqn:Hrun.
  cbn [fst] in Hdet. subst c.
  unfold createBlocks.
  rewrite (createBlocks_from_refused block_answers page blocks 0 [] k st);
    [reflexivity | lia | exact Hacc | exact Hno].
Qed.

Lemma onload_block_refused_witness :
  exists blocks,
    fst (onload sample_execute sample_resize sample_labels
           "https://escriptorium.inria.fr/document/12/part/345/edit"
           create_all (accept_first 0) sample_globals sample_source 4 4
           fresh_engine)
    = {| shown := ["Image loaded successfully";
                   "Error during annotation: Failed to add block: Bad Request"];
         mappings := typeMappings (createTypes create_all sample_labels
                                     sample_globals);
         requested := map (stamp "345") (take 1 blocks);
         reloaded := false; settled := true |}.
Proof.
  destruct (onload_block_refused sample_execute sample_resize sample_labels
              "https://escriptorium.inria.fr/document/12/part/345/edit"
              create_all (accept_first 0) sample_globals sample_source 4 4
              fresh_engine "https://escriptorium.inria.fr" "12" "345"
              sample_res 2 0 "Bad Request")
    as (blocks & _ & Hrun).
  - exists "https://"%string, "escriptorium.inria.fr"%string,
           ""%string, ""%string, ""%string.
    repeat split; try discriminate; try reflexivity;
      first [now left | now right].
  - reflexivity.
  - reflexivity.
  - lia.
  - vm_compute. lia.
  - intros j Hj. lia.
  - reflexivity.
  - exists blocks. exact Hrun.
Defined.

(** ** File names *)

Lemma all_chars_app p a b :
  all_chars p (a ++ b)%string = all_chars p a && all_chars p b.
Proof.
  induction a as [ | c a IH]; [reflexivity | ].
  rewrite append_cons. cbn [all_chars]. now rewrite IH, andb_assoc.
Qed.

Lemma all_chars_impl (p q : ascii -> bool) s :
  (forall c, p c = true -> q c = true) ->
  all_chars p s = true -> all_chars q s = true.
Proof.
  intros Hpq. induction s as [ | c s IH]; [reflexivity | ].
  cbn [all_chars]. intros H. apply andb_prop in H as [Hc Hs].
  now rewrite (Hpq c Hc), (IH Hs).
Qed.

Lemma replace_first_app c d a r :
  all_chars (fun x => negb (Ascii.eqb x c)) a = true ->
  replace_first c d (a ++ String c r)%string = (a ++ String d r)%string.
Proof.
  intros Ha. induction a as [ | x a IH].
  - change (replace_first c d (String c r) = String d r).
    cbn [replace_first]. now rewrite Ascii.eqb_refl.
  - cbn [all_chars] in Ha. apply andb_prop in Ha as [Hx Ha].
    rewrite !append_cons. cbn [replace_first].
    apply negb_true_iff in Hx. rewrite Hx. now rewrite (IH Ha).
Qed.

Lemma replace_all_app c d a b :
  replace_all c d (a ++ b)%string
  = (replace_all c d a ++ replace_all c d b)%string.
Proof.
  induction a as [ | x a IH]; [reflexivity | ].
  rewrite append_cons. cbn [replace_all]. rewrite append_cons. now rewrite IH.
Qed.

Lemma replace_all_id c d a :
  all_chars (fun x => negb (Ascii.eqb x c)) a = true -> replace_all c d a = a.
Proof.
  induction a as [ | x a IH]; [reflexivity | ].
  cbn [all_chars replace_all]. intros H. apply andb_prop in H as [Hx Ha].
  apply negb_true_iff in Hx. now rewrite Hx, (IH Ha).
Qed.

Lemma stamp_char_not c x :
  (c = "T" \/ c = ":" \/ c = ".")%char ->
  stamp_char x = true -> negb (Ascii.eqb x c) = true.
Proof.
  unfold stamp_char. intros Hc H.
  apply andb_prop in H as [H H3]. apply andb_prop in H as [H1 H2].
  destruct Hc as [-> | [-> | ->]]; assumption.
Qed.

(** X22.  The time stamp of an exported file: for a date in the ISO form
    [<date>T<h>:<m>:<s>.<rest>] it is [<date>_<h>-<m>-<s>]; the fraction of
    the second and the zone are dropped. *)
Theorem timestamp_of_iso date h m s rest :
  all_chars stamp_char date = true ->
  all_chars stamp_char h = true ->
  all_chars stamp_char m = true ->
  all_chars stamp_char s = true ->
  timestamp (date ++ "T" ++ h ++ ":" ++ m ++ ":" ++ s ++ "." ++ rest)
  = (date ++ "_" ++ h ++ "-" ++ m ++ "-" ++ s)%string.
Proof.
  intros Hd Hh Hm Hs. unfold timestamp.
  assert (Hno : forall c t, (c = "T" \/ c = ":" \/ c = ".")%char ->
            all_chars stamp_char t = true ->
            all_chars (fun x => negb (Ascii.eqb x c)) t = true).
  { intros c t Hc. apply all_chars_impl. intros x. now apply stamp_char_not. }
  change ("T" ++ h ++ ":" ++ m ++ ":" ++ s ++ "." ++ rest)%string
    with (String "T" (h ++ ":" ++ m ++ ":" ++ s ++ "." ++ rest))%string.
  rewrite replace_first_app by (apply Hno; auto).
  change (String "_" (h ++ ":" ++ m ++ ":" ++ s ++ "." ++ rest))%string
    with ("_" ++ h ++ ":" ++ m ++ ":" ++ s ++ "." ++ rest)%string.
  rewrite !replace_all_app.
  rewrite (replace_all_id _ _ date), (replace_all_id _ _ h),
          (replace_all_id _ _ m), (replace_all_id _ _ s) by (apply Hno; auto).
  change (replace_all ":" "-" "_") with "_"%string.
  change (replace_all ":" "-" ":") with "-"%string.
  change (replace_all ":" "-" ".") with "."%string.
  unfold before_first.
  replace (date ++ "_" ++ h ++ "-" ++ m ++ "-" ++ s ++ "."
           ++ replace_all ":" "-" rest)%string
    with ((date ++ "_" ++ h ++ "-" ++ m ++ "-" ++ s)
          ++ String "." (replace_all ":" "-" rest))%string
    by (now rewrite !string_app_assoc).
  rewrite span_app; [reflexivity | | reflexivity].
  rewrite !all_chars_app, !(Hno "."%char) by auto. reflexivity.
Qed.

Lemma timestamp_of_iso_witness :
  timestamp "2024-01-02T03:04:05.678Z" = "2024-01-02_03-04-05"%string.
Proof.
  apply (timestamp_of_iso "2024-01-02" "03" "04" "05" "678Z"); reflexivity.
Defined.

Lemma all_chars_span_fst p : forall s, all_chars p (fst (span p s)) = true.
Proof.
  induction s as [ | c s IH]; [reflexivity | ].
  cbn [span]. destruct (p c) eqn:Hc; [ | reflexivity].
  destruct (span p s) as [a b]. cbn [fst all_chars] in *. now rewrite Hc, IH.
Qed.

Lemma span_fst_preserves p q : forall s,
  all_chars q s = true -> all_chars q (fst (span p s)) = true.
Proof.
  induction s as [ | c s IH]; [reflexivity | ].
  cbn [span all_chars]. intros H. apply andb_prop in H as [Hc Hs].
  destruct (p c); [ | reflexivity].
  specialize (IH Hs). destruct (span p s) as [a b].
  cbn [fst all_chars] in *. now rewrite Hc, IH.
Qed.

Lemma replace_all_clean c d s :
  c <> d -> all_chars (fun x => negb (Ascii.eqb x c)) (replace_all c d s) = true.
Proof.
  intros Hcd. induction s as [ | x s IH]; [reflexivity | ].
  cbn [replace_all all_chars]. rewrite IH, andb_true_r.
  destruct (Ascii.eqb_spec x c) as [-> | Hx]; apply negb_true_iff;
    apply Ascii.eqb_neq; congruence.
Qed.

(** X23.  Whatever the date prints as, the time stamp holds neither a colon
    nor a dot, so the only dot of a file name that follows the caller's
    prefix is the one of [.json]. *)
Theorem timestamp_clean iso :
  all_chars (fun c => negb (Ascii.eqb c ":") && negb (Ascii.eqb c "."))
            (timestamp iso) = true.
Proof.
  unfold timestamp, before_first.
  set (t := replace_all ":" "-" (replace_first "T" "_" iso)).
  assert (H1 : all_chars (fun x => negb (Ascii.eqb x ".")) (fst (span
                 (fun x => negb (Ascii.eqb x ".")) t)) = true)
    by apply all_chars_span_fst.
  assert (H2 : all_chars (fun x => negb (Ascii.eqb x ":")) (fst (span
                 (fun x => negb (Ascii.eqb x ".")) t)) = true).
  { apply span_fst_preserves. apply replace_all_clean. discriminate. }
  revert H1 H2.
  generalize (fst (span (fun x => negb (Ascii.eqb x ".")) t)).
  induction s as [ | c s IH]; [reflexivity | ].
  cbn [all_chars]. intros H1 H2.
  apply andb_prop in H1 as [Hc1 Hs1]. apply andb_prop in H2 as [Hc2 Hs2].
  now rewrite Hc1, Hc2, (IH Hs1 Hs2).
Qed.

(** ** Independence from the engine *)

(** X24.  What [detect] returns or throws does not depend on the engine it
    starts from: the tensors earlier runs left behind change neither the
    blocks nor the error. *)
Theorem detect_value_independent execute resizeBilinear g labels source
    mW mH e e' :
  fst (detect execute resizeBilinear g labels source mW mH e)
  = fst (detect execute resizeBilinear g labels source mW mH e').
Proof.
  destruct (execute (model_input resizeBilinear source mW mH))
    as [res | msg] eqn:Hexec.
  - pose proof (detect_run execute resizeBilinear g labels source mW mH e
                  res Hexec) as H1.
    pose proof (detect_run execute resizeBilinear g labels source mW mH e'
                  res Hexec) as H2.
    cbn zeta in H1, H2. now rewrite H1, H2.
  - now rewrite !(detect_throws execute resizeBilinear g labels source
                    mW mH _ msg Hexec).
Qed.
